(** * supportbot-go: session registry, message router, agent loop and the
      browser-side pending-response table

    A shallow embedding of
    - [internal/model/session.go] and the session service ([SessionService]),
    - the WebSocket handler's message router ([handleMessage]),
    - the tool registry and the assistant's [processRequest] loop,
    - [web/js/websocket.js] ([WebSocketManager]),
    followed by the properties established about them. *)

From stdpp Require Import gmap strings list fin_maps.
From Stdlib Require Import ZArith Lia.

Local Open Scope Z_scope.
#[local] Set Warnings "-register-all".

(** ** Go runtime conventions used by the embedding *)

(** [int] and [int64] are 64-bit two's complement: arithmetic wraps. *)
Definition wrap64 (z : Z) : Z := (z + 2 ^ 63) mod 2 ^ 64 - 2 ^ 63.

(** [time.Time] is read as nanoseconds on one clock; [time.Duration] is an
    [int64] count of nanoseconds and [Time.Sub] saturates at its bounds. *)
Definition Time := Z.
Definition Duration := Z.
Definition minDuration : Duration := - 2 ^ 63.
Definition maxDuration : Duration := 2 ^ 63 - 1.
Definition Second : Duration := 1000000000.

Definition Sub (t u : Time) : Duration :=
  Z.max minDuration (Z.min maxDuration (t - u)).

(** A [*websocket.Conn] is a handle; two handles are the same connection
    exactly when they are equal. *)
Definition Conn := positive.

(** ** internal/model: messages *)

Record ChatMessage := mkChatMessage {
  cm_MessageID : string;
  cm_Type : string;
  cm_Content : string;
  cm_Sender : Z;
  cm_SenderName : string;
  cm_SessionID : string;
  cm_Timestamp : Time
}.

Record ChatResponse := mkChatResponse {
  Success : bool;
  MessageID : string;
  Message : string
}.

(** The [interface{}] handed to [SendMessageToUser]: the two payloads the
    gateway ever writes. *)
Inductive Payload :=
| PResponse (r : ChatResponse)
| PMessage (m : ChatMessage).

(** ** internal/model/session.go *)

Record UserSession := mkUserSession {
  UserID : Z;
  Username : string;
  SConn : Conn;
  SessionID : string;
  ClientIP : string;
  LastHeartbeat : Time;
  MissedBeats : Z
}.

Module Session.

Definition UpdateHeartbeat (now : Time) (s : UserSession) : UserSession :=
  mkUserSession (UserID s) (Username s) (SConn s) (SessionID s) (ClientIP s)
                now 0.

Definition IncrementMissedBeats (s : UserSession) : UserSession :=
  mkUserSession (UserID s) (Username s) (SConn s) (SessionID s) (ClientIP s)
                (LastHeartbeat s) (wrap64 (MissedBeats s + 1)).

Definition ShouldBeCleaned (s : UserSession) : bool :=
  bool_decide (3 <= MissedBeats s).

End Session.

(** ** The session service *)

(** A [go f(...)] statement: the call is recorded, not run. *)
Inductive Goroutine :=
| GoRemoveUserByID (userID : Z)
| GoHandleUserMessage (userID : Z) (content : string).

(** The two indices of [SessionService] together with what its methods do
    to the outside: [Conn.Close()] calls, frames accepted by
    [Conn.WriteJSON], goroutines started. The logs grow at the end. *)
Record Registry := mkRegistry {
  userSessions : gmap Z UserSession;
  sessionToUser : gmap string Z;
  closed : list Conn;
  written : list (Conn * Payload);
  spawned : list Goroutine
}.

Definition NewSessionService : Registry := mkRegistry ∅ ∅ [] [] [].

Definition set_indices (us : gmap Z UserSession) (su : gmap string Z)
    (s : Registry) : Registry :=
  mkRegistry us su (closed s) (written s) (spawned s).

Definition close_conn (c : Conn) (s : Registry) : Registry :=
  mkRegistry (userSessions s) (sessionToUser s) (closed s ++ [c])
             (written s) (spawned s).

Definition write_frame (c : Conn) (p : Payload) (s : Registry) : Registry :=
  mkRegistry (userSessions s) (sessionToUser s) (closed s)
             (written s ++ [(c, p)]) (spawned s).

Definition go (g : Goroutine) (s : Registry) : Registry :=
  mkRegistry (userSessions s) (sessionToUser s) (closed s) (written s)
             (spawned s ++ [g]).

Inductive SendError :=
| ErrUserOffline
| ErrWrite (e : string).

Section SessionService.

(** The transport: [WriteJSON c p] is [None] when the frame is accepted and
    [Some e] when the write fails with error [e]. *)
Variable WriteJSON : Conn -> Payload -> option string.

Definition RegisterUser (now : Time) (userID : Z) (username : string)
    (conn : Conn) (sessionID : string) (clientIP : string)
    (s : Registry) : Registry :=
  let s1 :=
    match userSessions s !! userID with
    | Some existingSession =>
        set_indices (userSessions s)
                    (delete (SessionID existingSession) (sessionToUser s))
                    (close_conn (SConn existingSession) s)
    | None => s
    end in
  let session :=
    mkUserSession userID username conn sessionID clientIP now 0 in
  set_indices (<[userID := session]> (userSessions s1))
              (<[sessionID := userID]> (sessionToUser s1)) s1.

Definition RemoveUserBySessionID (sessionID : string) (s : Registry)
    : Registry :=
  match sessionToUser s !! sessionID with
  | Some userID =>
      set_indices (delete userID (userSessions s))
                  (delete sessionID (sessionToUser s)) s
  | None => s
  end.

Definition RemoveUserByID (userID : Z) (s : Registry) : Registry :=
  match userSessions s !! userID with
  | Some session =>
      set_indices (delete userID (userSessions s))
                  (delete (SessionID session) (sessionToUser s)) s
  | None => s
  end.

Definition SendMessageToUser (userID : Z) (message : Payload)
    (s : Registry) : option SendError * Registry :=
  match userSessions s !! userID with
  | None => (Some ErrUserOffline, s)
  | Some session =>
      match WriteJSON (SConn session) message with
      | Some e => (Some (ErrWrite e), go (GoRemoveUserByID userID) s)
      | None => (None, write_frame (SConn session) message s)
      end
  end.

Definition UpdateHeartbeat (now : Time) (userID : Z) (s : Registry)
    : bool * Registry :=
  match userSessions s !! userID with
  | None => (false, s)
  | Some session =>
      (true,
       set_indices (<[userID := Session.UpdateHeartbeat now session]>
                      (userSessions s))
                   (sessionToUser s) s)
  end.

Definition GetOnlineCount (s : Registry) : nat := size (userSessions s).

(** One pass of the body of [heartbeatChecker]'s [for range ticker.C]
    loop. The inner [range] visits every entry of [userSessions]; an
    iteration changes only the entry it is visiting, so each entry is met
    once with the value it had when the pass began. *)
Definition expired (now : Time) (session : UserSession) : bool :=
  bool_decide (60 * Second < Sub now (LastHeartbeat session)).

Definition scanSession (now : Time) (userID : Z) (session : UserSession)
    (s : Registry) : Registry :=
  if expired now session then
    let session' := Session.IncrementMissedBeats session in
    if Session.ShouldBeCleaned session' then
      set_indices (delete userID (userSessions s))
                  (delete (SessionID session') (sessionToUser s))
                  (close_conn (SConn session') s)
    else
      set_indices (<[userID := session']> (userSessions s))
                  (sessionToUser s) s
  else s.

Definition heartbeatScan (now : Time) (s : Registry) : Registry :=
  map_fold (scanSession now) s (userSessions s).

(** Running a goroutine started by the service. [HandleUserMessage] is
    the chat service's classification job; the registry sees it only
    through the callback endpoint, so here it leaves the registry as it
    is. *)
Definition runGoroutine (g : Goroutine) (s : Registry) : Registry :=
  match g with
  | GoRemoveUserByID userID => RemoveUserByID userID s
  | GoHandleUserMessage _ _ => s
  end.

End SessionService.

(** ** The WebSocket handler's message router *)

Module Router.

Inductive LogEntry :=
| DebugHeartbeat (userID : Z)
| WarnUnknownType (userID : Z) (type : string).

Definition ackText : string := "消息已收到，正在处理中...".

Definition ack (msg : ChatMessage) : ChatResponse :=
  mkChatResponse true (cm_MessageID msg) ackText.

(** [handleMessage] returns nothing; what it does is the new registry and
    the entries it hands to the handler's logger. *)
Definition handleMessage (WriteJSON : Conn -> Payload -> option string)
    (now : Time) (userID : Z) (msg : ChatMessage) (s : Registry)
    : Registry * list LogEntry :=
  if decide (cm_Type msg = "CHAT") then
    let s1 := go (GoHandleUserMessage userID (cm_Content msg)) s in
    ((SendMessageToUser WriteJSON userID (PResponse (ack msg)) s1).2, [])
  else if decide (cm_Type msg = "HEARTBEAT") then
    ((UpdateHeartbeat now userID s).2, [DebugHeartbeat userID])
  else
    (s, [WarnUnknownType userID (cm_Type msg)]).

End Router.

(** ** The tool registry and the assistant's agent loop *)

(** A decoded JSON document ([interface{}] after [json.Unmarshal], or a
    value handed to [json.Marshal]); numbers are kept as their literal. *)
Inductive json :=
| JNull
| JBool (b : bool)
| JNum (literal : string)
| JStr (s : string)
| JArr (items : list json)
| JObj (fields : list (string * json)).

Module Tools.

Definition Params := list (string * json).

Definition ToolHandler := Params -> string + json.

Record Tool := mkTool {
  Name : string;
  Description : string;
  Handler : option ToolHandler
}.

Record ToolCall := mkToolCall {
  ID : string;
  Type_ : string;
  FunctionName : string;
  FunctionArguments : string
}.

Section Registry.

(** [json.Unmarshal] into a [map[string]interface{}]: the decoded
    object, or the decoder's error text. *)
Variable Unmarshal : string -> string + Params.

Definition ParseArguments (tc : ToolCall) : string + Params :=
  match Unmarshal (FunctionArguments tc) with
  | inl err => inl ("解析参数失败: " +:+ err)
  | inr params => inr params
  end.

Definition Execute_tool (t : Tool) (params : Params) : string + json :=
  match Handler t with
  | None => inl ("tool handler not implemented: " +:+ Name t)
  | Some h => h params
  end.

Definition Get (tools : gmap string Tool) (name : string)
    : string + Tool :=
  match tools !! name with
  | None => inl ("tool not found: " +:+ name)
  | Some tool => inr tool
  end.

Definition Execute (tools : gmap string Tool) (toolCall : ToolCall)
    : string + json :=
  match Get tools (FunctionName toolCall) with
  | inl err => inl err
  | inr tool =>
      match ParseArguments toolCall with
      | inl err => inl err
      | inr params =>
          match Execute_tool tool params with
          | inl err => inl err
          | inr result => inr result
          end
      end
  end.

Definition GetFunctionDefs (tools : gmap string Tool)
    : list (string * string) :=
  (fun kt => (Name kt.2, Description kt.2)) <$> map_to_list tools.

End Registry.

End Tools.

Module Assistant.

(** [client.Message], [client.Choice] and the [Output] of
    [client.ChatResponse]. *)
Record Message := mkMessage {
  Role : string;
  Content : string;
  ToolCalls : list Tools.ToolCall;
  ToolCallID : string
}.

Record Choice := mkChoice {
  FinishReason : string;
  ChoiceMessage : Message
}.

Record Output := mkOutput {
  Text : string;
  Choices : list Choice
}.

Definition maxIterations : nat := 5.

Definition llmFailed : string := "抱歉，处理您的请求时出错了。".
Definition noAnswer : string := "抱歉，没有获取到回答。".

(** What one run of [processRequest] leaves behind: the text handed to
    [sendToIM], the conversation buffer, and the buffers the reasoning
    collaborator was called with, in call order. *)
Record Run := mkRun {
  finalResponse : string;
  messages : list Message;
  llmCalls : list (list Message)
}.

Section Loop.

Variable Unmarshal : string -> string + Tools.Params.
Variable Marshal : json -> string.

(** [llmClient.ChatWithTools]: the answer to the [i]-th call (counted
    from 0) on the given buffer and tool definitions, [inl] for a
    transport failure. *)
Variable ChatWithTools :
  nat -> list Message -> list (string * string) -> string + Output.

Variable tools : gmap string Tools.Tool.

(** The body of [for _, toolCall := range assistantMsg.ToolCalls]: the
    entry appended for one call. *)
Definition toolEntry (toolCall : Tools.ToolCall) : Message :=
  let result :=
    match Tools.Execute Unmarshal tools toolCall with
    | inl err => JObj [("error", JStr err)]
    | inr result => result
    end in
  mkMessage "tool" (Marshal result) [] (Tools.ID toolCall).

Definition requestedTools (resp : Output) : option Message :=
  match Choices resp with
  | c :: _ =>
      match ToolCalls (ChoiceMessage c) with
      | _ :: _ => Some (ChoiceMessage c)
      | [] => None
      end
  | [] => None
  end.

Definition answerOf (resp : Output) : string :=
  if decide (Text resp = "") then
    match Choices resp with
    | c :: _ => Content (ChoiceMessage c)
    | [] => noAnswer
    end
  else Text resp.

(** [for i := 0; i < maxIterations; i++]: [left] is
    [maxIterations - i]. [finalResponse] is declared without a value
    and assigned only on the two [break] paths. *)
Fixpoint iterate (left : nat) (i : nat) (msgs : list Message)
    (calls : list (list Message)) : Run :=
  match left with
  | O => mkRun "" msgs calls
  | S left' =>
      let calls' := calls ++ [msgs] in
      match ChatWithTools i msgs (Tools.GetFunctionDefs tools) with
      | inl _ => mkRun llmFailed msgs calls'
      | inr resp =>
          match requestedTools resp with
          | Some assistantMsg =>
              iterate left' (S i)
                      (msgs ++ assistantMsg
                            :: (toolEntry <$> ToolCalls assistantMsg))
                      calls'
          | None => mkRun (answerOf resp) msgs calls'
          end
      end
  end.

Definition processRequest (systemPrompt question : string) : Run :=
  iterate maxIterations 0
          [mkMessage "system" systemPrompt [] "";
           mkMessage "user" question [] ""]
          [].

End Loop.

End Assistant.

(** ** web/js/websocket.js: [WebSocketManager] *)

Module WS.

(** Values a decoded frame can hold in its properties. *)
Inductive jsval :=
| JSUndefined
| JSNull
| JSBool (b : bool)
| JSNum (n : Z)
| JSStr (s : string).

#[export] Instance jsval_eq_dec : EqDecision jsval.
Proof. solve_decision. Defined.

(** A plain object; reading a property it lacks gives [undefined]. *)
Abbreviation jsobj := (gmap string jsval).

Definition prop (o : jsobj) (k : string) : jsval :=
  default JSUndefined (o !! k).

Definition truthy (v : jsval) : bool :=
  match v with
  | JSUndefined | JSNull => false
  | JSBool b => b
  | JSNum n => negb (n =? 0)
  | JSStr s => negb (String.eqb s "")
  end.

(** What a promise's [resolve] or [reject] is called with. *)
Inductive Settlement :=
| Resolve (payload : jsobj)
| Reject (payload : jsobj)
| RejectError (message : string).

(** A live [setTimeout] timer. Its callback is the closure built in
    [sendWithResponse], which captures [messageId] and the promise's
    [reject]. *)
Record Timer := mkTimer {
  timerId : nat;
  deadline : Z;
  timerMessageId : string;
  timerPromise : nat
}.

(** An entry of [pendingResponses]: [resolve] and [reject] of one promise,
    and the timer handle. *)
Record PendingResponse := mkPending {
  promise : nat;
  timeout : nat
}.

Inductive ConsoleEntry :=
| WarnNoPending (messageID : jsval)
| ErrorNotConnected.

Record Manager := mkManager {
  clock : Z;                                  (* milliseconds *)
  wsOpen : bool;            (* this.ws && this.ws.readyState === OPEN *)
  hasCallback : bool;                   (* this.onMessageCallback set *)
  pendingResponses : gmap string PendingResponse;
  timers : list Timer;                     (* live timers, oldest first *)
  nextId : nat;                    (* next promise and timer identifier *)
  settled : list (nat * Settlement);     (* resolve/reject calls, in order *)
  sent : list jsobj;                           (* frames given to ws.send *)
  delivered : list jsobj;                (* onMessageCallback arguments *)
  console : list ConsoleEntry
}.

Definition timeoutMs : Z := 30000.
Definition timeoutText : string := "请求超时".

(** A manager that has sent nothing yet; [connected] has its socket open
    and a message callback installed. *)
Definition fresh (open callback : bool) : Manager :=
  mkManager 0 open callback ∅ [] 0 [] [] [] [].

Definition connected : Manager := fresh true true.

Definition with_pending (m : gmap string PendingResponse) (st : Manager) :=
  mkManager (clock st) (wsOpen st) (hasCallback st) m (timers st)
            (nextId st) (settled st) (sent st) (delivered st) (console st).

Definition with_timers (ts : list Timer) (st : Manager) :=
  mkManager (clock st) (wsOpen st) (hasCallback st) (pendingResponses st)
            ts (nextId st) (settled st) (sent st) (delivered st)
            (console st).

Definition settle (p : nat) (o : Settlement) (st : Manager) :=
  mkManager (clock st) (wsOpen st) (hasCallback st) (pendingResponses st)
            (timers st) (nextId st) (settled st ++ [(p, o)]) (sent st)
            (delivered st) (console st).

Definition log (e : ConsoleEntry) (st : Manager) :=
  mkManager (clock st) (wsOpen st) (hasCallback st) (pendingResponses st)
            (timers st) (nextId st) (settled st) (sent st) (delivered st)
            (console st ++ [e]).

Definition clearTimeout (tid : nat) (st : Manager) :=
  with_timers (filter (fun t => timerId t ≠ tid) (timers st)) st.

(** [send]: failures of [ws.send] are caught inside, so it never throws
    and the [catch] of [sendWithResponse] is never entered. *)
Definition send (message : jsobj) (st : Manager) : Manager :=
  if wsOpen st then
    mkManager (clock st) (wsOpen st) (hasCallback st) (pendingResponses st)
              (timers st) (nextId st) (settled st) (sent st ++ [message])
              (delivered st) (console st)
  else log ErrorNotConnected st.

(** [sendWithResponse] returns the new promise. *)
Definition sendWithResponse (message : jsobj) (messageId : string)
    (st : Manager) : nat * Manager :=
  let p := nextId st in
  let t := mkTimer p (clock st + timeoutMs) messageId p in
  let st1 :=
    mkManager (clock st) (wsOpen st) (hasCallback st)
              (<[messageId := mkPending p p]> (pendingResponses st))
              (timers st ++ [t]) (S p) (settled st) (sent st)
              (delivered st) (console st) in
  (p, send message st1).

(** [Map.get] compares keys without conversion; the table's keys are
    strings. *)
Definition getPending (messageID : jsval) (st : Manager)
    : option (string * PendingResponse) :=
  match messageID with
  | JSStr k => (fun e => (k, e)) <$> pendingResponses st !! k
  | _ => None
  end.

Definition reply (success : bool) (message messageID : jsval) : jsobj :=
  <["success" := JSBool success]>
    (<["message" := message]> (<["messageId" := messageID]> ∅)).

Definition handleResponse (response : jsobj) (st : Manager) : Manager :=
  let messageID := prop response "messageID" in
  let success := prop response "success" in
  let message := prop response "message" in
  match getPending messageID st with
  | Some (k, pendingResponse) =>
      let st1 := clearTimeout (timeout pendingResponse) st in
      let st2 := with_pending (delete k (pendingResponses st1)) st1 in
      if truthy success then
        settle (promise pendingResponse)
               (Resolve (reply true message messageID)) st2
      else
        settle (promise pendingResponse)
               (Reject (reply false message messageID)) st2
  | None => log (WarnNoPending messageID) st
  end.

Definition handleMessage (data : jsobj) (st : Manager) : Manager :=
  if bool_decide (prop data "success" ≠ JSUndefined)
     && truthy (prop data "messageID") then
    handleResponse data st
  else if hasCallback st then
    mkManager (clock st) (wsOpen st) (hasCallback st) (pendingResponses st)
              (timers st) (nextId st) (settled st) (sent st)
              (delivered st ++ [data]) (console st)
  else st.

(** The timer callback of [sendWithResponse], run when timer [t] fires;
    a fired timer is no longer live. *)
Definition fire (t : Timer) (st : Manager) : Manager :=
  let st1 := clearTimeout (timerId t) st in
  let st2 := with_pending (delete (timerMessageId t) (pendingResponses st1))
                          st1 in
  settle (timerPromise t) (RejectError timeoutText) st2.

(** Timer [t] is taken out, the entry under its message id is deleted and
    its promise is settled with [o]: what both resolution paths do. *)
Definition complete (t : Timer) (o : Settlement) (st : Manager) : Manager :=
  let st1 := clearTimeout (timerId t) st in
  settle (timerPromise t) o
         (with_pending (delete (timerMessageId t) (pendingResponses st1)) st1).

(** [d] milliseconds pass: the timers due by then fire, oldest first
    (every timer runs for the same 30 seconds and the clock only moves
    forward, so the oldest is the earliest due). *)
Definition advance (d : N) (st : Manager) : Manager :=
  let now := clock st + Z.of_N d in
  let st1 :=
    mkManager now (wsOpen st) (hasCallback st) (pendingResponses st)
              (timers st) (nextId st) (settled st) (sent st) (delivered st)
              (console st) in
  foldl (fun acc t => fire t acc) st1
        (filter (fun t => deadline t <= now) (timers st)).

(** The socket opens or closes. *)
Definition socket (open : bool) (st : Manager) : Manager :=
  mkManager (clock st) open (hasCallback st) (pendingResponses st)
            (timers st) (nextId st) (settled st) (sent st) (delivered st)
            (console st).

(** What can happen to a manager: a request is sent, a frame arrives and is
    decoded, [handleResponse] is called with a response, time passes, the
    socket changes state. *)
Inductive Event :=
| EvSend (message : jsobj) (messageId : string)
| EvFrame (data : jsobj)
| EvResponse (response : jsobj)
| EvElapse (d : N)
| EvSocket (open : bool).

Definition step (st : Manager) (e : Event) : Manager :=
  match e with
  | EvSend message messageId => (sendWithResponse message messageId st).2
  | EvFrame data => handleMessage data st
  | EvResponse response => handleResponse response st
  | EvElapse d => advance d st
  | EvSocket open => socket open st
  end.

Definition run (es : list Event) (st : Manager) : Manager :=
  foldl step st es.

(** How often the promise [p] had [resolve] or [reject] called. *)
Definition resolutions (p : nat) (st : Manager) : nat :=
  length (filter (fun x => x.1 = p) (settled st)).

(** A [ChatResponse] as the gateway's [WriteJSON] puts it on the wire
    (json tags [success], [messageId] with [omitempty], [message]) and
    [JSON.parse] hands it to [handleMessage]. *)
Definition wireFrame (r : ChatResponse) : jsobj :=
  <["success" := JSBool (Success r)]>
    (<["message" := JSStr (Message r)]>
       (if decide (MessageID r = "") then ∅
        else <["messageId" := JSStr (MessageID r)]> ∅)).

(** The bookkeeping that ties the table, the live timers and the
    resolution log together. *)
Record Inv (st : Manager) : Prop := mkInv {
  inv_entry : ∀ k e, pendingResponses st !! k = Some e →
    ∃ t, t ∈ timers st ∧ timerId t = timeout e
         ∧ timerPromise t = promise e ∧ timerMessageId t = k;
  inv_live : ∀ t, t ∈ timers st → resolutions (timerPromise t) st = 0%nat;
  inv_once : ∀ p, (resolutions p st ≤ 1)%nat;
  inv_nodup : NoDup (timers st);
  inv_ids : ∀ t1 t2, t1 ∈ timers st → t2 ∈ timers st →
    timerId t1 = timerId t2 → t1 = t2;
  inv_timer : ∀ t, t ∈ timers st →
    timerPromise t = timerId t ∧ (timerId t < nextId st)%nat;
  inv_settled : ∀ p o, (p, o) ∈ settled st → (p < nextId st)%nat
}.

End WS.

(** ** Predicates the properties are stated with *)

(** What one scan does to a session it visits: [None] when it evicts it. *)
Definition evicted (now : Time) (session : UserSession) : bool :=
  expired now session
  && Session.ShouldBeCleaned (Session.IncrementMissedBeats session).

Definition scanned (now : Time) (session : UserSession)
    : option UserSession :=
  if expired now session then
    if Session.ShouldBeCleaned (Session.IncrementMissedBeats session)
    then None
    else Some (Session.IncrementMissedBeats session)
  else Some session.

(** Every session-id key leads to an identity whose session bears that id. *)
Definition sid_sound (s : Registry) : Prop :=
  ∀ sid uid, sessionToUser s !! sid = Some uid →
    ∃ session, userSessions s !! uid = Some session
               ∧ SessionID session = sid.

(** Every registered session's id is a key of the session-id index. *)
Definition sid_indexed (s : Registry) : Prop :=
  ∀ uid session, userSessions s !! uid = Some session →
    is_Some (sessionToUser s !! SessionID session).

(** No identity is reached from two session ids. *)
Definition one_session_per_identity (s : Registry) : Prop :=
  ∀ sid1 sid2 uid,
    sessionToUser s !! sid1 = Some uid → sessionToUser s !! sid2 = Some uid →
    sid1 = sid2.

Definition consistent (s : Registry) : Prop :=
  one_session_per_identity s ∧ sid_sound s ∧ sid_indexed s.

(** Every registered session's id leads back to the session's own
    identity. *)
Definition sid_owned (s : Registry) : Prop :=
  ∀ uid session, userSessions s !! uid = Some session →
    sessionToUser s !! SessionID session = Some uid.

Definition wf (s : Registry) : Prop := sid_sound s ∧ sid_owned s.

(** The operations that change the registry. *)
Inductive Op :=
| OpRegister (now : Time) (userID : Z) (username : string) (conn : Conn)
             (sessionID : string) (clientIP : string)
| OpRemoveBySessionID (sessionID : string)
| OpRemoveByID (userID : Z)
| OpHeartbeat (now : Time) (userID : Z)
| OpScan (now : Time)
| OpSend (userID : Z) (message : Payload)
| OpRun (g : Goroutine).

Definition apply_op (WriteJSON : Conn -> Payload -> option string)
    (op : Op) (s : Registry) : Registry :=
  match op with
  | OpRegister now userID username conn sessionID clientIP =>
      RegisterUser now userID username conn sessionID clientIP s
  | OpRemoveBySessionID sessionID => RemoveUserBySessionID sessionID s
  | OpRemoveByID userID => RemoveUserByID userID s
  | OpHeartbeat now userID => (UpdateHeartbeat now userID s).2
  | OpScan now => heartbeatScan now s
  | OpSend userID message => (SendMessageToUser WriteJSON userID message s).2
  | OpRun g => runGoroutine g s
  end.

(** A registration brings a session id that no other identity is
    registered under (the handler draws it with [uuid.New()]). *)
Definition fresh_sid (s : Registry) (op : Op) : Prop :=
  match op with
  | OpRegister _ userID _ _ sessionID _ =>
      ∀ uid, sessionToUser s !! sessionID = Some uid → uid = userID
  | _ => True
  end.

(** ** Sample registries, transports and frames *)

Definition writeOK : Conn -> Payload -> option string := fun _ _ => None.

Definition writeFails : Conn -> Payload -> option string :=
  fun _ _ => Some "write: broken pipe".

(** Identity 42 connected once, on handle 7. *)
Definition reg42 : Registry :=
  RegisterUser 0 42 "用户42" 7%positive "sid-a" "10.0.0.1" NewSessionService.

Definition session42 : UserSession :=
  mkUserSession 42 "用户42" 7%positive "sid-a" "10.0.0.1" 0 0.

(** Identities 1 and 2 registered under the same session id. *)
Definition sharedSid : Registry :=
  RegisterUser 0 2 "用户2" 2%positive "s" "10.0.0.2"
    (RegisterUser 0 1 "用户1" 1%positive "s" "10.0.0.1" NewSessionService).

Definition chatM1 : ChatMessage :=
  mkChatMessage "m1" "CHAT" "hello" 42 "" "" 0.

Definition beatM2 : ChatMessage :=
  mkChatMessage "" "HEARTBEAT" "" 0 "" "" 0.

Definition typingM3 : ChatMessage :=
  mkChatMessage "m3" "TYPING" "" 42 "" "" 0.

(** A decoder that rejects every argument string and one that accepts
    every one, a stand-in for [json.Marshal], and a reasoning collaborator
    that asks for the same tool on every call. *)
Definition rejectArgs : string -> string + Tools.Params :=
  fun _ => inl "unexpected end of JSON input".

Definition acceptArgs : string -> string + Tools.Params :=
  fun _ => inr [("order_id", JStr "20240101001")].

Definition showJSON (v : json) : string :=
  match v with
  | JObj [(k, JStr e)] => k +:+ ": " +:+ e
  | JStr e => e
  | _ => "null"
  end.

Definition orderCall : Tools.ToolCall :=
  Tools.mkToolCall "call_1" "function" "get_order_detail" "{".

Definition toolRequest : Assistant.Message :=
  Assistant.mkMessage "assistant" "" [orderCall] "".

Definition alwaysTool (i : nat) (msgs : list Assistant.Message)
    (defs : list (string * string)) : string + Assistant.Output :=
  inr (Assistant.mkOutput "" [Assistant.mkChoice "tool_calls" toolRequest]).

Definition orderTools : gmap string Tools.Tool :=
  {["get_order_detail" :=
      Tools.mkTool "get_order_detail" "查询订单详情"
        (Some (fun _ => inl "order not found"))]}.

Definition ackM1 : ChatResponse :=
  mkChatResponse true "m1" "消息已收到，正在处理中...".

(** A response whose id sits under the key that [handleMessage] reads. *)
Definition replyX : WS.jsobj :=
  <["success" := WS.JSBool true]>
    (<["messageID" := WS.JSStr "x"]> (<["message" := WS.JSStr "ok"]> ∅)).

Definition chatFrame : WS.jsobj :=
  <["messageId" := WS.JSStr "m1"]>
    (<["type" := WS.JSStr "CHAT"]>
       (<["content" := WS.JSStr "hello"]> (<["sender" := WS.JSNum 42]> ∅))).

(** ** The gateway's HTTP and WebSocket handlers *)

Record AIResponseRequest := mkAIResponseRequest {
  ai_UserID : Z;
  ai_Content : string;
  ai_Source : string
}.

Module Handler.

(** How [HandleWebSocket] ends: the uid did not parse (status 400), the
    upgrade failed, or the connection was served until a read failed. *)
Inductive WSOutcome :=
| InvalidUID
| UpgradeFailed
| Disconnected.

Section WebSocket.

Variable WriteJSON : Conn -> Payload -> option string.

(** [strconv.ParseInt(s, 10, 64)]: the number, or [None] for an error. *)
Variable ParseInt : string -> option Z.

(** The message loop. [reads] are the outcomes of the successive
    [conn.ReadJSON] calls, each with the time at which its message is
    handled: [Some msg] for a decoded message, [None] for a read that
    returns an error; the end of the list is the read that fails because
    the peer is gone. The first failed read leaves the loop. *)
Fixpoint serve (userID : Z) (reads : list (Time * option ChatMessage))
    (s : Registry) (logs : list Router.LogEntry)
    : Registry * list Router.LogEntry :=
  match reads with
  | [] => (s, logs)
  | (_, None) :: _ => (s, logs)
  | (now, Some msg) :: rest =>
      let r := Router.handleMessage WriteJSON now userID msg s in
      serve userID rest r.1 (logs ++ r.2)
  end.

(** One connection, run on its own from the upgrade to the deferred calls:
    [upgraded] is the connection the upgrade yields ([None] when it fails),
    [sessionID] the identifier drawn for it. The deferred calls run last
    registered first: the session is removed, then the connection closed. *)
Definition HandleWebSocket (userIDStr : string) (upgraded : option Conn)
    (sessionID clientIP : string) (now : Time)
    (reads : list (Time * option ChatMessage)) (s : Registry)
    : WSOutcome * Registry * list Router.LogEntry :=
  match ParseInt userIDStr with
  | None => (InvalidUID, s, [])
  | Some userID =>
      match upgraded with
      | None => (UpgradeFailed, s, [])
      | Some conn =>
          let s1 := RegisterUser now userID ("用户" +:+ userIDStr) conn
                                 sessionID clientIP s in
          let r := serve userID reads s1 [] in
          (Disconnected,
           close_conn conn (RemoveUserBySessionID sessionID r.1), r.2)
      end
  end.

(** [ReceiveAIResponse]: [req] is the bound request body ([None] when the
    binding fails), [uuid] the message id drawn for the frame. The result
    is the status code and the [success] flag of the body. *)
Definition aiMessage (uuid : string) (now : Time) (req : AIResponseRequest)
    : ChatMessage :=
  mkChatMessage uuid "AI_RESPONSE" (ai_Content req) 0 "AI助手" "" now.

Definition ReceiveAIResponse (uuid : string) (now : Time)
    (req : option AIResponseRequest) (s : Registry)
    : (nat * bool) * Registry :=
  match req with
  | None => ((400%nat, false), s)
  | Some req =>
      let r := SendMessageToUser WriteJSON (ai_UserID req)
                 (PMessage (aiMessage uuid now req)) s in
      match r.1 with
      | Some _ => ((500%nat, false), r.2)
      | None => ((200%nat, true), r.2)
      end
  end.

End WebSocket.

(** [UserLogin]: the uid handed out for a user name, or the 400 answers.
    [len] counts bytes and the product is an [int]. *)
Definition loginID (username : string) : Z :=
  wrap64 (Z.of_nat (String.length username) * 123).

Definition UserLogin (body : option string) : nat * option (Z * string) :=
  match body with
  | None => (400%nat, None)
  | Some username =>
      if decide (username = "") then (400%nat, None)
      else (200%nat, Some (loginID username, username))
  end.

End Handler.

(** Every registered session is stored under its own [UserID] and has
    missed fewer than three beats. *)
Definition sessions_ok (s : Registry) : Prop :=
  ∀ uid x, userSessions s !! uid = Some x →
    UserID x = uid ∧ 0 <= MissedBeats x < 3.

(** A uid parser that knows the text of 42 only, and a heartbeat frame read
    at second 10. *)
Definition parse42 (s : string) : option Z :=
  if decide (s = "42") then Some 42 else None.

Definition readsM1 : list (Time * option ChatMessage) :=
  [(5 * Second, Some chatM1); (10 * Second, Some beatM2)].

(** ** The tool registry's bookkeeping and the built-in tools *)

Module ToolRegistry.

(** [Register]: the error, if any, and the registry afterwards. *)
Definition Register (tools : gmap string Tools.Tool) (tool : Tools.Tool)
    : option string * gmap string Tools.Tool :=
  if decide (Tools.Name tool = "") then
    (Some "tool name cannot be empty", tools)
  else
    match tools !! Tools.Name tool with
    | Some _ =>
        (Some ("tool already registered: " +:+ Tools.Name tool), tools)
    | None => (None, <[Tools.Name tool := tool]> tools)
    end.

(** [List]: the registered tools, in the order the map yields them. *)
Definition List (tools : gmap string Tools.Tool) : list Tools.Tool :=
  (map_to_list tools).*2.

Definition Count (tools : gmap string Tools.Tool) : nat := size tools.

(** The entries of a decoded argument object, one per key:
    [params[k]] and the type assertion [.(string)]. *)
Fixpoint field (k : string) (params : Tools.Params) : option json :=
  match params with
  | [] => None
  | (k', v) :: rest => if decide (k' = k) then Some v else field k rest
  end.

Definition asString (v : option json) : option string :=
  match v with
  | Some (JStr s) => Some s
  | _ => None
  end.

Definition dquote : string := String (Ascii.ascii_of_nat 34) EmptyString.

Definition products : list (string * json) :=
  [("30001",
    JObj [("id", JStr "30001"); ("name", JStr "iPhone 15 Pro Max");
          ("price", JNum "9999.00"); ("stock", JNum "128");
          ("color", JStr "钛金色"); ("storage", JStr "256GB");
          ("description",
           JStr "A17 Pro 芯片，钛金属设计，支持 Action 按钮")]);
   ("30002",
    JObj [("id", JStr "30002");
          ("name", JStr ("MacBook Pro 16" +:+ dquote));
          ("price", JNum "19999.00"); ("stock", JNum "45");
          ("chip", JStr "M3 Max"); ("memory", JStr "32GB");
          ("storage", JStr "1TB SSD");
          ("description", JStr "专业性能，适合创作者")]);
   ("30003",
    JObj [("id", JStr "30003"); ("name", JStr "AirPods Pro 2");
          ("price", JNum "1999.00"); ("stock", JNum "320");
          ("features", JStr "主动降噪、自适应音频、空间音频");
          ("description", JStr "新一代降噪耳机")])].

Definition orders : list (string * json) :=
  [("20240101001",
    JObj [("order_id", JStr "20240101001"); ("status", JStr "已发货");
          ("product", JStr "iPhone 15 Pro Max"); ("quantity", JNum "1");
          ("total_amount", JNum "9999.00");
          ("create_time", JStr "2024-01-01 10:30:00");
          ("ship_time", JStr "2024-01-01 15:00:00");
          ("tracking_no", JStr "SF1234567890");
          ("address", JStr "北京市朝阳区xxx路xxx号")]);
   ("20240101002",
    JObj [("order_id", JStr "20240101002"); ("status", JStr "待发货");
          ("product", JStr "AirPods Pro 2"); ("quantity", JNum "2");
          ("total_amount", JNum "3998.00");
          ("create_time", JStr "2024-01-02 14:20:00");
          ("address", JStr "上海市浦东新区xxx路xxx号")])].

Definition productDetailTool : Tools.Tool :=
  Tools.mkTool "get_product_detail"
    "查询商品详细信息，包括名称、价格、规格、库存等"
    (Some (fun params =>
       match asString (field "product_id" params) with
       | None => inl "invalid product_id"
       | Some productID =>
           match field productID products with
           | None => inr (JObj [("error", JStr "商品不存在")])
           | Some product => inr product
           end
       end)).

Definition orderDetailTool : Tools.Tool :=
  Tools.mkTool "get_order_detail"
    "查询订单详细信息，包括订单状态、商品、金额、物流等"
    (Some (fun params =>
       match asString (field "order_id" params) with
       | None => inl "invalid order_id"
       | Some orderID =>
           match field orderID orders with
           | None => inr (JObj [("error", JStr "订单不存在")])
           | Some order => inr order
           end
       end)).

Section Builtin.

(** [time.Now().Add(24 * time.Hour).Format("2006-01-02")]. *)
Variable tomorrow : string.

Definition trackingStep (time location status : string) : json :=
  JObj [("time", JStr time); ("location", JStr location);
        ("status", JStr status)].

Definition shippingTrackingTool : Tools.Tool :=
  Tools.mkTool "get_shipping_tracking"
    "查询订单物流信息，包括当前位置、配送进度、预计送达时间"
    (Some (fun params =>
       match asString (field "order_id" params) with
       | None => inl "invalid order_id"
       | Some orderID =>
           inr (JObj
                  [("order_id", JStr orderID);
                   ("tracking_no", JStr "SF1234567890");
                   ("carrier", JStr "顺丰速运");
                   ("current_location", JStr "北京分拨中心");
                   ("status", JStr "运输中");
                   ("estimated_delivery", JStr tomorrow);
                   ("tracking_info",
                    JArr [trackingStep "2024-01-02 08:00:00" "北京分拨中心"
                            "已签收";
                          trackingStep "2024-01-01 20:30:00" "北京中转站"
                            "运输中";
                          trackingStep "2024-01-01 15:00:00" "北京发货仓"
                            "已发货"])])
       end)).

Definition productAvailabilityTool : Tools.Tool :=
  Tools.mkTool "get_product_availability" "查询商品库存和配送信息"
    (Some (fun params =>
       match asString (field "product_id" params) with
       | None => inl "invalid product_id"
       | Some productID =>
           let region :=
             match asString (field "region" params) with
             | Some r => if decide (r = "") then "北京" else r
             | None => "北京"
             end in
           inr (JObj [("product_id", JStr productID); ("stock", JNum "128");
                      ("available", JBool true); ("region", JStr region);
                      ("estimated_delivery", JStr "明天送达");
                      ("shipping_fee", JNum "0")])
       end)).

(** [for _, tool := range tools]: the first failed [Register] returns. *)
Fixpoint registerAll (ts : list Tools.Tool) (tools : gmap string Tools.Tool)
    : option string * gmap string Tools.Tool :=
  match ts with
  | [] => (None, tools)
  | tool :: rest =>
      match Register tools tool with
      | (Some err, tools') => (Some err, tools')
      | (None, tools') => registerAll rest tools'
      end
  end.

Definition builtinTools : list Tools.Tool :=
  [productDetailTool; orderDetailTool; shippingTrackingTool;
   productAvailabilityTool].

Definition RegisterBuiltinTools (tools : gmap string Tools.Tool)
    : option string * gmap string Tools.Tool :=
  registerAll builtinTools tools.

End Builtin.

Definition builtinNames : list string :=
  ["get_product_detail"; "get_order_detail"; "get_shipping_tracking";
   "get_product_availability"].

(** Every tool is stored under its own, non-empty name. *)
Definition keyed (tools : gmap string Tools.Tool) : Prop :=
  ∀ k t, tools !! k = Some t → Tools.Name t = k ∧ k ≠ "".

End ToolRegistry.

(** ** internal/service: [ClassifierService], category matching and routing *)

Module Classifier.

Record CategoryInfo := mkCategoryInfo {
  Name : string;
  Description : string;
  Keywords : list string;
  AgentURL : string
}.

(** [contains]: the slices [str[:len(substr)]] and
    [str[len(str)-len(substr):]] are [substring]s of the byte string. *)
Definition contains (str substr : string) : bool :=
  (String.length substr <=? String.length str)%nat
  && (bool_decide (str = substr)
      || (String.length substr <? String.length str)%nat
         && (bool_decide
                  (String.substring 0 (String.length substr) str = substr)
             || bool_decide
                  (String.substring
                     (String.length str - String.length substr)
                     (String.length substr) str = substr))).

(** [parseCategory]: [order] is the order in which [range s.categories]
    yields the keys on this call. *)
Definition parseCategory (order : list string) (response : string) : string :=
  match list_find (fun category => contains response category = true) order with
  | Some (_, category) => category
  | None => "general-chat"
  end.

(** The map [NewClassifierService] builds from the categories. *)
Definition agentURLs (categories : gmap string CategoryInfo)
    : gmap string string :=
  AgentURL <$> categories.

Inductive RouteLog :=
| NoAgentURL (category : string)
| MarshalFailed
| AgentCallFailed (category : string)
| AgentCalled (agentURL body : string).

Section Route.

(** [json.Marshal] of the request body and [httpClient.Post]. *)
Variable Marshal : Z -> string -> string -> option string.
Variable Post : string -> string -> bool.

Definition routeToAgent (urls : gmap string string) (userID : Z)
    (question category : string) : RouteLog :=
  match urls !! category with
  | None => NoAgentURL category
  | Some agentURL =>
      match Marshal userID question category with
      | None => MarshalFailed
      | Some jsonData =>
          if Post agentURL jsonData then AgentCalled agentURL jsonData
          else AgentCallFailed category
      end
  end.

End Route.

End Classifier.

(** ** web/js/websocket.js: connection life cycle of [WebSocketManager] *)

Module Client.

Import WS.

(** [this.userId]: [null], or what [connect] stored, a number or [NaN]. *)
Inductive UserId :=
| UNull
| UNaN
| UNum (n : Z).

Definition truthyId (u : UserId) : bool :=
  match u with
  | UNum n => negb (n =? 0)
  | _ => false
  end.

(** [isNaN(null)] is [false]. *)
Definition isNaN (u : UserId) : bool :=
  match u with
  | UNaN => true
  | _ => false
  end.

(** The identity inside a frame; [JSON.stringify] writes [NaN] as
    [null]. *)
Definition idValue (u : UserId) : jsval :=
  match u with
  | UNum n => JSNum n
  | _ => JSNull
  end.

(** Calls of [onConnectCallback] and [onDisconnectCallback]. *)
Inductive Notice :=
| Connected
| Disconnected.

Inductive ClientLog :=
| AlreadyConnected
| InvalidUserId
| ConnectFailed
| MaxReconnects
| CannotSend.

Record Client := mkClient {
  manager : Manager;    (* requests, frames; [wsOpen]: this.ws is OPEN *)
  hasSocket : bool;                             (* this.ws is not null *)
  isConnected : bool;
  userId : UserId;
  reconnectAttempts : nat;
  heartbeatInterval : option nat;   (* setInterval handle, never zero *)
  intervals : list nat;                              (* live intervals *)
  nextInterval : nat;
  reconnectTimers : nat;     (* reconnect timeouts that have not run yet *)
  scheduled : nat;         (* setTimeout calls made by scheduleReconnect *)
  created : nat;                                (* sockets constructed *)
  closeCalls : nat;                                 (* ws.close calls *)
  notices : list Notice;
  errors : list ClientLog
}.

Definition maxReconnectAttempts : nat := 5.
Definition notConnectedText : string := "WebSocket未连接或用户未登录".

(** The constructor's state. *)
Definition newClient (callback : bool) : Client :=
  mkClient (fresh false callback) false false UNull 0 None [] 1 0 0 0 0
           [] [].

Definition set_manager (x : Manager) (c : Client) : Client :=
  mkClient x (hasSocket c) (isConnected c) (userId c) (reconnectAttempts c)
           (heartbeatInterval c) (intervals c) (nextInterval c)
           (reconnectTimers c) (scheduled c) (created c) (closeCalls c)
           (notices c) (errors c).

Definition set_hasSocket (x : bool) (c : Client) : Client :=
  mkClient (manager c) x (isConnected c) (userId c) (reconnectAttempts c)
           (heartbeatInterval c) (intervals c) (nextInterval c)
           (reconnectTimers c) (scheduled c) (created c) (closeCalls c)
           (notices c) (errors c).

Definition set_isConnected (x : bool) (c : Client) : Client :=
  mkClient (manager c) (hasSocket c) x (userId c) (reconnectAttempts c)
           (heartbeatInterval c) (intervals c) (nextInterval c)
           (reconnectTimers c) (scheduled c) (created c) (closeCalls c)
           (notices c) (errors c).

Definition set_userId (x : UserId) (c : Client) : Client :=
  mkClient (manager c) (hasSocket c) (isConnected c) x (reconnectAttempts c)
           (heartbeatInterval c) (intervals c) (nextInterval c)
           (reconnectTimers c) (scheduled c) (created c) (closeCalls c)
           (notices c) (errors c).

Definition set_reconnectAttempts (x : nat) (c : Client) : Client :=
  mkClient (manager c) (hasSocket c) (isConnected c) (userId c) x
           (heartbeatInterval c) (intervals c) (nextInterval c)
           (reconnectTimers c) (scheduled c) (created c) (closeCalls c)
           (notices c) (errors c).

Definition set_heartbeatInterval (x : option nat) (c : Client) : Client :=
  mkClient (manager c) (hasSocket c) (isConnected c) (userId c)
           (reconnectAttempts c) x (intervals c) (nextInterval c)
           (reconnectTimers c) (scheduled c) (created c) (closeCalls c)
           (notices c) (errors c).

Definition set_intervals (x : list nat) (c : Client) : Client :=
  mkClient (manager c) (hasSocket c) (isConnected c) (userId c)
           (reconnectAttempts c) (heartbeatInterval c) x (nextInterval c)
           (reconnectTimers c) (scheduled c) (created c) (closeCalls c)
           (notices c) (errors c).

Definition set_nextInterval (x : nat) (c : Client) : Client :=
  mkClient (manager c) (hasSocket c) (isConnected c) (userId c)
           (reconnectAttempts c) (heartbeatInterval c) (intervals c) x
           (reconnectTimers c) (scheduled c) (created c) (closeCalls c)
           (notices c) (errors c).

Definition set_reconnectTimers (x : nat) (c : Client) : Client :=
  mkClient (manager c) (hasSocket c) (isConnected c) (userId c)
           (reconnectAttempts c) (heartbeatInterval c) (intervals c)
           (nextInterval c) x (scheduled c) (created c) (closeCalls c)
           (notices c) (errors c).

Definition set_scheduled (x : nat) (c : Client) : Client :=
  mkClient (manager c) (hasSocket c) (isConnected c) (userId c)
           (reconnectAttempts c) (heartbeatInterval c) (intervals c)
           (nextInterval c) (reconnectTimers c) x (created c) (closeCalls c)
           (notices c) (errors c).

Definition set_created (x : nat) (c : Client) : Client :=
  mkClient (manager c) (hasSocket c) (isConnected c) (userId c)
           (reconnectAttempts c) (heartbeatInterval c) (intervals c)
           (nextInterval c) (reconnectTimers c) (scheduled c) x
           (closeCalls c) (notices c) (errors c).

Definition set_closeCalls (x : nat) (c : Client) : Client :=
  mkClient (manager c) (hasSocket c) (isConnected c) (userId c)
           (reconnectAttempts c) (heartbeatInterval c) (intervals c)
           (nextInterval c) (reconnectTimers c) (scheduled c) (created c) x
           (notices c) (errors c).

Definition set_notices (x : list Notice) (c : Client) : Client :=
  mkClient (manager c) (hasSocket c) (isConnected c) (userId c)
           (reconnectAttempts c) (heartbeatInterval c) (intervals c)
           (nextInterval c) (reconnectTimers c) (scheduled c) (created c)
           (closeCalls c) x (errors c).

Definition set_errors (x : list ClientLog) (c : Client) : Client :=
  mkClient (manager c) (hasSocket c) (isConnected c) (userId c)
           (reconnectAttempts c) (heartbeatInterval c) (intervals c)
           (nextInterval c) (reconnectTimers c) (scheduled c) (created c)
           (closeCalls c) (notices c) x.

Definition report (e : ClientLog) (c : Client) : Client :=
  set_errors (errors c ++ [e]) c.

Definition notify (n : Notice) (c : Client) : Client :=
  set_notices (notices c ++ [n]) c.

Definition scheduleReconnect (c : Client) : Client :=
  if (reconnectAttempts c <? maxReconnectAttempts)%nat then
    set_scheduled (S (scheduled c))
      (set_reconnectTimers (S (reconnectTimers c))
         (set_reconnectAttempts (S (reconnectAttempts c)) c))
  else report MaxReconnects c.

(** [connect]: [id] is the argument after the [parseInt] of a string;
    [constructed] tells whether [new WebSocket] returned or threw. A new
    socket is not open yet. *)
Definition connect (id : UserId) (constructed : bool) (c : Client) : Client :=
  if wsOpen (manager c) then report AlreadyConnected c
  else
    let c1 := set_userId id c in
    if isNaN id then report InvalidUserId c1
    else if constructed then
      set_created (S (created c1))
        (set_hasSocket true (set_manager (socket false (manager c1)) c1))
    else scheduleReconnect (report ConnectFailed c1).

Definition startHeartbeat (c : Client) : Client :=
  set_nextInterval (S (nextInterval c))
    (set_intervals (intervals c ++ [nextInterval c])
       (set_heartbeatInterval (Some (nextInterval c)) c)).

Definition stopHeartbeat (c : Client) : Client :=
  match heartbeatInterval c with
  | Some i =>
      set_heartbeatInterval None
        (set_intervals (filter (fun j => j ≠ i) (intervals c)) c)
  | None => c
  end.

(** A socket's state changes before its handler runs; [current] tells
    whether the socket is the one [this.ws] holds. *)
Definition readyState (current open : bool) (c : Client) : Client :=
  if current && hasSocket c then set_manager (socket open (manager c)) c
  else c.

Definition onopen (current : bool) (c : Client) : Client :=
  notify Connected
    (startHeartbeat
       (set_reconnectAttempts 0
          (set_isConnected true (readyState current true c)))).

Definition onclose (current : bool) (code : Z) (c : Client) : Client :=
  let c1 :=
    notify Disconnected
      (stopHeartbeat (set_isConnected false (readyState current false c))) in
  if bool_decide (code ≠ 1000) then scheduleReconnect c1 else c1.

(** The callback [scheduleReconnect] gave to [setTimeout]. *)
Definition reconnectTimer (constructed : bool) (c : Client) : Client :=
  match reconnectTimers c with
  | O => c
  | S n =>
      let c1 := set_reconnectTimers n c in
      if truthyId (userId c1) then connect (userId c1) constructed c1 else c1
  end.

Definition disconnect (c : Client) : Client :=
  let c1 := stopHeartbeat c in
  let c2 :=
    if hasSocket c1 then
      set_hasSocket false
        (set_manager (socket false (manager c1))
           (set_closeCalls (S (closeCalls c1)) c1))
    else c1 in
  set_userId UNull (set_isConnected false c2).

Definition chatMessage (messageId content : string) (sender : UserId)
    (timestamp : string) : jsobj :=
  <["messageId" := JSStr messageId]>
    (<["type" := JSStr "CHAT"]>
       (<["content" := JSStr content]>
          (<["sender" := idValue sender]>
             (<["timestamp" := JSStr timestamp]> ∅)))).

(** [sendChatMessage]: [messageId] is what [generateMessageId] returned
    and [timestamp] the clock reading. The result is the promise of
    [sendWithResponse], or the text of the error the returned promise is
    already rejected with. *)
Definition sendChatMessage (content messageId timestamp : string)
    (c : Client) : (string + nat) * Client :=
  if isConnected c && truthyId (userId c) then
    let message := chatMessage messageId content (userId c) timestamp in
    let r := sendWithResponse message messageId (manager c) in
    (inr r.1, set_manager r.2 c)
  else (inl notConnectedText, report CannotSend c).

Definition heartbeatMessage (sender : UserId) (timestamp : string) : jsobj :=
  <["type" := JSStr "HEARTBEAT"]>
    (<["userId" := idValue sender]>
       (<["timestamp" := JSStr timestamp]> ∅)).

Definition sendHeartbeat (timestamp : string) (c : Client) : Client :=
  if isConnected c then
    set_manager (send (heartbeatMessage (userId c) timestamp) (manager c)) c
  else c.

(** What can happen to a client. *)
Inductive Event :=
| Connect (id : UserId) (constructed : bool)
| Open (current : bool)
| Close (current : bool) (code : Z)
| ReconnectTimer (constructed : bool)
| Disconnect
| Chat (content messageId timestamp : string)
| Tick (interval : nat) (timestamp : string)
| Frame (data : jsobj)
| Elapse (d : N).

Definition step (c : Client) (e : Event) : Client :=
  match e with
  | Connect id constructed => connect id constructed c
  | Open current => onopen current c
  | Close current code => onclose current code c
  | ReconnectTimer constructed => reconnectTimer constructed c
  | Disconnect => disconnect c
  | Chat content messageId timestamp =>
      (sendChatMessage content messageId timestamp c).2
  | Tick interval timestamp =>
      if bool_decide (interval ∈ intervals c) then sendHeartbeat timestamp c
      else c
  | Frame data => set_manager (handleMessage data (manager c)) c
  | Elapse d => set_manager (advance d (manager c)) c
  end.

Definition run (es : list Event) (c : Client) : Client :=
  foldl step c es.

Definition isOpen (e : Event) : bool :=
  match e with
  | Open _ => true
  | _ => false
  end.

Definition isConnect (e : Event) : bool :=
  match e with
  | Connect _ _ => true
  | _ => false
  end.

(** How often a socket opened, and how often [connect] was called from
    outside, in a sequence of events. *)
Definition opens (es : list Event) : nat :=
  length (filter (fun e => isOpen e) es).

Definition connects (es : list Event) : nat :=
  length (filter (fun e => isConnect e) es).

End Client.

(** The categories [cmd/classifier] configures, over the three service
    addresses of its configuration file. *)
Definition configuredCategories (assistant knowledgeRAG generalChat : string)
    : gmap string Classifier.CategoryInfo :=
  <["product.inquiry" :=
      Classifier.mkCategoryInfo "商品咨询" "查询商品信息、库存、价格等"
        ["商品"; "库存"; "价格"; "详情"] (assistant +:+ "/api/process")]>
  (<["order.status" :=
      Classifier.mkCategoryInfo "订单查询" "查询订单状态、物流信息等"
        ["订单"; "物流"; "配送"; "快递"] (assistant +:+ "/api/process")]>
  (<["knowledge.query" :=
      Classifier.mkCategoryInfo "知识库查询" "查询产品使用手册、常见问题等"
        ["怎么用"; "如何"; "教程"; "说明"] (knowledgeRAG +:+ "/api/rag")]>
  (<["general-chat" :=
      Classifier.mkCategoryInfo "通用对话" "闲聊、问候等一般性对话"
        ["你好"; "聊天"; "谢谢"] (generalChat +:+ "/api/chat")]> ∅))).

Definition demoCategories : gmap string Classifier.CategoryInfo :=
  configuredCategories "http://assistant" "http://rag" "http://chat".

(** The frames [sendChatMessage] and [sendHeartbeat] build. *)
Definition sendable (frame : WS.jsobj) : Prop :=
  (∃ messageId content n timestamp,
     n ≠ 0
     ∧ frame = Client.chatMessage messageId content (Client.UNum n) timestamp)
  ∨ (∃ id timestamp, frame = Client.heartbeatMessage id timestamp).

(** The counters of the reconnect schedule after the events [es]. *)
Definition bounded (es : list Client.Event) (c : Client.Client) : Prop :=
  (Client.reconnectAttempts c ≤ Client.maxReconnectAttempts)%nat
  ∧ (Client.scheduled c
     ≤ Client.reconnectAttempts c
       + Client.maxReconnectAttempts * Client.opens es)%nat
  ∧ (Client.created c + Client.reconnectTimers c
     ≤ Client.connects es + Client.scheduled c)%nat.

(** A client that has been disconnected at [c0] and not connected since. *)
Definition offline (c0 c : Client.Client) : Prop :=
  Client.userId c = Client.UNull
  ∧ Client.hasSocket c = false
  ∧ WS.wsOpen (Client.manager c) = false
  ∧ Client.created c = Client.created c0
  ∧ WS.sent (Client.manager c) = WS.sent (Client.manager c0).

(** ** internal/vectorstore: [MemoryVectorStore], the document table *)

Module VectorStore.

Section Store.

(** The component type of a vector; the table only reads [len(Vector)]. *)
Variable float64 : Type.

Record Document := mkDocument {
  ID : string;
  Content : string;
  Vector : list float64;
  Metadata : gmap string string
}.

Definition emptyID : string := "document ID cannot be empty".
Definition emptyVector : string := "document vector cannot be empty".
Definition notFound (id : string) : string := "document not found: " +:+ id.

(** Each operation returns its [error] ([None] for [nil]) and the
    [documents] map it leaves. *)
Definition AddDocument (doc : Document) (documents : gmap string Document)
    : option string * gmap string Document :=
  if decide (ID doc = "") then (Some emptyID, documents)
  else if decide (length (Vector doc) = 0%nat) then
    (Some emptyVector, documents)
  else (None, <[ID doc := doc]> documents).

Fixpoint AddDocuments (docs : list Document)
    (documents : gmap string Document)
    : option string * gmap string Document :=
  match docs with
  | [] => (None, documents)
  | doc :: rest =>
      match AddDocument doc documents with
      | (Some err, documents') => (Some err, documents')
      | (None, documents') => AddDocuments rest documents'
      end
  end.

Definition GetDocument (id : string) (documents : gmap string Document)
    : string + Document :=
  match documents !! id with
  | Some doc => inr doc
  | None => inl (notFound id)
  end.

Definition DeleteDocument (id : string) (documents : gmap string Document)
    : option string * gmap string Document :=
  match documents !! id with
  | Some _ => (None, delete id documents)
  | None => (Some (notFound id), documents)
  end.

Definition Count (documents : gmap string Document) : nat := size documents.

Definition Clear (documents : gmap string Document)
    : gmap string Document := ∅.

(** A document [AddDocument] accepts. *)
Definition storable (doc : Document) : Prop :=
  ID doc ≠ "" ∧ Vector doc ≠ [].

End Store.

Arguments mkDocument {float64}.
Arguments ID {float64}.
Arguments Content {float64}.
Arguments Vector {float64}.
Arguments Metadata {float64}.
Arguments AddDocument {float64}.
Arguments AddDocuments {float64}.
Arguments GetDocument {float64}.
Arguments DeleteDocument {float64}.
Arguments Count {float64}.
Arguments Clear {float64}.
Arguments storable {float64}.

End VectorStore.

(** Three documents; the table never looks inside a vector, so integer
    components do. *)
Definition docReturns : VectorStore.Document Z :=
  VectorStore.mkDocument "kb-1" "七天无理由退货" [1; 0; 2] ∅.

Definition docNoVector : VectorStore.Document Z :=
  VectorStore.mkDocument "kb-2" "运费说明" [] ∅.

Definition docShipping : VectorStore.Document Z :=
  VectorStore.mkDocument "kb-3" "全场包邮" [0; 3; 1] ∅.


(** A registry in which only the third built-in name is taken. *)
Definition trackingTools : gmap string Tools.Tool :=
  {["get_shipping_tracking" :=
      Tools.mkTool "get_shipping_tracking" "查询物流"
        (Some (fun _ => inl "tracking not found"))]}.

(** An event that neither reuses the message id nor carries it under the
    key [handleResponse] reads. *)
Definition leaves_alone (messageId : string) (e : WS.Event) : Prop :=
  match e with
  | WS.EvSend _ k => k ≠ messageId
  | WS.EvFrame data => WS.prop data "messageID" ≠ WS.JSStr messageId
  | WS.EvResponse response =>
      WS.prop response "messageID" ≠ WS.JSStr messageId
  | WS.EvElapse _ | WS.EvSocket _ => True
  end.

(** The request of timer [t] waits for nothing but its timer: the timer
    is live and not yet due, or it is due and has rejected the promise and
    emptied the table entry. *)
Definition left_to_timer (t : WS.Timer) (st : WS.Manager) : Prop :=
  (t ∈ WS.timers st ∧ WS.clock st < WS.deadline t)
  ∨ (WS.deadline t <= WS.clock st
     ∧ (WS.timerPromise t, WS.RejectError WS.timeoutText) ∈ WS.settled st
     ∧ WS.pendingResponses st !! WS.timerMessageId t = None).

(** ** The session registry: lemmas *)

Section RegistryFacts.

Context (WriteJSON : Conn -> Payload -> option string).

Lemma wf_consistent s : wf s → consistent s.
Proof.
  intros [Hs Ho]. split; [|split; [done|]].
  - intros sid1 sid2 uid H1 H2.
    destruct (Hs _ _ H1) as (x & Hx & <-).
    destruct (Hs _ _ H2) as (y & Hy & <-). congruence.
  - intros uid x Hx. rewrite (Ho _ _ Hx). eauto.
Qed.

Lemma wf_empty : wf NewSessionService.
Proof. split; intros ? ? H; simpl in H; by rewrite lookup_empty in H. Qed.

Lemma Sub_gt (now t : Time) (d : Duration) :
  minDuration <= d < maxDuration → (d < Sub now t ↔ d < now - t).
Proof. unfold Sub, minDuration, maxDuration. lia. Qed.

Lemma expired_spec now x :
  expired now x = true ↔ 60 * Second < now - LastHeartbeat x.
Proof.
  unfold expired. rewrite bool_decide_eq_true. apply Sub_gt.
  unfold minDuration, maxDuration, Second. lia.
Qed.

Lemma scanned_None now x : scanned now x = None ↔ evicted now x = true.
Proof.
  unfold scanned, evicted.
  destruct (expired now x), (Session.ShouldBeCleaned _); simpl;
    split; congruence.
Qed.

Lemma scanned_Some_sid now x y :
  scanned now x = Some y → SessionID y = SessionID x ∧ SConn y = SConn x.
Proof.
  unfold scanned.
  destruct (expired now x); [destruct (Session.ShouldBeCleaned _)|];
    intros; simplify_eq; done.
Qed.

(** The scan, entry by entry. *)
Lemma scan_fold_users now r0 (m : gmap Z UserSession) k :
  userSessions (map_fold (scanSession now) r0 m) !! k =
  match m !! k with
  | Some x => if expired now x then scanned now x else userSessions r0 !! k
  | None => userSessions r0 !! k
  end.
Proof.
  revert k.
  apply (map_fold_weak_ind (λ r m, ∀ k, userSessions r !! k =
    match m !! k with
    | Some x => if expired now x then scanned now x
                else userSessions r0 !! k
    | None => userSessions r0 !! k
    end)); clear m.
  - intros k. by rewrite lookup_empty.
  - intros i x m r Hi IH k. unfold scanSession, scanned.
    destruct (decide (k = i)) as [->|Hne].
    + rewrite lookup_insert_eq. specialize (IH i). rewrite Hi in IH.
      destruct (expired now x); [|done].
      destruct (Session.ShouldBeCleaned _); simpl.
      * by rewrite lookup_delete_eq.
      * by rewrite lookup_insert_eq.
    + rewrite lookup_insert_ne by done. rewrite <- IH.
      destruct (expired now x); [|done].
      destruct (Session.ShouldBeCleaned _); simpl.
      * by rewrite lookup_delete_ne.
      * by rewrite lookup_insert_ne.
Qed.

Lemma scan_fold_sids now r0 (m : gmap Z UserSession) sid :
  (sessionToUser (map_fold (scanSession now) r0 m) !! sid = None
   ∧ ∃ k x, m !! k = Some x ∧ evicted now x = true ∧ SessionID x = sid)
  ∨ (sessionToUser (map_fold (scanSession now) r0 m) !! sid
     = sessionToUser r0 !! sid
     ∧ ∀ k x, m !! k = Some x → evicted now x = true → SessionID x ≠ sid).
Proof.
  revert sid.
  apply (map_fold_weak_ind (λ r m, ∀ sid,
    (sessionToUser r !! sid = None
     ∧ ∃ k x, m !! k = Some x ∧ evicted now x = true ∧ SessionID x = sid)
    ∨ (sessionToUser r !! sid = sessionToUser r0 !! sid
       ∧ ∀ k x, m !! k = Some x → evicted now x = true
                → SessionID x ≠ sid))); clear m.
  - intros sid. right. split; [done|]. intros k x H.
    by rewrite lookup_empty in H.
  - intros i x m r Hi IH sid.
    assert (Hkeep : ∀ k y, m !! k = Some y → <[i:=x]> m !! k = Some y).
    { intros k y Hk. rewrite lookup_insert_ne; [done|congruence]. }
    destruct (evicted now x) eqn:Hev.
    + assert (Hr : sessionToUser (scanSession now i x r)
                   = delete (SessionID x) (sessionToUser r)).
      { unfold scanSession. unfold evicted in Hev.
        apply andb_true_iff in Hev as [-> ->]. done. }
      rewrite Hr. destruct (decide (sid = SessionID x)) as [->|Hne].
      * left. rewrite lookup_delete_eq. split; [done|].
        exists i, x. by rewrite lookup_insert_eq.
      * rewrite lookup_delete_ne by done.
        destruct (IH sid) as [[H1 (k & y & Hk & Hy & Hs)]|[H1 H2]].
        -- left. split; [done|]. exists k, y. eauto.
        -- right. split; [done|]. intros k y Hk Hy.
           destruct (decide (k = i)) as [->|Hki].
           ++ rewrite lookup_insert_eq in Hk. by simplify_eq.
           ++ rewrite lookup_insert_ne in Hk by done. eauto.
    + assert (Hr : sessionToUser (scanSession now i x r)
                   = sessionToUser r).
      { unfold scanSession. unfold evicted in Hev.
        destruct (expired now x); [|done].
        simpl in Hev. by rewrite Hev. }
      rewrite Hr.
      destruct (IH sid) as [[H1 (k & y & Hk & Hy & Hs)]|[H1 H2]].
      * left. split; [done|]. exists k, y. eauto.
      * right. split; [done|]. intros k y Hk Hy.
        destruct (decide (k = i)) as [->|Hki].
        -- rewrite lookup_insert_eq in Hk. simplify_eq. congruence.
        -- rewrite lookup_insert_ne in Hk by done. eauto.
Qed.

Lemma scan_fold_closed now r0 (m : gmap Z UserSession) c :
  c ∈ closed (map_fold (scanSession now) r0 m) ↔
  c ∈ closed r0
  ∨ ∃ k x, m !! k = Some x ∧ evicted now x = true ∧ SConn x = c.
Proof.
  revert c.
  apply (map_fold_weak_ind (λ r m, ∀ c, c ∈ closed r ↔
    c ∈ closed r0
    ∨ ∃ k x, m !! k = Some x ∧ evicted now x = true ∧ SConn x = c));
    clear m.
  - intros c. split; [by left|]. intros [?|(k & x & H & _)]; [done|].
    by rewrite lookup_empty in H.
  - intros i x m r Hi IH c.
    assert (Hkeep : ∀ k y, m !! k = Some y → <[i:=x]> m !! k = Some y).
    { intros k y Hk. rewrite lookup_insert_ne; [done|congruence]. }
    assert (Hsplit : ∀ k y, <[i:=x]> m !! k = Some y →
              (k = i ∧ y = x) ∨ m !! k = Some y).
    { intros k y Hk.
      apply lookup_insert_Some in Hk as [[<- <-]|[_ Hk]]; [by left|by right]. }
    destruct (evicted now x) eqn:Hev.
    + assert (Hr : closed (scanSession now i x r) = closed r ++ [SConn x]).
      { unfold scanSession. unfold evicted in Hev.
        apply andb_true_iff in Hev as [-> ->]. done. }
      rewrite Hr, elem_of_app, IH, list_elem_of_singleton. split.
      * intros [[?|(k & y & Hk & Hy & Hc)]| ->]; [by left| |].
        -- right. exists k, y. eauto.
        -- right. exists i, x. by rewrite lookup_insert_eq.
      * intros [?|(k & y & Hk & Hy & Hc)]; [by left; left|].
        destruct (Hsplit _ _ Hk) as [[-> ->]|Hm]; [by right|].
        left. right. eauto.
    + assert (Hr : closed (scanSession now i x r) = closed r).
      { unfold scanSession. unfold evicted in Hev.
        destruct (expired now x); [|done].
        simpl in Hev. by rewrite Hev. }
      rewrite Hr, IH. split.
      * intros [?|(k & y & Hk & Hy & Hc)]; [by left|].
        right. exists k, y. eauto.
      * intros [?|(k & y & Hk & Hy & Hc)]; [by left|].
        destruct (Hsplit _ _ Hk) as [[-> ->]|Hm]; [congruence|].
        right. eauto.
Qed.

Lemma scan_fold_logs now r0 (m : gmap Z UserSession) :
  written (map_fold (scanSession now) r0 m) = written r0
  ∧ spawned (map_fold (scanSession now) r0 m) = spawned r0.
Proof.
  apply (map_fold_weak_ind (λ r m,
    written r = written r0 ∧ spawned r = spawned r0)); clear m; [done|].
  intros i x m r _ IH. unfold scanSession.
  destruct (expired now x); [|done].
  by destruct (Session.ShouldBeCleaned _).
Qed.

End RegistryFacts.

(** ** The session registry: each operation keeps the indices in step *)

Section RegistryInvariant.

Context (WriteJSON : Conn -> Payload -> option string).

Lemma wf_RemoveUserBySessionID sid s :
  wf s → wf (RemoveUserBySessionID sid s).
Proof.
  intros [Hs Ho]. unfold RemoveUserBySessionID.
  destruct (sessionToUser s !! sid) as [uid|] eqn:Hsid; [|done].
  destruct (Hs _ _ Hsid) as (x & Hx & Hxs).
  split.
  - intros sid' uid' H. simpl in *.
    apply lookup_delete_Some in H as [Hne H].
    destruct (Hs _ _ H) as (y & Hy & Hys). exists y. split; [|done].
    rewrite lookup_delete_ne; [done|].
    intros ->. by simplify_eq.
  - intros uid' y H. simpl in *.
    apply lookup_delete_Some in H as [Hne H].
    rewrite lookup_delete_ne; [by apply Ho|].
    intros Heq. rewrite Heq in Hsid.
    rewrite (Ho _ _ H) in Hsid. congruence.
Qed.

Lemma wf_RemoveUserByID uid s : wf s → wf (RemoveUserByID uid s).
Proof.
  intros [Hs Ho]. unfold RemoveUserByID.
  destruct (userSessions s !! uid) as [x|] eqn:Hx; [|done].
  split.
  - intros sid' uid' H. simpl in *.
    apply lookup_delete_Some in H as [Hne H].
    destruct (Hs _ _ H) as (y & Hy & Hys). exists y. split; [|done].
    rewrite lookup_delete_ne; [done|].
    intros ->. by simplify_eq.
  - intros uid' y H. simpl in *.
    apply lookup_delete_Some in H as [Hne H].
    rewrite lookup_delete_ne; [by apply Ho|].
    intros Heq. pose proof (Ho _ _ Hx) as H1. pose proof (Ho _ _ H) as H2.
    rewrite Heq in H1. congruence.
Qed.

Lemma wf_UpdateHeartbeat now uid s :
  wf s → wf (UpdateHeartbeat now uid s).2.
Proof.
  intros [Hs Ho]. unfold UpdateHeartbeat.
  destruct (userSessions s !! uid) as [x|] eqn:Hx; [|done].
  split.
  - intros sid' uid' H. simpl in *.
    destruct (Hs _ _ H) as (y & Hy & Hys).
    destruct (decide (uid' = uid)) as [->|Hne].
    + rewrite lookup_insert_eq. eexists. split; [done|].
      simpl. congruence.
    + rewrite lookup_insert_ne by done. eauto.
  - intros uid' y H. simpl in *.
    apply lookup_insert_Some in H as [[<- <-]|[Hne H]]; simpl; eauto.
Qed.

Lemma wf_SendMessageToUser uid msg s :
  wf s → wf (SendMessageToUser WriteJSON uid msg s).2.
Proof.
  intros H. unfold SendMessageToUser.
  destruct (userSessions s !! uid); [|done].
  by destruct (WriteJSON _ _).
Qed.

Lemma wf_RegisterUser now uid username conn sid ip s :
  wf s →
  (∀ uid', sessionToUser s !! sid = Some uid' → uid' = uid) →
  wf (RegisterUser now uid username conn sid ip s).
Proof.
  intros [Hs Ho] Hfresh. unfold RegisterUser.
  set (new := mkUserSession uid username conn sid ip now 0).
  assert (Hold : ∀ sid' uid',
            match userSessions s !! uid with
            | Some old => delete (SessionID old) (sessionToUser s)
            | None => sessionToUser s
            end !! sid' = Some uid' →
            sessionToUser s !! sid' = Some uid' ∧ uid' ≠ uid).
  { intros sid' uid' H.
    destruct (userSessions s !! uid) as [old|] eqn:Hx.
    - apply lookup_delete_Some in H as [Hne H]. split; [done|].
      intros ->. destruct (Hs _ _ H) as (y & Hy & Hys). congruence.
    - split; [done|]. intros ->.
      destruct (Hs _ _ H) as (y & Hy & Hys). congruence. }
  split.
  - intros sid' uid' H.
    destruct (userSessions s !! uid) as [old|] eqn:Hx; simpl in *.
    + apply lookup_insert_Some in H as [[<- <-]|[Hne H]].
      * rewrite lookup_insert_eq. by exists new.
      * destruct (Hold _ _ H) as [H' Hu].
        rewrite lookup_insert_ne by done. eauto.
    + apply lookup_insert_Some in H as [[<- <-]|[Hne H]].
      * rewrite lookup_insert_eq. by exists new.
      * destruct (Hold _ _ H) as [H' Hu].
        rewrite lookup_insert_ne by done. eauto.
  - intros uid' y H.
    assert (Hy : (uid' = uid ∧ y = new)
                 ∨ (uid' ≠ uid ∧ userSessions s !! uid' = Some y)).
    { destruct (userSessions s !! uid) as [old|]; simpl in H;
        (apply lookup_insert_Some in H as [[<- <-]|[Hne H]];
         [by left|right; split; [congruence|done]]). }
    assert (Hgoal : <[sid := uid]>
              (match userSessions s !! uid with
               | Some old => delete (SessionID old) (sessionToUser s)
               | None => sessionToUser s
               end) !! SessionID y = Some uid').
    { destruct Hy as [[-> ->]|[Hne Hy]].
      - simpl. by rewrite lookup_insert_eq.
      - pose proof (Ho _ _ Hy) as Hsy.
        rewrite lookup_insert_ne.
        + destruct (userSessions s !! uid) as [old|] eqn:Hx; [|done].
          rewrite lookup_delete_ne; [done|].
          intros Heq. pose proof (Ho _ _ Hx) as Hso.
          rewrite Heq in Hso. congruence.
        + intros Heq. rewrite <- Heq in Hsy.
          apply Hfresh in Hsy. congruence. }
    destruct (userSessions s !! uid) as [old|]; simpl; exact Hgoal.
Qed.

Lemma wf_heartbeatScan now s : wf s → wf (heartbeatScan now s).
Proof.
  intros [Hs Ho]. unfold heartbeatScan. split.
  - intros sid uid H.
    destruct (scan_fold_sids now s (userSessions s) sid)
      as [[H1 _]|[H1 H2]]; [congruence|].
    rewrite H1 in H. destruct (Hs _ _ H) as (x & Hx & Hxs).
    rewrite scan_fold_users, Hx.
    destruct (scanned now x) as [y|] eqn:Hy.
    + destruct (scanned_Some_sid _ _ _ Hy) as [Hsid _].
      destruct (expired now x) eqn:He.
      * exists y. split; [done|congruence].
      * exists x. done.
    + apply scanned_None in Hy. by destruct (H2 _ _ Hx Hy).
  - intros uid y H. rewrite scan_fold_users in H.
    destruct (userSessions s !! uid) as [x|] eqn:Hx; [|congruence].
    assert (Hy : scanned now x = Some y).
    { destruct (expired now x) eqn:He; [done|].
      unfold scanned. rewrite He. congruence. }
    destruct (scanned_Some_sid _ _ _ Hy) as [Hsid _].
    rewrite Hsid. pose proof (Ho _ _ Hx) as Hsx.
    destruct (scan_fold_sids now s (userSessions s) (SessionID x))
      as [[_ (k & z & Hk & Hz & Hzs)]|[H1 _]]; [|congruence].
    pose proof (Ho _ _ Hk) as Hsz. rewrite Hzs in Hsz.
    assert (k = uid) as -> by congruence.
    assert (z = x) as -> by congruence.
    apply scanned_None in Hz. congruence.
Qed.

Lemma wf_apply_op op s : wf s → fresh_sid s op → wf (apply_op WriteJSON op s).
Proof.
  intros Hwf Hfresh. destruct op as [| | | | | |[]]; simpl.
  - by apply wf_RegisterUser.
  - by apply wf_RemoveUserBySessionID.
  - by apply wf_RemoveUserByID.
  - by apply wf_UpdateHeartbeat.
  - by apply wf_heartbeatScan.
  - by apply wf_SendMessageToUser.
  - by apply wf_RemoveUserByID.
  - done.
Qed.

End RegistryInvariant.

(** ** The session registry: properties *)

Section RegistryProperties.

Context (WriteJSON : Conn -> Payload -> option string).

Lemma RegisterUser_replaces now uid username conn sid ip s old :
  userSessions s !! uid = Some old →
  let s' := RegisterUser now uid username conn sid ip s in
  userSessions s'
    = <[uid := mkUserSession uid username conn sid ip now 0]>
        (delete uid (userSessions s))
  ∧ sessionToUser s'
    = <[sid := uid]> (delete (SessionID old) (sessionToUser s))
  ∧ closed s' = closed s ++ [SConn old].
Proof.
  intros Hold. unfold RegisterUser. rewrite Hold. simpl.
  by rewrite insert_delete_eq.
Qed.

(** C3, as amended: the registry starts with its two indices in step, and
    from a registry in this state -- every session-id key leads to an
    identity whose session bears that id, and every registered session's
    id leads back to the session's own identity -- (1) the invariant as
    the specification words it holds, (2) every operation (register,
    either removal, heartbeat, monitor scan, send, the teardown goroutine)
    gives a registry in this state again, provided a register call brings
    a session id that no other identity is registered under, and
    (3) registering over a prior session with a different id closes the
    prior handle, removes exactly the prior session's two entries and
    inserts the new ones, leaving every other entry as it was. *)
Theorem registry_indices_stay_consistent :
  wf NewSessionService ∧
  ∀ s, wf s →
    consistent s
    ∧ (∀ op, fresh_sid s op →
         wf (apply_op WriteJSON op s)
         ∧ consistent (apply_op WriteJSON op s))
    ∧ (∀ now uid username conn sid ip old,
         userSessions s !! uid = Some old → SessionID old ≠ sid →
         let s' := RegisterUser now uid username conn sid ip s in
         SConn old ∈ closed s'
         ∧ sessionToUser s' !! SessionID old = None
         ∧ sessionToUser s' !! sid = Some uid
         ∧ userSessions s' !! uid
           = Some (mkUserSession uid username conn sid ip now 0)
         ∧ (∀ sid', sid' ≠ sid → sid' ≠ SessionID old →
              sessionToUser s' !! sid' = sessionToUser s !! sid')
         ∧ (∀ uid', uid' ≠ uid →
              userSessions s' !! uid' = userSessions s !! uid')).
Proof.
  split; [apply wf_empty|]. intros s Hwf.
  split; [by apply wf_consistent|]. split.
  - intros op Hfresh.
    pose proof (wf_apply_op WriteJSON op s Hwf Hfresh) as H.
    split; [done|by apply wf_consistent].
  - intros now uid username conn sid ip old Hold Hne s'.
    destruct (RegisterUser_replaces now uid username conn sid ip s old Hold)
      as (Hu & Hs & Hc).
    fold s' in Hu, Hs, Hc. rewrite Hu, Hs, Hc.
    repeat split.
    + apply elem_of_app. right. by apply list_elem_of_singleton.
    + rewrite lookup_insert_ne by done. by rewrite lookup_delete_eq.
    + by rewrite lookup_insert_eq.
    + by rewrite lookup_insert_eq.
    + intros sid' H1 H2. rewrite lookup_insert_ne by done.
      by rewrite lookup_delete_ne.
    + intros uid' H1. rewrite lookup_insert_ne by done.
      by rewrite lookup_delete_ne.
Qed.


End RegistryProperties.

Section RegistryOperations.

Context (WriteJSON : Conn -> Payload -> option string).

Lemma wf_reg42 : wf reg42.
Proof.
  apply wf_RegisterUser; [apply wf_empty|].
  intros uid H. simpl in H. by rewrite lookup_empty in H.
Qed.

Lemma RemoveUserByID_logs uid s :
  closed (RemoveUserByID uid s) = closed s
  ∧ written (RemoveUserByID uid s) = written s
  ∧ spawned (RemoveUserByID uid s) = spawned s.
Proof. unfold RemoveUserByID. by destruct (userSessions s !! uid). Qed.

(** C9: removal by session id and removal by identity each take the
    matching entries out of both indices and touch no other entry when the
    key is present, change nothing when it is absent, and done twice give
    the registry that doing them once gives. *)
Theorem removals_remove_both_and_are_idempotent s :
  (∀ sid,
     (∀ uid, sessionToUser s !! sid = Some uid →
        let s' := RemoveUserBySessionID sid s in
        sessionToUser s' !! sid = None
        ∧ userSessions s' !! uid = None
        ∧ (∀ sid', sid' ≠ sid →
             sessionToUser s' !! sid' = sessionToUser s !! sid')
        ∧ (∀ uid', uid' ≠ uid →
             userSessions s' !! uid' = userSessions s !! uid'))
     ∧ (sessionToUser s !! sid = None → RemoveUserBySessionID sid s = s)
     ∧ RemoveUserBySessionID sid (RemoveUserBySessionID sid s)
       = RemoveUserBySessionID sid s)
  ∧ (∀ uid,
       (∀ session, userSessions s !! uid = Some session →
          let s' := RemoveUserByID uid s in
          userSessions s' !! uid = None
          ∧ sessionToUser s' !! SessionID session = None
          ∧ (∀ sid', sid' ≠ SessionID session →
               sessionToUser s' !! sid' = sessionToUser s !! sid')
          ∧ (∀ uid', uid' ≠ uid →
               userSessions s' !! uid' = userSessions s !! uid'))
       ∧ (userSessions s !! uid = None → RemoveUserByID uid s = s)
       ∧ RemoveUserByID uid (RemoveUserByID uid s) = RemoveUserByID uid s).
Proof.
  split.
  - intros sid. split; [|split].
    + intros uid H s'. unfold s', RemoveUserBySessionID. rewrite H. simpl.
      rewrite !lookup_delete_eq. repeat split; [done..| |].
      * intros sid' Hne. by rewrite lookup_delete_ne.
      * intros uid' Hne. by rewrite lookup_delete_ne.
    + intros H. unfold RemoveUserBySessionID. by rewrite H.
    + unfold RemoveUserBySessionID at 2 3.
      destruct (sessionToUser s !! sid) as [uid|] eqn:H.
      * unfold RemoveUserBySessionID. simpl. by rewrite lookup_delete_eq.
      * unfold RemoveUserBySessionID. by rewrite H.
  - intros uid. split; [|split].
    + intros x H s'. unfold s', RemoveUserByID. rewrite H. simpl.
      rewrite !lookup_delete_eq. repeat split; [done..| |].
      * intros sid' Hne. by rewrite lookup_delete_ne.
      * intros uid' Hne. by rewrite lookup_delete_ne.
    + intros H. unfold RemoveUserByID. by rewrite H.
    + unfold RemoveUserByID at 2 3.
      destruct (userSessions s !! uid) as [x|] eqn:H.
      * unfold RemoveUserByID. simpl. by rewrite lookup_delete_eq.
      * unfold RemoveUserByID. by rewrite H.
Qed.

(** C10: for an identity with no session the liveness update answers
    [false] and leaves the registry as it was; for a registered identity
    it answers [true], stamps that session with the current time, puts its
    missed-beat counter to zero, and changes nothing else. *)
Theorem UpdateHeartbeat_only_refreshes_the_session now uid s :
  (userSessions s !! uid = None → UpdateHeartbeat now uid s = (false, s))
  ∧ (∀ session, userSessions s !! uid = Some session →
       let r := UpdateHeartbeat now uid s in
       r.1 = true
       ∧ userSessions r.2 !! uid
         = Some (mkUserSession (UserID session) (Username session)
                   (SConn session) (SessionID session) (ClientIP session)
                   now 0)
       ∧ (∀ uid', uid' ≠ uid →
            userSessions r.2 !! uid' = userSessions s !! uid')
       ∧ sessionToUser r.2 = sessionToUser s
       ∧ closed r.2 = closed s
       ∧ written r.2 = written s
       ∧ spawned r.2 = spawned s).
Proof.
  split.
  - intros H. unfold UpdateHeartbeat. by rewrite H.
  - intros x H r. unfold r, UpdateHeartbeat. rewrite H. simpl.
    rewrite lookup_insert_eq. repeat split.
    intros uid' Hne. by rewrite lookup_insert_ne.
Qed.

(** C6, as the code has it: with no session for the identity the send
    fails with [ErrUserOffline] and the registry is as before; with a
    session whose write fails the write error is returned and the teardown
    goroutine is started, and when that goroutine has run the session is
    gone from both indices -- but no [Close] was called on its handle. *)
Theorem send_failure_teardown_skips_close uid msg s :
  (userSessions s !! uid = None →
     SendMessageToUser WriteJSON uid msg s = (Some ErrUserOffline, s))
  ∧ (∀ session e,
       userSessions s !! uid = Some session →
       WriteJSON (SConn session) msg = Some e →
       let r := SendMessageToUser WriteJSON uid msg s in
       let s2 := runGoroutine (GoRemoveUserByID uid) r.2 in
       r.1 = Some (ErrWrite e)
       ∧ spawned r.2 = spawned s ++ [GoRemoveUserByID uid]
       ∧ userSessions s2 !! uid = None
       ∧ sessionToUser s2 !! SessionID session = None
       ∧ closed s2 = closed s).
Proof.
  split.
  - intros H. unfold SendMessageToUser. by rewrite H.
  - intros x e Hx He r s2. unfold s2, r, SendMessageToUser.
    rewrite Hx, He. simpl. unfold RemoveUserByID. simpl. rewrite Hx. simpl.
    by rewrite !lookup_delete_eq.
Qed.

(** C7: the router by message kind. On [CHAT] it starts the chat job as a
    goroutine and, without running it, sends the acknowledgement
    (success, the inbound message id, the fixed text) to the sender's
    registered connection, where it is written when the transport accepts
    it; on [HEARTBEAT] it refreshes the sender's liveness -- the sender's
    session has its last heartbeat set to the current time and its missed
    beats set to 0, every other field, session, index entry and handle
    staying as it was, and nothing changes when the sender has no
    session -- and writes no frame; on any other type it logs a warning
    and changes nothing. Its result carries no error in any case. *)
Theorem router_behaves_by_kind now uid msg s :
  let r := Router.handleMessage WriteJSON now uid msg s in
  let ack := PResponse (mkChatResponse true (cm_MessageID msg)
                          "消息已收到，正在处理中...") in
  (cm_Type msg = "CHAT" →
     r = ((SendMessageToUser WriteJSON uid ack
             (go (GoHandleUserMessage uid (cm_Content msg)) s)).2, [])
     ∧ (∀ session, userSessions s !! uid = Some session →
          WriteJSON (SConn session) ack = None →
          written r.1 = written s ++ [(SConn session, ack)]
          ∧ spawned r.1
            = spawned s ++ [GoHandleUserMessage uid (cm_Content msg)]
          ∧ userSessions r.1 = userSessions s
          ∧ sessionToUser r.1 = sessionToUser s
          ∧ closed r.1 = closed s))
  ∧ (cm_Type msg = "HEARTBEAT" →
       r.1 = (UpdateHeartbeat now uid s).2
       ∧ written r.1 = written s
       ∧ spawned r.1 = spawned s
       ∧ closed r.1 = closed s
       ∧ sessionToUser r.1 = sessionToUser s
       ∧ (∀ uid', uid' ≠ uid →
            userSessions r.1 !! uid' = userSessions s !! uid')
       ∧ (∀ session, userSessions s !! uid = Some session →
            userSessions r.1 !! uid
            = Some (mkUserSession (UserID session) (Username session)
                      (SConn session) (SessionID session)
                      (ClientIP session) now 0))
       ∧ (userSessions s !! uid = None → r.1 = s)
       ∧ r.2 = [Router.DebugHeartbeat uid])
  ∧ (cm_Type msg ≠ "CHAT" → cm_Type msg ≠ "HEARTBEAT" →
       r = (s, [Router.WarnUnknownType uid (cm_Type msg)])).
Proof.
  intros r ack. split; [|split].
  - intros Ht. unfold r, Router.handleMessage. rewrite Ht. simpl.
    split; [done|]. intros x Hx Hw.
    unfold SendMessageToUser. simpl. rewrite Hx.
    unfold Router.ack, Router.ackText. fold ack. by rewrite Hw.
  - intros Ht. unfold r, Router.handleMessage. rewrite Ht. simpl.
    split; [done|]. unfold UpdateHeartbeat.
    destruct (userSessions s !! uid) as [x|] eqn:Hx; simpl.
    + repeat split; try done.
      * intros uid' Hne. by rewrite lookup_insert_ne.
      * intros session [= <-]. by rewrite lookup_insert_eq.
    + by repeat split.
  - intros H1 H2. unfold r, Router.handleMessage.
    by rewrite !decide_False.
Qed.

End RegistryOperations.

(** ** The session registry: the properties at sample registries *)

(** A second connection of identity 42 under a new session id leaves the
    indices consistent. *)
Lemma registry_indices_stay_consistent_witness :
  consistent
    (apply_op writeOK
       (OpRegister 5 42 "用户42" 8%positive "sid-b" "10.0.0.1") reg42)
  ∧ sessionToUser
      (RegisterUser 5 42 "用户42" 8%positive "sid-b" "10.0.0.1" reg42)
    !! "sid-a" = None
  ∧ 7%positive
    ∈ closed (RegisterUser 5 42 "用户42" 8%positive "sid-b" "10.0.0.1" reg42).
Proof.
  destruct (registry_indices_stay_consistent writeOK) as [_ H].
  destruct (H reg42 wf_reg42) as (_ & Hop & Hreg).
  split.
  - apply Hop. simpl. intros uid Hl. vm_compute in Hl. discriminate.
  - destruct (Hreg 5 42 "用户42" 8%positive "sid-b" "10.0.0.1" session42
                eq_refl ltac:(discriminate)) as (Hc & Hs & _).
    split; [exact Hs|exact Hc].
Defined.

(** Two identities registered under one session id: the invariant as the
    specification words it holds, and removing that session id breaks it,
    since identity 1 stays registered with a session id that is no longer
    a key. *)
Lemma shared_session_id_breaks_consistency :
  consistent sharedSid ∧ ¬ consistent (RemoveUserBySessionID "s" sharedSid).
Proof.
  assert (Hsu : sessionToUser sharedSid = {["s" := 2]}) by reflexivity.
  assert (Hus : userSessions sharedSid
                = <[2 := mkUserSession 2 "用户2" 2%positive "s" "10.0.0.2" 0 0]>
                    (<[1 := mkUserSession 1 "用户1" 1%positive "s" "10.0.0.1"
                            0 0]> ∅)) by reflexivity.
  split.
  - split; [|split].
    + intros sid1 sid2 uid H1 H2. rewrite Hsu in H1, H2.
      apply lookup_singleton_Some in H1 as [<- _].
      by apply lookup_singleton_Some in H2 as [<- _].
    + intros sid uid H. rewrite Hsu in H.
      apply lookup_singleton_Some in H as [<- <-].
      eexists. split; [reflexivity|done].
    + intros uid x H. rewrite Hus in H. rewrite Hsu.
      apply lookup_insert_Some in H as [[<- <-]|[_ H]];
        [by eexists|].
      apply lookup_insert_Some in H as [[<- <-]|[_ H]];
        [by eexists|].
      by rewrite lookup_empty in H.
  - intros (_ & _ & H).
    destruct (H 1 (mkUserSession 1 "用户1" 1%positive "s" "10.0.0.1" 0 0)
                eq_refl) as [uid Hl].
    vm_compute in Hl. discriminate.
Qed.



Lemma removals_remove_both_and_are_idempotent_witness :
  sessionToUser (RemoveUserBySessionID "sid-a" reg42) !! "sid-a" = None
  ∧ RemoveUserBySessionID "sid-z" reg42 = reg42
  ∧ userSessions (RemoveUserByID 42 reg42) !! 42 = None
  ∧ RemoveUserByID 7 reg42 = reg42.
Proof.
  destruct (removals_remove_both_and_are_idempotent reg42) as [Hs Hu].
  destruct (Hs "sid-a") as (H1 & _ & _).
  destruct (Hs "sid-z") as (_ & H2 & _).
  destruct (Hu 42) as (H3 & _ & _).
  destruct (Hu 7) as (_ & H4 & _).
  split; [exact (proj1 (H1 42 eq_refl))|].
  split; [exact (H2 eq_refl)|].
  split; [exact (proj1 (H3 session42 eq_refl))|].
  exact (H4 eq_refl).
Defined.

Lemma UpdateHeartbeat_only_refreshes_the_session_witness :
  UpdateHeartbeat 9 7 reg42 = (false, reg42)
  ∧ (UpdateHeartbeat 9 42 reg42).1 = true.
Proof.
  split.
  - destruct (UpdateHeartbeat_only_refreshes_the_session 9 7 reg42)
      as [H _]. apply H. reflexivity.
  - destruct (UpdateHeartbeat_only_refreshes_the_session 9 42 reg42)
      as [_ H]. destruct (H session42 eq_refl) as [H1 _]. exact H1.
Defined.

(** The write to identity 42's handle 7 fails: the error comes back, the
    teardown removes the session from both indices, and handle 7 is in no
    [Close] call. *)
Lemma send_failure_teardown_skips_close_witness :
  SendMessageToUser writeFails 7 (PResponse (Router.ack chatM1)) reg42
  = (Some ErrUserOffline, reg42)
  ∧ (SendMessageToUser writeFails 42 (PResponse (Router.ack chatM1)) reg42).1
    = Some (ErrWrite "write: broken pipe")
  ∧ userSessions
      (runGoroutine (GoRemoveUserByID 42)
         (SendMessageToUser writeFails 42 (PResponse (Router.ack chatM1))
            reg42).2) !! 42 = None
  ∧ closed
      (runGoroutine (GoRemoveUserByID 42)
         (SendMessageToUser writeFails 42 (PResponse (Router.ack chatM1))
            reg42).2) = [].
Proof.
  destruct (send_failure_teardown_skips_close writeFails 7
              (PResponse (Router.ack chatM1)) reg42) as [H0 _].
  destruct (send_failure_teardown_skips_close writeFails 42
              (PResponse (Router.ack chatM1)) reg42) as [_ H].
  destruct (H session42 "write: broken pipe" eq_refl eq_refl)
    as (H1 & _ & H3 & _ & H5).
  split; [exact (H0 eq_refl)|].
  split; [exact H1|]. split; [exact H3|]. exact H5.
Defined.

(** The chat message [m1] of identity 42: the acknowledgement is on handle
    7 while the chat job has only been started; a heartbeat at time 5
    writes nothing and leaves the session with that time and no missed
    beat. *)
Lemma router_behaves_by_kind_witness :
  written (Router.handleMessage writeOK 5 42 chatM1 reg42).1
  = [(7%positive,
      PResponse (mkChatResponse true "m1" "消息已收到，正在处理中..."))]
  ∧ spawned (Router.handleMessage writeOK 5 42 chatM1 reg42).1
    = [GoHandleUserMessage 42 "hello"]
  ∧ written (Router.handleMessage writeOK 5 42 beatM2 reg42).1 = []
  ∧ userSessions (Router.handleMessage writeOK 5 42 beatM2 reg42).1 !! 42
    = Some (mkUserSession 42 "用户42" 7%positive "sid-a" "10.0.0.1" 5 0)
  ∧ Router.handleMessage writeOK 5 42 typingM3 reg42
    = (reg42, [Router.WarnUnknownType 42 "TYPING"]).
Proof.
  destruct (router_behaves_by_kind writeOK 5 42 chatM1 reg42) as [H _].
  destruct (H eq_refl) as [_ Hw].
  destruct (Hw session42 eq_refl eq_refl) as (H1 & H2 & _).
  destruct (router_behaves_by_kind writeOK 5 42 beatM2 reg42) as (_ & Hb & _).
  destruct (Hb eq_refl) as (_ & H3 & _ & _ & _ & _ & H4 & _).
  destruct (router_behaves_by_kind writeOK 5 42 typingM3 reg42)
    as (_ & _ & Ht).
  split; [exact H1|]. split; [exact H2|]. split; [exact H3|].
  split; [exact (H4 session42 eq_refl)|].
  apply Ht; discriminate.
Defined.

(** ** The agent loop *)

Section AgentLoop.

Context (Unmarshal : string -> string + Tools.Params).
Context (Marshal : json -> string).
Context (ChatWithTools :
  nat -> list Assistant.Message -> list (string * string)
  -> string + Assistant.Output).
Context (tools : gmap string Tools.Tool).

Local Abbreviation iterate := (Assistant.iterate Unmarshal Marshal ChatWithTools tools).
Local Abbreviation toolEntry := (Assistant.toolEntry Unmarshal Marshal tools).
Local Abbreviation defs := (Tools.GetFunctionDefs tools).

Lemma iterate_calls_prefix left : ∀ i msgs calls,
  ∃ rest, Assistant.llmCalls (iterate left i msgs calls) = calls ++ rest.
Proof.
  induction left as [|left IH]; intros i msgs calls; simpl.
  - exists []. by rewrite app_nil_r.
  - destruct (ChatWithTools i msgs defs) as [e|resp]; simpl; [by eexists|].
    destruct (Assistant.requestedTools resp) as [a|]; simpl; [|by eexists].
    destruct (IH (S i) (msgs ++ a :: (toolEntry <$> Assistant.ToolCalls a))
                 (calls ++ [msgs])) as [rest ->].
    exists ([msgs] ++ rest). by rewrite app_assoc.
Qed.

Lemma iterate_calls_bound left : ∀ i msgs calls,
  (length (Assistant.llmCalls (iterate left i msgs calls))
   ≤ length calls + left)%nat.
Proof.
  induction left as [|left IH]; intros i msgs calls; simpl; [lia|].
  destruct (ChatWithTools i msgs defs) as [e|resp]; simpl.
  { rewrite length_app. simpl. lia. }
  destruct (Assistant.requestedTools resp) as [a|]; simpl.
  - etransitivity; [apply IH|]. rewrite length_app. simpl. lia.
  - rewrite length_app. simpl. lia.
Qed.

Lemma iterate_always_tools left : ∀ i msgs calls,
  (∀ j buf, ∃ resp a, ChatWithTools j buf defs = inr resp
                      ∧ Assistant.requestedTools resp = Some a) →
  Assistant.finalResponse (iterate left i msgs calls) = ""
  ∧ length (Assistant.llmCalls (iterate left i msgs calls))
    = (length calls + left)%nat.
Proof.
  induction left as [|left IH]; intros i msgs calls Hall; simpl.
  - split; [done|lia].
  - destruct (Hall i msgs) as (resp & a & -> & ->).
    destruct (IH (S i) (msgs ++ a :: (toolEntry <$> Assistant.ToolCalls a))
                 (calls ++ [msgs]) Hall) as [-> ->].
    split; [done|]. rewrite length_app. simpl. lia.
Qed.

(** C2, as the code has it: whatever the reasoning collaborator answers,
    it is called at most 5 times; when it asks for tools on every call it
    is called exactly 5 times and the loop then ends -- but the text handed
    on is the empty string, which is neither of the two apology texts. *)
Theorem budget_exhausted_yields_empty_answer systemPrompt question :
  let run := Assistant.processRequest Unmarshal Marshal ChatWithTools tools
               systemPrompt question in
  (length (Assistant.llmCalls run) ≤ 5)%nat
  ∧ ((∀ j buf, ∃ resp a, ChatWithTools j buf defs = inr resp
                         ∧ Assistant.requestedTools resp = Some a) →
     length (Assistant.llmCalls run) = 5%nat
     ∧ Assistant.finalResponse run = ""
     ∧ Assistant.finalResponse run ≠ Assistant.llmFailed
     ∧ Assistant.finalResponse run ≠ Assistant.noAnswer).
Proof.
  intros run. split.
  - apply (iterate_calls_bound Assistant.maxIterations).
  - intros Hall.
    destruct (iterate_always_tools Assistant.maxIterations 0
                [Assistant.mkMessage "system" systemPrompt [] "";
                 Assistant.mkMessage "user" question [] ""] [] Hall)
      as [Hf Hl].
    fold (Assistant.processRequest Unmarshal Marshal ChatWithTools tools
            systemPrompt question) in Hf, Hl. fold run in Hf, Hl.
    rewrite Hf. repeat split; done.
Qed.

(** C8: a tool call fails when the name is not registered, when its
    arguments do not parse, or when the handler answers with an error; for
    every failed call the entry appended to the buffer has role [tool], the
    call's id, and the marshalled object with the single field [error]
    holding the error text. A round that requested tools always goes on to
    the next iteration with all entries appended, and when the budget is
    not used up the collaborator is called again on that buffer. *)
Theorem failed_tool_call_is_reported_in_buffer (tc : Tools.ToolCall) :
  (tools !! Tools.FunctionName tc = None →
     Tools.Execute Unmarshal tools tc
     = inl ("tool not found: " +:+ Tools.FunctionName tc))
  ∧ (∀ tool err, tools !! Tools.FunctionName tc = Some tool →
       Unmarshal (Tools.FunctionArguments tc) = inl err →
       Tools.Execute Unmarshal tools tc = inl ("解析参数失败: " +:+ err))
  ∧ (∀ tool params h err, tools !! Tools.FunctionName tc = Some tool →
       Unmarshal (Tools.FunctionArguments tc) = inr params →
       Tools.Handler tool = Some h → h params = inl err →
       Tools.Execute Unmarshal tools tc = inl err)
  ∧ (∀ err, Tools.Execute Unmarshal tools tc = inl err →
       toolEntry tc
       = Assistant.mkMessage "tool" (Marshal (JObj [("error", JStr err)]))
           [] (Tools.ID tc))
  ∧ (∀ left i msgs calls resp a err,
       ChatWithTools i msgs defs = inr resp →
       Assistant.requestedTools resp = Some a →
       tc ∈ Assistant.ToolCalls a →
       Tools.Execute Unmarshal tools tc = inl err →
       let buf := msgs ++ a :: (toolEntry <$> Assistant.ToolCalls a) in
       Assistant.mkMessage "tool" (Marshal (JObj [("error", JStr err)]))
         [] (Tools.ID tc) ∈ buf
       ∧ iterate (S left) i msgs calls
         = iterate left (S i) buf (calls ++ [msgs])
       ∧ (left ≠ 0%nat →
          ∃ rest, Assistant.llmCalls (iterate (S left) i msgs calls)
                  = calls ++ [msgs; buf] ++ rest)).
Proof.
  assert (Hentry : ∀ err, Tools.Execute Unmarshal tools tc = inl err →
            toolEntry tc
            = Assistant.mkMessage "tool"
                (Marshal (JObj [("error", JStr err)])) [] (Tools.ID tc)).
  { intros err H. unfold Assistant.toolEntry. by rewrite H. }
  split; [|split; [|split; [|split]]].
  - intros H. unfold Tools.Execute, Tools.Get. by rewrite H.
  - intros tool err Ht Hu. unfold Tools.Execute, Tools.Get.
    rewrite Ht. unfold Tools.ParseArguments. by rewrite Hu.
  - intros tool params h err Ht Hu Hh He. unfold Tools.Execute, Tools.Get.
    rewrite Ht. unfold Tools.ParseArguments. rewrite Hu.
    unfold Tools.Execute_tool. by rewrite Hh, He.
  - exact Hentry.
  - intros left i msgs calls resp a err Hc Hr Hin He buf.
    assert (Hstep : iterate (S left) i msgs calls
                    = iterate left (S i) buf (calls ++ [msgs])).
    { simpl. by rewrite Hc, Hr. }
    split; [|split; [done|]].
    + unfold buf. apply elem_of_app. right. apply elem_of_cons. right.
      rewrite <- (Hentry err He). by apply list_elem_of_fmap_2.
    + intros Hleft. rewrite Hstep.
      destruct left as [|left]; [done|].
      destruct (iterate_calls_prefix (S left) (S i) buf (calls ++ [msgs]))
        as [rest Hrest].
      assert (Hhead : ∃ rest', rest = buf :: rest').
      { simpl in Hrest.
        destruct (ChatWithTools (S i) buf defs) as [e|resp'];
          simpl in Hrest.
        - apply app_inv_head in Hrest. eauto.
        - destruct (Assistant.requestedTools resp') as [a'|];
            simpl in Hrest.
          + destruct (iterate_calls_prefix left (S (S i))
                        (buf ++ a' :: (toolEntry <$> Assistant.ToolCalls a'))
                        ((calls ++ [msgs]) ++ [buf])) as [r Hr'].
            rewrite Hr' in Hrest. rewrite <- app_assoc in Hrest.
            apply app_inv_head in Hrest. eauto.
          + apply app_inv_head in Hrest. eauto. }
      destruct Hhead as [rest' ->]. exists rest'.
      rewrite Hrest. by rewrite <- app_assoc.
Qed.

End AgentLoop.

(** The collaborator that always asks for [get_order_detail]: five calls,
    then the empty answer. *)
Lemma budget_exhausted_yields_empty_answer_witness :
  length (Assistant.llmCalls
            (Assistant.processRequest rejectArgs showJSON alwaysTool ∅
               "你是一个专业的电商客服助手" "我的订单到哪了")) = 5%nat
  ∧ Assistant.finalResponse
      (Assistant.processRequest rejectArgs showJSON alwaysTool ∅
         "你是一个专业的电商客服助手" "我的订单到哪了") = "".
Proof.
  destruct (budget_exhausted_yields_empty_answer rejectArgs showJSON
              alwaysTool ∅ "你是一个专业的电商客服助手" "我的订单到哪了")
    as [_ H].
  assert (Hall : ∀ (j : nat) (buf : list Assistant.Message),
            ∃ resp a, alwaysTool j buf (Tools.GetFunctionDefs ∅) = inr resp
                      ∧ Assistant.requestedTools resp = Some a).
  { intros j buf. eexists. eexists. split; reflexivity. }
  destruct (H Hall) as (H1 & H2 & _). split; [exact H1|exact H2].
Defined.

(** An unregistered tool name, and a registered tool whose arguments do not
    parse: each yields a tool entry with the error text under the call's
    id. *)
Lemma failed_tool_call_is_reported_in_buffer_witness :
  Assistant.toolEntry rejectArgs showJSON ∅ orderCall
  = Assistant.mkMessage "tool"
      "error: tool not found: get_order_detail" [] "call_1"
  ∧ Assistant.toolEntry rejectArgs showJSON orderTools orderCall
    = Assistant.mkMessage "tool"
        "error: 解析参数失败: unexpected end of JSON input" [] "call_1"
  ∧ Assistant.toolEntry acceptArgs showJSON orderTools orderCall
    = Assistant.mkMessage "tool" "error: order not found" [] "call_1"
  ∧ ∃ rest,
      Assistant.llmCalls
        (Assistant.iterate rejectArgs showJSON alwaysTool ∅ 2 0 [] [])
      = [[];
         [toolRequest;
          Assistant.mkMessage "tool"
            "error: tool not found: get_order_detail" [] "call_1"]]
        ++ rest.
Proof.
  destruct (failed_tool_call_is_reported_in_buffer rejectArgs showJSON
              alwaysTool ∅ orderCall) as (H1 & _ & _ & H4 & H5).
  destruct (failed_tool_call_is_reported_in_buffer rejectArgs showJSON
              alwaysTool orderTools orderCall) as (_ & H2 & _ & H4' & _).
  destruct (failed_tool_call_is_reported_in_buffer acceptArgs showJSON
              alwaysTool orderTools orderCall) as (_ & _ & H3 & H4'' & _).
  split; [apply (H4 _ (H1 eq_refl))|].
  split; [eapply H4', H2; reflexivity|].
  split; [eapply H4'', H3; reflexivity|].
  assert (Hin : orderCall ∈ Assistant.ToolCalls toolRequest) by left.
  destruct (H5 1%nat 0%nat [] [] _ toolRequest _ eq_refl eq_refl Hin
              (H1 eq_refl)) as (_ & _ & Hnext).
  destruct (Hnext ltac:(discriminate)) as [rest Hrest].
  exists rest. exact Hrest.
Defined.

(** ** The pending-response table of [WebSocketManager] *)

Section PendingResponses.

Import WS.

(** Only the table, the timers, the identifier counter and the resolution
    log matter to the bookkeeping. *)
Lemma Inv_same st st' :
  pendingResponses st' = pendingResponses st → timers st' = timers st →
  nextId st' = nextId st → settled st' = settled st →
  Inv st → Inv st'.
Proof.
  intros Hp Ht Hn Hs [].
  constructor; unfold resolutions in *; rewrite ?Hp, ?Ht, ?Hn, ?Hs; auto.
Qed.

Lemma Inv_fresh open callback : Inv (fresh open callback).
Proof.
  constructor; simpl; try (intros; exfalso; eapply not_elem_of_nil; eassumption).
  - intros k e H. by rewrite lookup_empty in H.
  - intros p. unfold resolutions. simpl. lia.
  - constructor.
Qed.

Lemma resolutions_settle p q o st :
  resolutions p (settle q o st)
  = (resolutions p st + if decide (q = p) then 1 else 0)%nat.
Proof.
  unfold resolutions, settle. simpl. rewrite filter_app, length_app.
  f_equal. rewrite filter_cons, filter_nil. simpl.
  by destruct (decide (q = p)).
Qed.

Lemma fire_complete t st : fire t st = complete t (RejectError timeoutText) st.
Proof. done. Qed.

Lemma Inv_complete t o st : Inv st → t ∈ timers st → Inv (complete t o st).
Proof.
  intros HI Ht. pose proof HI as [].
  assert (Hres : ∀ p, resolutions p (complete t o st)
            = (resolutions p st
               + if decide (timerPromise t = p) then 1 else 0)%nat).
  { intros p. unfold complete. by rewrite resolutions_settle. }
  assert (Hin : ∀ t', t' ∈ timers (complete t o st) →
            t' ∈ timers st ∧ timerId t' ≠ timerId t).
  { intros t' H. simpl in H. apply list_elem_of_filter in H. tauto. }
  constructor.
  - intros k e H. simpl in H. apply lookup_delete_Some in H as [Hne H].
    destruct (inv_entry0 _ _ H) as (t' & Ht' & H1 & H2 & H3).
    exists t'. split; [|done]. simpl. apply list_elem_of_filter.
    split; [|done]. intros Heq.
    assert (t' = t) by eauto. congruence.
  - intros t' H. apply Hin in H as [H Hne]. rewrite Hres.
    rewrite (inv_live0 _ H).
    destruct (inv_timer0 _ H) as [H1 _]. destruct (inv_timer0 _ Ht) as [H2 _].
    rewrite decide_False; [done|congruence].
  - intros p. rewrite Hres. destruct (decide (timerPromise t = p)) as [<-|].
    + rewrite (inv_live0 _ Ht). lia.
    + specialize (inv_once0 p). lia.
  - simpl. by apply NoDup_filter.
  - intros t1 t2 H1 H2. apply Hin in H1 as [H1 _]. apply Hin in H2 as [H2 _].
    eauto.
  - intros t' H. apply Hin in H as [H _]. apply (inv_timer0 _ H).
  - intros p o' H. simpl in H. apply elem_of_app in H as [H|H]; [eauto|].
    apply list_elem_of_singleton in H. simplify_eq.
    destruct (inv_timer0 _ Ht) as [-> H2]. exact H2.
Qed.

Lemma Inv_sendWithResponse message messageId st :
  Inv st → Inv (sendWithResponse message messageId st).2.
Proof.
  intros []. unfold sendWithResponse. simpl.
  set (t := mkTimer (nextId st) (clock st + timeoutMs) messageId (nextId st)).
  set (st1 := mkManager _ _ _ _ _ _ _ _ _ _).
  assert (HI : Inv st1).
  { assert (Hin : ∀ t', t' ∈ timers st1 → t' ∈ timers st ∨ t' = t).
    { intros t' H. simpl in H. apply elem_of_app in H as [H|H]; [by left|].
      right. by apply list_elem_of_singleton in H. }
    assert (Hres : ∀ p, resolutions p st1 = resolutions p st) by done.
    assert (Hnew : resolutions (nextId st) st = 0%nat).
    { unfold resolutions.
      destruct (filter _ (settled st)) as [|[p o] l] eqn:Hf; [done|].
      assert (Hpo : (p, o) ∈ filter (λ x, x.1 = nextId st) (settled st))
        by (rewrite Hf; left).
      apply list_elem_of_filter in Hpo as [Hp Hpo]. simpl in Hp. subst p.
      specialize (inv_settled0 _ _ Hpo). lia. }
    constructor.
    - intros k e H. simpl in H.
      apply lookup_insert_Some in H as [[<- <-]|[Hne H]].
      + exists t. split; [|done]. simpl. apply elem_of_app. right.
        by apply list_elem_of_singleton.
      + destruct (inv_entry0 _ _ H) as (t' & Ht' & H').
        exists t'. split; [|done]. simpl. apply elem_of_app. by left.
    - intros t' H. rewrite Hres. apply Hin in H as [H| ->]; [eauto|done].
    - intros p. rewrite Hres. auto.
    - simpl. apply NoDup_app. split; [done|]. split; [|apply NoDup_singleton].
      intros t' H1 H2. apply list_elem_of_singleton in H2. subst t'.
      destruct (inv_timer0 _ H1) as [_ Hlt]. simpl in Hlt. lia.
    - intros t1 t2 H1 H2 Heq.
      apply Hin in H1 as [H1| ->]; apply Hin in H2 as [H2| ->]; eauto.
      + destruct (inv_timer0 _ H1) as [_ Hlt]. simpl in Heq. lia.
      + destruct (inv_timer0 _ H2) as [_ Hlt]. simpl in Heq. lia.
    - intros t' H. simpl. apply Hin in H as [H| ->]; [|simpl; lia].
      destruct (inv_timer0 _ H). split; [done|lia].
    - intros p o H. simpl in *. specialize (inv_settled0 _ _ H). lia. }
  revert HI. apply Inv_same; unfold send; by destruct (wsOpen st1).
Qed.

Lemma getPending_Some messageID st k e :
  getPending messageID st = Some (k, e) →
  messageID = JSStr k ∧ pendingResponses st !! k = Some e.
Proof.
  unfold getPending. destruct messageID; try done.
  destruct (pendingResponses st !! s) eqn:H; simpl; [|done].
  intros. by simplify_eq.
Qed.

(** A matched response does what completing the entry's timer does. *)
Lemma handleResponse_matched response st k e :
  Inv st → getPending (prop response "messageID") st = Some (k, e) →
  ∃ t o, t ∈ timers st ∧ timerId t = timeout e ∧ timerPromise t = promise e
         ∧ timerMessageId t = k
         ∧ o = (if truthy (prop response "success")
                then Resolve (reply true (prop response "message")
                                (prop response "messageID"))
                else Reject (reply false (prop response "message")
                               (prop response "messageID")))
         ∧ handleResponse response st = complete t o st.
Proof.
  intros [] H. pose proof (getPending_Some _ _ _ _ H) as [_ Hk].
  destruct (inv_entry0 _ _ Hk) as (t & Ht & H1 & H2 & H3).
  exists t. eexists. do 4 (split; [done|]). split; [reflexivity|].
  unfold handleResponse, complete. rewrite H, H1, H2, H3.
  by destruct (truthy _).
Qed.

Lemma Inv_handleResponse response st : Inv st → Inv (handleResponse response st).
Proof.
  intros HI.
  destruct (getPending (prop response "messageID") st) as [[k e]|] eqn:H.
  - destruct (handleResponse_matched _ _ _ _ HI H)
      as (t & o & Ht & _ & _ & _ & _ & ->).
    by apply Inv_complete.
  - unfold handleResponse. rewrite H. revert HI. by apply Inv_same.
Qed.

Lemma Inv_handleMessage data st : Inv st → Inv (handleMessage data st).
Proof.
  intros HI. unfold handleMessage.
  destruct (_ && _); [by apply Inv_handleResponse|].
  destruct (hasCallback st); [|done]. revert HI. by apply Inv_same.
Qed.

Lemma Inv_fire_all (l : list Timer) : ∀ st,
  Inv st → NoDup l → (∀ t, t ∈ l → t ∈ timers st) →
  Inv (foldl (fun acc t => fire t acc) st l).
Proof.
  induction l as [|t l IH]; intros st HI Hnd Hsub; simpl; [done|].
  apply NoDup_cons in Hnd as [Hnot Hnd].
  apply IH; [|done|].
  - rewrite fire_complete. apply Inv_complete; [done|].
    apply Hsub. by left.
  - intros t' Ht'. simpl. apply list_elem_of_filter. split.
    + intros Heq. destruct HI.
      assert (t' = t); [|by subst].
      apply inv_ids0; [apply Hsub; by right|apply Hsub; by left|done].
    + apply Hsub. by right.
Qed.

Lemma Inv_advance d st : Inv st → Inv (advance d st).
Proof.
  intros HI. unfold advance. apply Inv_fire_all.
  - revert HI. by apply Inv_same.
  - apply NoDup_filter. by destruct HI.
  - intros t H. simpl. apply list_elem_of_filter in H. tauto.
Qed.

Lemma Inv_step st e : Inv st → Inv (step st e).
Proof.
  intros HI. destruct e; simpl.
  - by apply Inv_sendWithResponse.
  - by apply Inv_handleMessage.
  - by apply Inv_handleResponse.
  - by apply Inv_advance.
  - revert HI. by apply Inv_same.
Qed.

Lemma Inv_run es : ∀ st, Inv st → Inv (run es st).
Proof.
  induction es as [|e es IH]; intros st HI; simpl; [done|].
  apply IH. by apply Inv_step.
Qed.

End PendingResponses.

Section Correlation.

Import WS.

Lemma settled_grows_complete t o st :
  settled (complete t o st) = settled st ++ [(timerPromise t, o)].
Proof. done. Qed.

Lemma settled_grows_step st e : ∃ l, settled (step st e) = settled st ++ l.
Proof.
  assert (Hresp : ∀ response, ∃ l,
            settled (handleResponse response st) = settled st ++ l).
  { intros response. unfold handleResponse.
    destruct (getPending _ st) as [[k pr]|]; [|exists []; simpl; by rewrite app_nil_r].
    destruct (truthy _); by eexists. }
  destruct e; simpl.
  - exists []. rewrite app_nil_r. unfold sendWithResponse, send. simpl.
    by destruct (wsOpen st).
  - unfold handleMessage. destruct (_ && _); [apply Hresp|].
    exists []. rewrite app_nil_r. by destruct (hasCallback st).
  - apply Hresp.
  - unfold advance.
    set (st1 := mkManager _ _ _ _ _ _ _ _ _ _).
    change (settled st) with (settled st1).
    generalize (filter (λ t, deadline t <= clock st + Z.of_N d) (timers st)).
    intros l. clearbody st1. revert st1.
    induction l as [|t l IH]; intros st1; simpl.
    + exists []. by rewrite app_nil_r.
    + destruct (IH (fire t st1)) as [l' ->]. simpl.
      eexists. by rewrite <- app_assoc.
  - exists []. by rewrite app_nil_r.
Qed.

Lemma resolutions_mono_run es : ∀ p st,
  (resolutions p st ≤ resolutions p (run es st))%nat.
Proof.
  induction es as [|e es IH]; intros p st; simpl; [done|].
  etransitivity; [|apply IH].
  destruct (settled_grows_step st e) as [l Hl].
  unfold resolutions. rewrite Hl, filter_app, length_app. lia.
Qed.

Lemma resolved_stays_resolved es p st :
  Inv st → resolutions p st = 1%nat → resolutions p (run es st) = 1%nat.
Proof.
  intros HI H1. pose proof (resolutions_mono_run es p st) as Hge.
  destruct (Inv_run es st HI) as [_ _ Hle _ _ _ _]. specialize (Hle p). lia.
Qed.

(** C4: in every state a manager can reach from its start, no promise has
    had [resolve]/[reject] called more than once. A response that finds its
    entry removes it, cancels its timer and settles a promise not settled
    before; a timer that fires removes the entry under its id and rejects a
    promise not settled before; after either, whatever happens next, that
    promise stays settled exactly once. A response that finds no entry only
    adds a console warning, and a frame whose id matches no entry settles
    nothing whichever way it is routed. In particular a reply that arrives
    40 seconds after the send finds the waiter already rejected by the
    timeout and is dropped with a warning. *)
Theorem pending_request_resolved_at_most_once open callback es :
  let st := run es (fresh open callback) in
  (∀ p, (resolutions p st ≤ 1)%nat)
  ∧ (∀ response k e,
       getPending (prop response "messageID") st = Some (k, e) →
       let st' := handleResponse response st in
       pendingResponses st' !! k = None
       ∧ (∀ t, t ∈ timers st' → timerId t ≠ timeout e)
       ∧ resolutions (promise e) st = 0%nat
       ∧ (∀ es', resolutions (promise e) (run es' st') = 1%nat))
  ∧ (∀ t, t ∈ timers st →
       let st' := fire t st in
       pendingResponses st' !! timerMessageId t = None
       ∧ (t ∉ timers st')
       ∧ settled st'
         = settled st ++ [(timerPromise t, RejectError timeoutText)]
       ∧ resolutions (timerPromise t) st = 0%nat
       ∧ (∀ es', resolutions (timerPromise t) (run es' st') = 1%nat))
  ∧ (∀ response,
       getPending (prop response "messageID") st = None →
       handleResponse response st
       = log (WarnNoPending (prop response "messageID")) st)
  ∧ (∀ data,
       getPending (prop data "messageID") st = None →
       pendingResponses (handleMessage data st) = pendingResponses st
       ∧ timers (handleMessage data st) = timers st
       ∧ settled (handleMessage data st) = settled st)
  ∧ (let late := run [EvSend chatFrame "x"; EvElapse 40000;
                      EvResponse replyX] connected in
     settled late = [(0%nat, RejectError timeoutText)]
     ∧ console late = [WarnNoPending (JSStr "x")]
     ∧ pendingResponses late = ∅).
Proof.
  intros st.
  assert (HI : Inv st) by apply Inv_run, Inv_fresh.
  assert (Hdone : ∀ t o es', t ∈ timers st →
            resolutions (timerPromise t) st = 0%nat
            ∧ resolutions (timerPromise t) (run es' (complete t o st))
              = 1%nat).
  { intros t o es' Ht. destruct HI as [_ Hlive _ _ _ _ _].
    pose proof (Hlive _ Ht) as H0. split; [done|].
    apply resolved_stays_resolved.
    - apply Inv_complete; [|done]. by apply Inv_run, Inv_fresh.
    - unfold complete. rewrite resolutions_settle, decide_True by done.
      change (resolutions (timerPromise t) (with_pending _ _))
        with (resolutions (timerPromise t) st). lia. }
  split; [by destruct HI|]. split; [|split; [|split; [|split]]].
  - intros response k e H st'.
    destruct (handleResponse_matched _ _ _ _ HI H)
      as (t & o & Ht & H1 & H2 & H3 & _ & Heq).
    unfold st'. rewrite Heq. rewrite <- H1, <- H2, <- H3.
    split; [simpl; by rewrite lookup_delete_eq|]. split.
    + intros t' Ht'. simpl in Ht'. apply list_elem_of_filter in Ht'. tauto.
    + destruct (Hdone t o [] Ht) as [H0 _]. split; [done|].
      intros es'. by apply Hdone.
  - intros t Ht st'. unfold st'. rewrite fire_complete.
    split; [simpl; by rewrite lookup_delete_eq|]. split.
    + intros Hin. simpl in Hin. apply list_elem_of_filter in Hin. tauto.
    + split; [done|]. destruct (Hdone t (RejectError timeoutText) [] Ht)
        as [H0 _]. split; [done|]. intros es'. by apply Hdone.
  - intros response H. unfold handleResponse. by rewrite H.
  - intros data H. unfold handleMessage.
    destruct (_ && _); [unfold handleResponse; by rewrite H|].
    by destruct (hasCallback st).
  - vm_compute. done.
Qed.

(** A request under id [x], answered in time: the promise is fulfilled once
    and stays so when the 30 seconds have passed. *)
Lemma pending_request_resolved_at_most_once_witness :
  resolutions 0
    (run [EvElapse 40000]
       (handleResponse replyX (run [EvSend chatFrame "x"] connected)))
  = 1%nat
  ∧ resolutions 0
      (run [EvResponse replyX]
         (fire (mkTimer 0 30000 "x" 0) (run [EvSend chatFrame "x"] connected)))
    = 1%nat
  ∧ handleResponse replyX connected
    = log (WarnNoPending (JSStr "x")) connected.
Proof.
  destruct (pending_request_resolved_at_most_once true true
              [EvSend chatFrame "x"]) as (_ & H & Hf & _).
  destruct (pending_request_resolved_at_most_once true true [])
    as (_ & _ & _ & Hn & _).
  destruct (H replyX "x" (mkPending 0 0) eq_refl) as (_ & _ & _ & Hs).
  assert (Hin : mkTimer 0 30000 "x" 0
                ∈ timers (run [EvSend chatFrame "x"] (fresh true true)))
    by left.
  destruct (Hf _ Hin) as (_ & _ & _ & _ & Ht).
  split; [exact (Hs [EvElapse 40000])|].
  split; [exact (Ht [EvResponse replyX])|].
  exact (Hn replyX eq_refl).
Defined.

(** C1, as the code has it: an acknowledgement in the gateway's outbound
    schema carries its id under [messageId]; [handleMessage] looks for
    [messageID], so the frame is never taken for a response: the table, the
    timers and the promises stay as they were and the frame goes to the
    message callback. The acknowledgement of [m1] arriving after one second
    leaves the request pending, and the promise is rejected by the timeout;
    the same frame with the id under [messageID] fulfils it. *)
Theorem outbound_ack_leaves_request_pending :
  (∀ r st,
     pendingResponses (handleMessage (wireFrame r) st) = pendingResponses st
     ∧ timers (handleMessage (wireFrame r) st) = timers st
     ∧ settled (handleMessage (wireFrame r) st) = settled st
     ∧ delivered (handleMessage (wireFrame r) st)
       = if hasCallback st then delivered st ++ [wireFrame r]
         else delivered st)
  ∧ (let st1 := advance 1000 (sendWithResponse chatFrame "m1" connected).2 in
     let st2 := handleMessage (wireFrame ackM1) st1 in
     (sendWithResponse chatFrame "m1" connected).1 = 0%nat
     ∧ pendingResponses st2 !! "m1" = Some (mkPending 0 0)
     ∧ settled st2 = []
     ∧ delivered st2 = [wireFrame ackM1]
     ∧ settled (advance 29000 st2) = [(0%nat, RejectError timeoutText)]
     ∧ settled (handleMessage
                  (<["messageID" := JSStr "m1"]> (wireFrame ackM1)) st1)
       = [(0%nat,
           Resolve (reply true (JSStr "消息已收到，正在处理中...")
                      (JSStr "m1")))]).
Proof.
  split.
  - intros r st.
    assert (Hno : prop (wireFrame r) "messageID" = JSUndefined).
    { unfold prop, wireFrame. rewrite !lookup_insert_ne by done.
      destruct (decide (MessageID r = "")).
      - by rewrite lookup_empty.
      - rewrite lookup_insert_ne by done. by rewrite lookup_empty. }
    unfold handleMessage. rewrite Hno. simpl. rewrite andb_false_r.
    by destruct (hasCallback st).
  - vm_compute. done.
Qed.

End Correlation.

(** ** The session registry: counts, scans in sequence, record invariant *)

Section RegistryMore.

Context (WriteJSON : Conn -> Payload -> option string).

(** A map is no larger than another one into whose keys its own keys are
    sent without collision. *)
Lemma map_size_le_inj {K1 K2 A B} `{Countable K1} `{Countable K2}
    (R : K1 → K2 → Prop) (m1 : gmap K1 A) : ∀ (m2 : gmap K2 B),
  (∀ k x, m1 !! k = Some x → ∃ k', R k k' ∧ is_Some (m2 !! k')) →
  (∀ k1 k2 k', is_Some (m1 !! k1) → is_Some (m1 !! k2) →
     R k1 k' → R k2 k' → k1 = k2) →
  (size m1 ≤ size m2)%nat.
Proof.
  induction m1 as [|i x m Hi IH] using map_ind; intros m2 Hto Hinj.
  { rewrite map_size_empty. lia. }
  destruct (Hto i x) as (k' & HR & Hk'); [by rewrite lookup_insert_eq|].
  rewrite map_size_insert_None by done.
  assert (size m ≤ size (delete k' m2))%nat as Hle.
  { apply IH.
    - intros k y Hk.
      destruct (Hto k y) as (k'' & HR' & Hk'').
      { rewrite lookup_insert_ne; [done|congruence]. }
      exists k''. split; [done|]. rewrite lookup_delete_ne; [done|].
      intros ->. assert (i = k); [|congruence].
      apply (Hinj i k k''); [by rewrite lookup_insert_eq| |done..].
      rewrite lookup_insert_ne; [by eexists|congruence].
    - intros k1 k2 k'' [y1 H1] [y2 H2]. apply Hinj.
      + rewrite lookup_insert_ne; [by eexists|congruence].
      + rewrite lookup_insert_ne; [by eexists|congruence]. }
  rewrite map_size_delete_Some in Hle by done.
  assert (size m2 ≠ 0)%nat; [|lia].
  apply map_size_ne_0_lookup. destruct Hk' as [y Hy]. by exists k'.
Qed.

Lemma scan_lookup now s uid :
  userSessions (heartbeatScan now s) !! uid
  = userSessions s !! uid ≫= scanned now.
Proof.
  unfold heartbeatScan. rewrite scan_fold_users.
  destruct (userSessions s !! uid) as [x|]; simpl; [|done].
  unfold scanned. by destruct (expired now x).
Qed.

(** X1: in a registry whose indices are in step, the online count (the
    size of the user index) is the number of session ids in the session-id
    index. *)
Theorem online_count_is_session_id_count s :
  wf s → GetOnlineCount s = size (sessionToUser s).
Proof.
  intros [Hs Ho]. unfold GetOnlineCount. apply Nat.le_antisymm.
  - apply (map_size_le_inj
             (λ uid sid, ∃ x, userSessions s !! uid = Some x
                              ∧ SessionID x = sid)).
    + intros uid x Hx. exists (SessionID x). split; [by exists x|].
      rewrite (Ho _ _ Hx). by eexists.
    + intros u1 u2 sid _ _ (x1 & H1 & E1) (x2 & H2 & E2).
      pose proof (Ho _ _ H1) as A1. pose proof (Ho _ _ H2) as A2.
      rewrite E1 in A1. rewrite E2 in A2. congruence.
  - apply (map_size_le_inj (λ sid uid, sessionToUser s !! sid = Some uid)).
    + intros sid uid H. exists uid. split; [done|].
      destruct (Hs _ _ H) as (x & Hx & _). by eexists.
    + intros s1 s2 uid _ _ H1 H2.
      destruct (Hs _ _ H1) as (x1 & Hx1 & <-).
      destruct (Hs _ _ H2) as (x2 & Hx2 & <-). congruence.
Qed.

(** X2: the online count is 0 at the start, grows by one when an identity
    without a session registers, stays the same when a registered identity
    registers again, drops by one when a registered identity is removed,
    and never grows in a monitor scan. *)
Theorem online_count_follows_operations now uid username conn sid ip s :
  GetOnlineCount NewSessionService = 0%nat
  ∧ (userSessions s !! uid = None →
       GetOnlineCount (RegisterUser now uid username conn sid ip s)
       = S (GetOnlineCount s))
  ∧ (is_Some (userSessions s !! uid) →
       GetOnlineCount (RegisterUser now uid username conn sid ip s)
       = GetOnlineCount s
       ∧ S (GetOnlineCount (RemoveUserByID uid s)) = GetOnlineCount s)
  ∧ (GetOnlineCount (heartbeatScan now s) ≤ GetOnlineCount s)%nat.
Proof.
  unfold GetOnlineCount. split; [done|]. split; [|split].
  - intros H. unfold RegisterUser. rewrite H. simpl.
    by apply map_size_insert_None.
  - intros [x H]. split.
    + unfold RegisterUser. rewrite H. simpl.
      apply map_size_insert_Some. by eexists.
    + unfold RemoveUserByID. rewrite H. simpl.
      rewrite map_size_delete_Some by (by eexists).
      assert (size (userSessions s) ≠ 0)%nat; [|lia].
      apply map_size_ne_0_lookup. by exists uid.
  - apply (map_size_le_inj eq).
    + intros k y Hk. exists k. split; [done|].
      rewrite scan_lookup in Hk.
      destruct (userSessions s !! k); [by eexists|done].
    + intros k1 k2 k' _ _ -> ->. done.
Qed.

(** X3: when an identity has registered again under a new session id, the
    removal by the old session id (the deferred call of the old connection's
    handler) changes nothing: the new session stays registered. *)
Theorem stale_teardown_spares_new_session now uid username conn sid ip s old :
  userSessions s !! uid = Some old → SessionID old ≠ sid →
  RemoveUserBySessionID (SessionID old)
    (RegisterUser now uid username conn sid ip s)
  = RegisterUser now uid username conn sid ip s.
Proof.
  intros Hold Hne. unfold RemoveUserBySessionID, RegisterUser.
  rewrite Hold. simpl.
  rewrite lookup_insert_ne by done. by rewrite lookup_delete_eq.
Qed.

Lemma wrap64_small z : - 2 ^ 63 <= z < 2 ^ 63 → wrap64 z = z.
Proof. intros Hz. unfold wrap64. rewrite Z.mod_small; lia. Qed.

(** X4: every registered session is stored under its own user id and has a
    missed-beat counter of 0, 1 or 2: this holds at the start and every
    operation keeps it, so the counter never reaches 3 in the registry and
    never wraps. *)
Theorem registered_sessions_stay_wellformed op s :
  sessions_ok NewSessionService
  ∧ (sessions_ok s → sessions_ok (apply_op WriteJSON op s)).
Proof.
  split.
  { intros uid x H. simpl in H. by rewrite lookup_empty in H. }
  intros Hok.
  assert (Hsub : ∀ (m : gmap Z UserSession),
            (∀ k y, m !! k = Some y → userSessions s !! k = Some y) →
            ∀ k y, m !! k = Some y → UserID y = k ∧ 0 <= MissedBeats y < 3).
  { intros m Hm k y Hk. apply Hok. by apply Hm. }
  assert (Hdel : ∀ i k y, delete i (userSessions s) !! k = Some y →
            userSessions s !! k = Some y).
  { intros i k y Hk. by apply lookup_delete_Some in Hk as [_ Hk]. }
  destruct op as [now uid username conn sid ip|sid|uid|now uid|now|uid msg|[uid|]];
    simpl.
  - intros k y Hk.
    assert (Hy : (k = uid ∧ y = mkUserSession uid username conn sid ip now 0)
                 ∨ userSessions s !! k = Some y).
    { unfold RegisterUser in Hk.
      destruct (userSessions s !! uid); simpl in Hk;
        (apply lookup_insert_Some in Hk as [[<- <-]|[_ Hk]];
         [by left|by right]). }
    destruct Hy as [[-> ->]|Hy]; [simpl; lia|by apply Hok].
  - unfold RemoveUserBySessionID.
    destruct (sessionToUser s !! sid); [|done]. simpl.
    intros k y Hk. eapply Hok, Hdel, Hk.
  - unfold RemoveUserByID.
    destruct (userSessions s !! uid); [|done]. simpl.
    intros k y Hk. eapply Hok, Hdel, Hk.
  - unfold UpdateHeartbeat.
    destruct (userSessions s !! uid) as [x|] eqn:Hx; [|done]. simpl.
    intros k y Hk. simpl in Hk.
    apply lookup_insert_Some in Hk as [[<- <-]|[_ Hk]].
    + destruct (Hok _ _ Hx). simpl. lia.
    + by apply Hok.
  - intros k y Hk. rewrite scan_lookup in Hk.
    destruct (userSessions s !! k) as [x|] eqn:Hx; [|done]. simpl in Hk.
    destruct (Hok _ _ Hx) as [Hid Hb]. unfold scanned in Hk.
    destruct (expired now x); [|by simplify_eq].
    destruct (Session.ShouldBeCleaned _) eqn:Hc; [done|]. simplify_eq.
    unfold Session.ShouldBeCleaned in Hc.
    apply bool_decide_eq_false in Hc. simpl in *.
    rewrite wrap64_small in * by lia. lia.
  - unfold SendMessageToUser.
    destruct (userSessions s !! uid) eqn:Hx; [|done].
    destruct (WriteJSON _ _); simpl; intros k y Hk; by apply Hok.
  - unfold RemoveUserByID.
    destruct (userSessions s !! uid); [|done]. simpl.
    intros k y Hk. eapply Hok, Hdel, Hk.
  - done.
Qed.

(** X5: a session with no missed beat whose last heartbeat is more than 60
    seconds old survives two monitor scans, with 1 and then 2 missed beats,
    and is evicted by the third: it is in neither index and its handle is
    closed. A heartbeat after the second scan and at most 60 seconds before
    the third saves it: it is then registered with no missed beat. *)
Theorem third_silent_scan_evicts n1 n2 n3 s uid x :
  userSessions s !! uid = Some x → MissedBeats x = 0 →
  60 * Second < n1 - LastHeartbeat x → n1 <= n2 → n2 <= n3 →
  let beats k := mkUserSession (UserID x) (Username x) (SConn x) (SessionID x)
                   (ClientIP x) (LastHeartbeat x) k in
  let s2 := heartbeatScan n2 (heartbeatScan n1 s) in
  let s3 := heartbeatScan n3 s2 in
  userSessions (heartbeatScan n1 s) !! uid = Some (beats 1)
  ∧ userSessions s2 !! uid = Some (beats 2)
  ∧ userSessions s3 !! uid = None
  ∧ sessionToUser s3 !! SessionID x = None
  ∧ SConn x ∈ closed s3
  ∧ (∀ t, n3 - t <= 60 * Second →
       userSessions (heartbeatScan n3 (UpdateHeartbeat t uid s2).2) !! uid
       = Some (mkUserSession (UserID x) (Username x) (SConn x) (SessionID x)
                 (ClientIP x) t 0)).
Proof.
  intros Hx Hb H1 H12 H23 beats s2 s3.
  assert (Hstep : ∀ now k, 60 * Second < now - LastHeartbeat x → 0 <= k < 3 →
            expired now (beats k) = true
            ∧ Session.IncrementMissedBeats (beats k) = beats (k + 1)).
  { intros now k Hgap Hk. split; [by apply expired_spec|].
    unfold Session.IncrementMissedBeats, beats. simpl.
    by rewrite wrap64_small by lia. }
  assert (Hnext : ∀ now r k, userSessions r !! uid = Some (beats k) →
            60 * Second < now - LastHeartbeat x → 0 <= k < 2 →
            userSessions (heartbeatScan now r) !! uid = Some (beats (k + 1))).
  { intros now r k Hr Hgap Hk. rewrite scan_lookup, Hr. simpl.
    destruct (Hstep now k) as [He Hi]; [done|lia|].
    unfold scanned. rewrite He, Hi.
    unfold Session.ShouldBeCleaned, beats. simpl.
    rewrite bool_decide_eq_false_2; [done|lia]. }
  assert (Hx0 : x = beats 0) by (destruct x; simpl in *; by subst).
  assert (E1 : userSessions (heartbeatScan n1 s) !! uid = Some (beats 1)).
  { apply (Hnext n1 s 0); [congruence|done|lia]. }
  assert (E2 : userSessions s2 !! uid = Some (beats 2)).
  { apply (Hnext n2 _ 1); [done|lia|lia]. }
  assert (Hev : evicted n3 (beats 2) = true).
  { destruct (Hstep n3 2) as [He Hi]; [lia|lia|].
    unfold evicted. by rewrite He, Hi. }
  split; [done|]. split; [done|]. split; [|split; [|split]].
  - unfold s3. rewrite scan_lookup, E2. simpl. by apply scanned_None.
  - unfold s3, heartbeatScan.
    destruct (scan_fold_sids n3 s2 (userSessions s2) (SessionID x))
      as [[H _]|[_ H]]; [done|].
    by destruct (H _ _ E2 Hev).
  - unfold s3, heartbeatScan. apply scan_fold_closed. right.
    exists uid, (beats 2). done.
  - intros t Ht. rewrite scan_lookup. unfold UpdateHeartbeat.
    rewrite E2. simpl. rewrite lookup_insert_eq. simpl.
    unfold scanned.
    assert (He : expired n3 (Session.UpdateHeartbeat t (beats 2)) = false).
    { apply not_true_is_false. rewrite expired_spec. simpl. lia. }
    by rewrite He.
Qed.

(** X6: a monitor scan in which no session's last heartbeat is more than 60
    seconds old leaves the whole registry as it was: no counter, entry or
    handle is touched. *)
Theorem scan_of_live_registry_changes_nothing now s :
  (∀ uid x, userSessions s !! uid = Some x →
     now - LastHeartbeat x <= 60 * Second) →
  heartbeatScan now s = s.
Proof.
  intros Hlive. unfold heartbeatScan.
  assert (Hall : ∀ k x, userSessions s !! k = Some x → expired now x = false).
  { intros k x Hk. apply not_true_is_false. rewrite expired_spec.
    specialize (Hlive _ _ Hk). lia. }
  revert Hall.
  apply (map_fold_weak_ind (λ r m,
    (∀ k x, m !! k = Some x → expired now x = false) → r = s)); [done|].
  intros i x m r Hi IH Hm. unfold scanSession.
  rewrite (Hm i x) by (by rewrite lookup_insert_eq).
  apply IH. intros k y Hk. apply (Hm k).
  rewrite lookup_insert_ne; [done|congruence].
Qed.

End RegistryMore.

(** ** The gateway's handlers *)

Section Handlers.

Context (WriteJSON : Conn -> Payload -> option string).
Context (ParseInt : string -> option Z).

Lemma handleMessage_keeps_others now uid msg s :
  delete uid (userSessions (Router.handleMessage WriteJSON now uid msg s).1)
  = delete uid (userSessions s)
  ∧ sessionToUser (Router.handleMessage WriteJSON now uid msg s).1
    = sessionToUser s
  ∧ closed (Router.handleMessage WriteJSON now uid msg s).1 = closed s.
Proof.
  unfold Router.handleMessage.
  destruct (decide (cm_Type msg = "CHAT")).
  { unfold SendMessageToUser. simpl.
    destruct (userSessions s !! uid); [|done].
    by destruct (WriteJSON _ _). }
  destruct (decide (cm_Type msg = "HEARTBEAT")); [|done].
  unfold UpdateHeartbeat. destruct (userSessions s !! uid); [|done].
  simpl. by rewrite delete_insert_eq.
Qed.

Lemma serve_keeps_others uid reads : ∀ s logs,
  delete uid (userSessions (Handler.serve WriteJSON uid reads s logs).1)
  = delete uid (userSessions s)
  ∧ sessionToUser (Handler.serve WriteJSON uid reads s logs).1
    = sessionToUser s
  ∧ closed (Handler.serve WriteJSON uid reads s logs).1 = closed s.
Proof.
  induction reads as [|[now [msg|]] reads IH]; intros s logs; simpl;
    [done| |done].
  destruct (IH (Router.handleMessage WriteJSON now uid msg s).1
               (logs ++ (Router.handleMessage WriteJSON now uid msg s).2))
    as (-> & -> & ->).
  apply handleMessage_keeps_others.
Qed.

(** X7: a handler run during which nothing else touches the registry (no
    other connection registers or leaves and no monitor scan runs between
    this handler's registration and its return), under a session id that
    is not yet a key: whatever frames the connection carried, when the
    handler has returned the registry's two indices are those of the
    registry before the connection with that identity removed, and the
    connection's handle is the last one closed (after the handle of the
    session it replaced, if any). *)
Theorem served_connection_leaves_identity_unregistered
    uidStr uid conn sid ip now reads s :
  ParseInt uidStr = Some uid → sessionToUser s !! sid = None →
  let r := Handler.HandleWebSocket WriteJSON ParseInt uidStr (Some conn)
             sid ip now reads s in
  r.1.1 = Handler.Disconnected
  ∧ userSessions r.1.2 = userSessions (RemoveUserByID uid s)
  ∧ sessionToUser r.1.2 = sessionToUser (RemoveUserByID uid s)
  ∧ closed r.1.2
    = closed s
      ++ match userSessions s !! uid with
         | Some old => [SConn old]
         | None => []
         end
      ++ [conn].
Proof.
  intros Hp Hsid r.
  set (s1 := RegisterUser now uid ("用户" +:+ uidStr) conn sid ip s).
  assert (Hr : r = (Handler.Disconnected,
                    close_conn conn
                      (RemoveUserBySessionID sid
                         (Handler.serve WriteJSON uid reads s1 []).1),
                    (Handler.serve WriteJSON uid reads s1 []).2)).
  { unfold r, Handler.HandleWebSocket. by rewrite Hp. }
  rewrite Hr. cbn [fst snd]. split; [done|].
  destruct (serve_keeps_others uid reads s1 []) as (Hu & Hs & Hc).
  assert (Hs1 : sessionToUser s1 !! sid = Some uid).
  { unfold s1, RegisterUser.
    destruct (userSessions s !! uid); simpl; by rewrite lookup_insert_eq. }
  unfold RemoveUserBySessionID. rewrite Hs, Hs1. simpl.
  rewrite Hu, Hc. unfold s1, RegisterUser, RemoveUserByID.
  destruct (userSessions s !! uid) as [old|] eqn:Hold; simpl.
  - rewrite !delete_insert_eq. repeat split; [|by rewrite <- app_assoc].
    apply delete_id. destruct (decide (SessionID old = sid)) as [->|Hne].
    + by rewrite lookup_delete_eq.
    + by rewrite lookup_delete_ne.
  - rewrite !delete_insert_eq. repeat split.
    + by apply delete_id.
    + by apply delete_id.
Qed.

(** X8: a read that returns an error -- a frame that does not decode, as
    much as a closed socket -- ends the connection: nothing read after it is
    handled, and the handler goes on to remove the session and close the
    handle exactly as if the frames had stopped there. *)
Theorem failed_read_ends_the_connection
    uidStr upgraded sid ip now good t rest s :
  let decoded := (λ tm : Time * ChatMessage, (tm.1, Some tm.2)) <$> good in
  Handler.HandleWebSocket WriteJSON ParseInt uidStr upgraded sid ip now
    (decoded ++ (t, None) :: rest) s
  = Handler.HandleWebSocket WriteJSON ParseInt uidStr upgraded sid ip now
      decoded s.
Proof.
  intros decoded.
  assert (Hserve : ∀ uid s' logs,
            Handler.serve WriteJSON uid (decoded ++ (t, None) :: rest) s' logs
            = Handler.serve WriteJSON uid decoded s' logs).
  { intros uid. unfold decoded. clear decoded.
    induction good as [|[now' msg] good IH]; intros s' logs; simpl; [done|].
    apply IH. }
  unfold Handler.HandleWebSocket.
  destruct (ParseInt uidStr); [|done]. destruct upgraded; [|done].
  by rewrite Hserve.
Qed.

(** X9: the callback endpoint answers 200 exactly when the addressed user
    has a session and the transport accepts the frame; the frame written is
    then the [AI_RESPONSE] message with the request's content, sender 0 and
    sender name [AI助手], on that session's handle. Otherwise it answers 500;
    when the user is offline the registry is as before. *)
Theorem ai_response_reaches_registered_user uuid now req s :
  let r := Handler.ReceiveAIResponse WriteJSON uuid now (Some req) s in
  let frame := PMessage (mkChatMessage uuid "AI_RESPONSE" (ai_Content req) 0
                           "AI助手" "" now) in
  (r.1 = (200%nat, true)
   ↔ ∃ x, userSessions s !! ai_UserID req = Some x
          ∧ WriteJSON (SConn x) frame = None)
  ∧ (r.1 = (200%nat, true) ∨ r.1 = (500%nat, false))
  ∧ (∀ x, userSessions s !! ai_UserID req = Some x →
       WriteJSON (SConn x) frame = None →
       r.2 = write_frame (SConn x) frame s)
  ∧ (userSessions s !! ai_UserID req = None → r = ((500%nat, false), s)).
Proof.
  intros r frame. unfold r, Handler.ReceiveAIResponse, SendMessageToUser.
  unfold Handler.aiMessage. fold frame.
  destruct (userSessions s !! ai_UserID req) as [x|]; simpl.
  - destruct (WriteJSON (SConn x) frame) as [e|] eqn:Hw; simpl.
    + split; [|split; [by right|split; [|done]]].
      * split; [done|]. intros (y & Hy & Hwy); simplify_eq; congruence.
      * intros y Hy Hwy; simplify_eq; congruence.
    + split; [|split; [by left|split; [|done]]].
      * split; [|done]. intros _. by exists x.
      * intros y Hy _. by simplify_eq.
  - split; [|split; [by right|done]].
    split; [done|]. by intros (y & Hy & _).
Qed.

End Handlers.

(** X10: the login endpoint refuses a missing or empty user name with 400,
    and gives two user names of the same byte length the same uid; when two
    such users then connect, the second registration closes the first
    user's handle and takes the first user's place in the registry. *)
Theorem login_uid_depends_on_length_only u1 u2 :
  Handler.UserLogin None = (400%nat, None)
  ∧ Handler.UserLogin (Some "") = (400%nat, None)
  ∧ (u1 ≠ "" → u2 ≠ "" → String.length u1 = String.length u2 →
     ∃ uid,
       Handler.UserLogin (Some u1) = (200%nat, Some (uid, u1))
       ∧ Handler.UserLogin (Some u2) = (200%nat, Some (uid, u2))
       ∧ ∀ now1 now2 n1 n2 c1 c2 sid1 sid2 ip1 ip2 s,
           sid1 ≠ sid2 →
           let s2 := RegisterUser now2 uid n2 c2 sid2 ip2
                       (RegisterUser now1 uid n1 c1 sid1 ip1 s) in
           c1 ∈ closed s2
           ∧ sessionToUser s2 !! sid1 = None
           ∧ userSessions s2 !! uid
             = Some (mkUserSession uid n2 c2 sid2 ip2 now2 0)).
Proof.
  split; [done|]. split; [done|]. intros H1 H2 Hlen.
  exists (Handler.loginID u1). unfold Handler.UserLogin.
  rewrite !decide_False by done.
  split; [done|]. split.
  { unfold Handler.loginID. by rewrite Hlen. }
  intros now1 now2 n1 n2 c1 c2 sid1 sid2 ip1 ip2 s Hne.
  set (uid := Handler.loginID u1) in *.
  set (s1 := RegisterUser now1 uid n1 c1 sid1 ip1 s).
  assert (Hs1 : userSessions s1 !! uid
                = Some (mkUserSession uid n1 c1 sid1 ip1 now1 0)).
  { unfold s1, RegisterUser.
    destruct (userSessions s !! uid); simpl; by rewrite lookup_insert_eq. }
  destruct (RegisterUser_replaces now2 uid n2 c2 sid2 ip2 s1 _ Hs1)
    as (-> & -> & ->). simpl.
  split; [|split].
  - apply elem_of_app. right. by apply list_elem_of_singleton.
  - rewrite lookup_insert_ne by done. by rewrite lookup_delete_eq.
  - by rewrite lookup_insert_eq.
Qed.

(** ** The registry and handler properties at sample inputs *)

Lemma online_count_is_session_id_count_witness :
  GetOnlineCount reg42 = size (sessionToUser reg42).
Proof. exact (online_count_is_session_id_count reg42 wf_reg42). Defined.

Lemma online_count_follows_operations_witness :
  GetOnlineCount reg42 = S (GetOnlineCount NewSessionService)
  ∧ GetOnlineCount
      (RegisterUser 5 42 "用户42" 8%positive "sid-b" "10.0.0.1" reg42)
    = GetOnlineCount reg42
  ∧ S (GetOnlineCount (RemoveUserByID 42 reg42)) = GetOnlineCount reg42.
Proof.
  destruct (online_count_follows_operations 0 42 "用户42" 7%positive "sid-a"
              "10.0.0.1" NewSessionService) as (_ & H1 & _).
  destruct (online_count_follows_operations 5 42 "用户42" 8%positive "sid-b"
              "10.0.0.1" reg42) as (_ & _ & H2 & _).
  assert (Hs : is_Some (userSessions reg42 !! 42)) by (by exists session42).
  split; [exact (H1 eq_refl)|]. exact (H2 Hs).
Defined.

Lemma stale_teardown_spares_new_session_witness :
  RemoveUserBySessionID "sid-a"
    (RegisterUser 5 42 "用户42" 8%positive "sid-b" "10.0.0.1" reg42)
  = RegisterUser 5 42 "用户42" 8%positive "sid-b" "10.0.0.1" reg42.
Proof.
  apply (stale_teardown_spares_new_session 5 42 "用户42" 8%positive "sid-b"
           "10.0.0.1" reg42 session42); [reflexivity|discriminate].
Defined.

Lemma registered_sessions_stay_wellformed_witness : sessions_ok reg42.
Proof.
  destruct (registered_sessions_stay_wellformed writeOK
              (OpRegister 0 42 "用户42" 7%positive "sid-a" "10.0.0.1")
              NewSessionService) as [H0 H].
  exact (H H0).
Defined.

Lemma third_silent_scan_evicts_witness :
  userSessions
    (heartbeatScan (160 * Second)
       (heartbeatScan (130 * Second) (heartbeatScan (100 * Second) reg42)))
  !! 42 = None.
Proof.
  destruct (third_silent_scan_evicts (100 * Second) (130 * Second)
              (160 * Second) reg42 42 session42 eq_refl eq_refl)
    as (_ & _ & H & _); [vm_compute; reflexivity|vm_compute; discriminate..|].
  exact H.
Defined.

Lemma scan_of_live_registry_changes_nothing_witness :
  heartbeatScan (30 * Second) reg42 = reg42.
Proof.
  apply scan_of_live_registry_changes_nothing. intros uid x H.
  unfold reg42, RegisterUser in H. simpl in H.
  apply lookup_insert_Some in H as [[<- <-]|[_ H]].
  - vm_compute. discriminate.
  - by rewrite lookup_empty in H.
Defined.

Lemma served_connection_leaves_identity_unregistered_witness :
  userSessions
    (Handler.HandleWebSocket writeOK parse42 "42" (Some 7%positive) "sid-a"
       "10.0.0.1" 0 readsM1 NewSessionService).1.2
  = userSessions (RemoveUserByID 42 NewSessionService)
  ∧ closed
      (Handler.HandleWebSocket writeOK parse42 "42" (Some 7%positive) "sid-a"
         "10.0.0.1" 0 readsM1 NewSessionService).1.2
    = [7%positive].
Proof.
  destruct (served_connection_leaves_identity_unregistered writeOK parse42
              "42" 42 7%positive "sid-a" "10.0.0.1" 0 readsM1
              NewSessionService eq_refl eq_refl) as (_ & H1 & _ & H2).
  split; [exact H1|exact H2].
Defined.

Lemma ai_response_reaches_registered_user_witness :
  (Handler.ReceiveAIResponse writeOK "id-1" 9
     (Some (mkAIResponseRequest 42 "您的订单已发货" "assistant")) reg42).1
  = (200%nat, true)
  ∧ Handler.ReceiveAIResponse writeOK "id-1" 9
      (Some (mkAIResponseRequest 7 "您的订单已发货" "assistant")) reg42
    = ((500%nat, false), reg42).
Proof.
  destruct (ai_response_reaches_registered_user writeOK "id-1" 9
              (mkAIResponseRequest 42 "您的订单已发货" "assistant") reg42)
    as (H1 & _).
  destruct (ai_response_reaches_registered_user writeOK "id-1" 9
              (mkAIResponseRequest 7 "您的订单已发货" "assistant") reg42)
    as (_ & _ & _ & H2).
  split; [|exact (H2 eq_refl)].
  apply H1. exists session42. split; reflexivity.
Defined.

Lemma login_uid_depends_on_length_only_witness :
  ∃ uid,
    Handler.UserLogin (Some "alice") = (200%nat, Some (uid, "alice"))
    ∧ Handler.UserLogin (Some "carol") = (200%nat, Some (uid, "carol")).
Proof.
  destruct (login_uid_depends_on_length_only "alice" "carol") as (_ & _ & H).
  destruct H as (uid & H1 & H2 & _); [discriminate..|reflexivity|].
  exists uid. split; [exact H1|exact H2].
Defined.

(** ** The tool registry *)

Section ToolRegistryFacts.

Import ToolRegistry.

(** X11: [Register] refuses a tool without a name and a tool whose name is
    taken, leaving the registry as it was; otherwise it reports no error,
    the tool is found under its name, the count grows by one and every
    other name resolves as before. *)
Theorem Register_accepts_new_named_tools_only tools tool :
  (Tools.Name tool = "" →
     Register tools tool = (Some "tool name cannot be empty", tools))
  ∧ (Tools.Name tool ≠ "" → is_Some (tools !! Tools.Name tool) →
       Register tools tool
       = (Some ("tool already registered: " +:+ Tools.Name tool), tools))
  ∧ (Tools.Name tool ≠ "" → tools !! Tools.Name tool = None →
       (Register tools tool).1 = None
       ∧ Tools.Get (Register tools tool).2 (Tools.Name tool) = inr tool
       ∧ Count (Register tools tool).2 = S (Count tools)
       ∧ ∀ n, n ≠ Tools.Name tool →
           Tools.Get (Register tools tool).2 n = Tools.Get tools n).
Proof.
  unfold Register. split; [|split].
  - intros H. by rewrite decide_True.
  - intros H [t Ht]. by rewrite decide_False, Ht.
  - intros H Hn. rewrite decide_False, Hn by done. simpl.
    unfold Tools.Get, Count. rewrite lookup_insert_eq.
    split; [done|]. split; [done|]. split.
    + by apply map_size_insert_None.
    + intros n Hne. by rewrite lookup_insert_ne.
Qed.

(** X12: from the empty registry on, [Register] keeps every tool stored
    under its own non-empty name; in such a registry the function
    definitions handed to the reasoning collaborator are one per registered
    tool, with pairwise different names, and name exactly the registered
    tools. *)
Theorem function_defs_name_each_tool_once tools tool :
  keyed ∅
  ∧ (keyed tools → keyed (Register tools tool).2)
  ∧ (keyed tools →
       NoDup (Tools.GetFunctionDefs tools).*1
       ∧ length (Tools.GetFunctionDefs tools) = Count tools
       ∧ ∀ n, n ∈ (Tools.GetFunctionDefs tools).*1 ↔ is_Some (tools !! n)).
Proof.
  split; [|split].
  - intros k t H. by rewrite lookup_empty in H.
  - intros Hk. unfold Register.
    destruct (decide (Tools.Name tool = "")); [done|].
    destruct (tools !! Tools.Name tool); [done|]. simpl.
    intros k t Ht. apply lookup_insert_Some in Ht as [[<- <-]|[_ Ht]];
      [done|by apply Hk].
  - intros Hk.
    assert (Hnames : (Tools.GetFunctionDefs tools).*1 = (map_to_list tools).*1).
    { unfold Tools.GetFunctionDefs. rewrite <- list_fmap_compose.
      apply list_fmap_ext. intros i [k t] Hi. simpl.
      apply list_elem_of_lookup_2, elem_of_map_to_list in Hi.
      by destruct (Hk _ _ Hi). }
    split; [|split].
    + rewrite Hnames. apply NoDup_fst_map_to_list.
    + unfold Tools.GetFunctionDefs, Count.
      by rewrite length_fmap, length_map_to_list.
    + intros n. rewrite Hnames. split.
      * intros Hin. apply list_elem_of_fmap in Hin as [[k t] [-> Hin]].
        apply elem_of_map_to_list in Hin. by eexists.
      * intros [t Ht]. apply list_elem_of_fmap. exists (n, t).
        split; [done|]. by apply elem_of_map_to_list.
Qed.

Lemma RegisterBuiltinTools_fresh tomorrow tools :
  tools !! "get_product_detail" = None →
  tools !! "get_order_detail" = None →
  tools !! "get_shipping_tracking" = None →
  tools !! "get_product_availability" = None →
  RegisterBuiltinTools tomorrow tools
  = (None,
     <["get_product_availability" := productAvailabilityTool]>
       (<["get_shipping_tracking" := shippingTrackingTool tomorrow]>
          (<["get_order_detail" := orderDetailTool]>
             (<["get_product_detail" := productDetailTool]> tools)))).
Proof.
  intros H1 H2 H3 H4.
  unfold RegisterBuiltinTools, builtinTools, registerAll, Register. simpl.
  rewrite H1. rewrite lookup_insert_ne, H2 by done.
  rewrite !lookup_insert_ne, H3 by done.
  by rewrite !lookup_insert_ne, H4 by done.
Qed.

(** X13: registering the built-in tools succeeds exactly when none of the
    four names is taken; the registry then holds four tools more. A second
    registration fails on the first name and changes nothing. Otherwise
    the call fails with the error of the first of the four names, in the
    order product detail, order detail, shipping tracking, product
    availability, that is taken, and the tools before that name have been
    registered: none when it is the first, one, two or three when it is the
    second, third or fourth. The error leaves a partly extended registry. *)
Theorem builtin_registration_stops_at_first_taken_name tomorrow tools :
  let r := RegisterBuiltinTools tomorrow tools in
  (r.1 = None
   ↔ tools !! "get_product_detail" = None
     ∧ tools !! "get_order_detail" = None
     ∧ tools !! "get_shipping_tracking" = None
     ∧ tools !! "get_product_availability" = None)
  ∧ (r.1 = None →
       Count r.2 = (4 + Count tools)%nat
       ∧ r.2 !! "get_order_detail" = Some orderDetailTool
       ∧ (∀ n, n ∉ builtinNames → r.2 !! n = tools !! n)
       ∧ RegisterBuiltinTools tomorrow r.2
         = (Some "tool already registered: get_product_detail", r.2))
  ∧ (tools !! "get_product_detail" = None →
     is_Some (tools !! "get_order_detail") →
     r = (Some "tool already registered: get_order_detail",
          <["get_product_detail" := productDetailTool]> tools))
  ∧ (is_Some (tools !! "get_product_detail") →
     r = (Some "tool already registered: get_product_detail", tools))
  ∧ (tools !! "get_product_detail" = None →
     tools !! "get_order_detail" = None →
     is_Some (tools !! "get_shipping_tracking") →
     r = (Some "tool already registered: get_shipping_tracking",
          <["get_order_detail" := orderDetailTool]>
            (<["get_product_detail" := productDetailTool]> tools)))
  ∧ (tools !! "get_product_detail" = None →
     tools !! "get_order_detail" = None →
     tools !! "get_shipping_tracking" = None →
     is_Some (tools !! "get_product_availability") →
     r = (Some "tool already registered: get_product_availability",
          <["get_shipping_tracking" := shippingTrackingTool tomorrow]>
            (<["get_order_detail" := orderDetailTool]>
               (<["get_product_detail" := productDetailTool]> tools)))).
Proof.
  intros r.
  assert (Hiff : r.1 = None
            ↔ tools !! "get_product_detail" = None
              ∧ tools !! "get_order_detail" = None
              ∧ tools !! "get_shipping_tracking" = None
              ∧ tools !! "get_product_availability" = None).
  { split.
    - unfold r, RegisterBuiltinTools, builtinTools, registerAll, Register.
      simpl.
      destruct (tools !! "get_product_detail") eqn:H1; [done|].
      rewrite lookup_insert_ne by done.
      destruct (tools !! "get_order_detail") eqn:H2; [done|].
      rewrite !lookup_insert_ne by done.
      destruct (tools !! "get_shipping_tracking") eqn:H3; [done|].
      rewrite !lookup_insert_ne by done.
      by destruct (tools !! "get_product_availability") eqn:H4.
    - intros (H1 & H2 & H3 & H4). unfold r.
      by rewrite RegisterBuiltinTools_fresh. }
  split; [done|]. split; [|split; [|split; [|split]]].
  - intros Hok. apply Hiff in Hok as (H1 & H2 & H3 & H4).
    unfold r. rewrite RegisterBuiltinTools_fresh by done. simpl.
    split; [|split; [|split]].
    + unfold Count.
      rewrite !map_size_insert_None; [done|..];
        by rewrite ?lookup_insert_ne by done.
    + rewrite !lookup_insert_ne by done. by rewrite lookup_insert_eq.
    + intros n Hn. unfold builtinNames in Hn.
      rewrite !lookup_insert_ne; [done|..]; intros <-; apply Hn;
        repeat constructor.
    + unfold RegisterBuiltinTools, builtinTools, registerAll, Register.
      simpl. rewrite !lookup_insert_ne by done.
      by rewrite lookup_insert_eq.
  - intros H1 [t H2].
    unfold r, RegisterBuiltinTools, builtinTools, registerAll, Register.
    simpl. rewrite H1. by rewrite lookup_insert_ne, H2 by done.
  - intros [t H1].
    unfold r, RegisterBuiltinTools, builtinTools, registerAll, Register.
    simpl. by rewrite H1.
  - intros H1 H2 [t H3].
    unfold r, RegisterBuiltinTools, builtinTools, registerAll, Register.
    simpl. rewrite H1. rewrite lookup_insert_ne, H2 by done.
    by rewrite !lookup_insert_ne, H3 by done.
  - intros H1 H2 H3 [t H4].
    unfold r, RegisterBuiltinTools, builtinTools, registerAll, Register.
    simpl. rewrite H1. rewrite lookup_insert_ne, H2 by done.
    rewrite !lookup_insert_ne, H3 by done.
    by rewrite !lookup_insert_ne, H4 by done.
Qed.

(** X14: in the registry of built-in tools a [get_order_detail] call whose
    arguments decode fails exactly when [order_id] is missing or not a
    string (error [invalid order_id]); with a string id it succeeds, with
    the order when the id is known and with an object holding the single
    field [error] when it is not. The entry the agent loop records for an
    unknown order is therefore the one it records for a failed call with
    that error text. *)
Theorem order_detail_call_outcomes Unmarshal Marshal tomorrow tc params :
  let tools := (RegisterBuiltinTools tomorrow ∅).2 in
  Tools.FunctionName tc = "get_order_detail" →
  Unmarshal (Tools.FunctionArguments tc) = inr params →
  (asString (field "order_id" params) = None →
     Tools.Execute Unmarshal tools tc = inl "invalid order_id")
  ∧ (∀ id, asString (field "order_id" params) = Some id →
       Tools.Execute Unmarshal tools tc
       = inr (default (JObj [("error", JStr "订单不存在")])
                (field id orders))
       ∧ (field id orders = None →
            Assistant.toolEntry Unmarshal Marshal tools tc
            = Assistant.mkMessage "tool"
                (Marshal (JObj [("error", JStr "订单不存在")])) []
                (Tools.ID tc))).
Proof.
  intros tools Hn Hu.
  assert (Hget : tools !! "get_order_detail" = Some orderDetailTool).
  { unfold tools. rewrite RegisterBuiltinTools_fresh by apply lookup_empty.
    simpl. rewrite !lookup_insert_ne by done. by rewrite lookup_insert_eq. }
  assert (Hex : Tools.Execute Unmarshal tools tc
                = match asString (field "order_id" params) with
                  | None => inl "invalid order_id"
                  | Some id =>
                      inr (default (JObj [("error", JStr "订单不存在")])
                             (field id orders))
                  end).
  { unfold Tools.Execute, Tools.Get, Tools.ParseArguments,
      Tools.Execute_tool. rewrite Hn, Hget, Hu. simpl.
    destruct (asString (field "order_id" params)) as [id|]; [|done].
    by repeat case_decide. }
  split.
  - intros Hs. by rewrite Hex, Hs.
  - intros id Hs. rewrite Hex, Hs. split; [done|]. intros Hnone.
    unfold Assistant.toolEntry. by rewrite Hex, Hs, Hnone.
Qed.

End ToolRegistryFacts.

Lemma Register_accepts_new_named_tools_only_witness :
  ToolRegistry.Register ∅ (Tools.mkTool "" "无名" None)
  = (Some "tool name cannot be empty", ∅)
  ∧ ToolRegistry.Register orderTools ToolRegistry.orderDetailTool
    = (Some "tool already registered: get_order_detail", orderTools)
  ∧ ToolRegistry.Count
      (ToolRegistry.Register ∅ ToolRegistry.orderDetailTool).2 = 1%nat.
Proof.
  destruct (Register_accepts_new_named_tools_only ∅
              (Tools.mkTool "" "无名" None)) as (H1 & _).
  destruct (Register_accepts_new_named_tools_only orderTools
              ToolRegistry.orderDetailTool) as (_ & H2 & _).
  destruct (Register_accepts_new_named_tools_only ∅
              ToolRegistry.orderDetailTool) as (_ & _ & H3).
  split; [exact (H1 eq_refl)|]. split.
  - apply H2; [discriminate|]. by eexists.
  - destruct H3 as (_ & _ & H & _); [discriminate|reflexivity|exact H].
Defined.

Lemma function_defs_name_each_tool_once_witness :
  NoDup (Tools.GetFunctionDefs
           (ToolRegistry.Register ∅ ToolRegistry.orderDetailTool).2).*1.
Proof.
  destruct (function_defs_name_each_tool_once ∅ ToolRegistry.orderDetailTool)
    as (H0 & H1 & _).
  destruct (function_defs_name_each_tool_once
              (ToolRegistry.Register ∅ ToolRegistry.orderDetailTool).2
              ToolRegistry.orderDetailTool) as (_ & _ & H2).
  exact (proj1 (H2 (H1 H0))).
Defined.

Lemma builtin_registration_stops_at_first_taken_name_witness :
  ToolRegistry.Count (ToolRegistry.RegisterBuiltinTools "2024-01-03" ∅).2
  = 4%nat
  ∧ ToolRegistry.RegisterBuiltinTools "2024-01-03" orderTools
    = (Some "tool already registered: get_order_detail",
       <["get_product_detail" := ToolRegistry.productDetailTool]> orderTools)
  ∧ ToolRegistry.RegisterBuiltinTools "2024-01-03" trackingTools
    = (Some "tool already registered: get_shipping_tracking",
       <["get_order_detail" := ToolRegistry.orderDetailTool]>
         (<["get_product_detail" := ToolRegistry.productDetailTool]>
            trackingTools)).
Proof.
  destruct (builtin_registration_stops_at_first_taken_name "2024-01-03" ∅)
    as (Hiff & Hok & _).
  destruct (builtin_registration_stops_at_first_taken_name "2024-01-03"
              orderTools) as (_ & _ & Hpart & _).
  destruct (builtin_registration_stops_at_first_taken_name "2024-01-03"
              trackingTools) as (_ & _ & _ & _ & Hthird & _).
  split; [|split].
  - assert (H : (ToolRegistry.RegisterBuiltinTools "2024-01-03" ∅).1 = None).
    { apply Hiff. repeat split; apply lookup_empty. }
    exact (proj1 (Hok H)).
  - apply Hpart; [reflexivity|]. by eexists.
  - apply Hthird; [reflexivity|reflexivity|]. by eexists.
Defined.

Lemma order_detail_call_outcomes_witness :
  Tools.Execute (fun _ => inr [])
    (ToolRegistry.RegisterBuiltinTools "2024-01-03" ∅).2 orderCall
  = inl "invalid order_id"
  ∧ Tools.Execute acceptArgs
      (ToolRegistry.RegisterBuiltinTools "2024-01-03" ∅).2 orderCall
    = inr (default (JObj [("error", JStr "订单不存在")])
             (ToolRegistry.field "20240101001" ToolRegistry.orders))
  ∧ Assistant.toolEntry (fun _ => inr [("order_id", JStr "999")]) showJSON
      (ToolRegistry.RegisterBuiltinTools "2024-01-03" ∅).2 orderCall
    = Assistant.mkMessage "tool" "error: 订单不存在" [] "call_1".
Proof.
  destruct (order_detail_call_outcomes (fun _ => inr []) showJSON
              "2024-01-03" orderCall [] eq_refl eq_refl) as (H1 & _).
  destruct (order_detail_call_outcomes acceptArgs showJSON "2024-01-03"
              orderCall [("order_id", JStr "20240101001")] eq_refl eq_refl)
    as (_ & H2).
  destruct (order_detail_call_outcomes
              (fun _ => inr [("order_id", JStr "999")]) showJSON
              "2024-01-03" orderCall [("order_id", JStr "999")]
              eq_refl eq_refl) as (_ & H3).
  split; [exact (H1 eq_refl)|].
  split; [exact (proj1 (H2 "20240101001" eq_refl))|].
  exact (proj2 (H3 "999" eq_refl) eq_refl).
Defined.

(** ** The agent loop: how a run ends and how its buffer grows *)

Section AgentRuns.

Context (Unmarshal : string -> string + Tools.Params).
Context (Marshal : json -> string).
Context (ChatWithTools :
  nat -> list Assistant.Message -> list (string * string)
  -> string + Assistant.Output).
Context (tools : gmap string Tools.Tool).

Local Abbreviation iterate :=
  (Assistant.iterate Unmarshal Marshal ChatWithTools tools).
Local Abbreviation toolEntry := (Assistant.toolEntry Unmarshal Marshal tools).
Local Abbreviation defs := (Tools.GetFunctionDefs tools).

Lemma iterate_outcome left : ∀ i msgs calls,
  left ≠ 0%nat →
  ∃ pre last,
    Assistant.llmCalls (iterate left i msgs calls) = calls ++ pre ++ [last]
    ∧ (length pre < left)%nat
    ∧ ((∃ resp a,
          ChatWithTools (i + length pre)%nat last defs = inr resp
          ∧ Assistant.requestedTools resp = Some a
          ∧ length pre = (left - 1)%nat
          ∧ Assistant.finalResponse (iterate left i msgs calls) = ""
          ∧ Assistant.messages (iterate left i msgs calls)
            = last ++ a :: (toolEntry <$> Assistant.ToolCalls a))
       ∨ (∃ e,
            ChatWithTools (i + length pre)%nat last defs = inl e
            ∧ Assistant.finalResponse (iterate left i msgs calls)
              = Assistant.llmFailed
            ∧ Assistant.messages (iterate left i msgs calls) = last)
       ∨ (∃ resp,
            ChatWithTools (i + length pre)%nat last defs = inr resp
            ∧ Assistant.requestedTools resp = None
            ∧ Assistant.finalResponse (iterate left i msgs calls)
              = Assistant.answerOf resp
            ∧ Assistant.messages (iterate left i msgs calls) = last)).
Proof.
  induction left as [|left IH]; intros i msgs calls Hleft; [done|].
  simpl.
  destruct (ChatWithTools i msgs defs) as [e|resp] eqn:Hc.
  { exists [], msgs. simpl. rewrite Nat.add_0_r.
    split; [done|]. split; [lia|]. right. left. by exists e. }
  destruct (Assistant.requestedTools resp) as [a|] eqn:Hr.
  2:{ exists [], msgs. simpl. rewrite Nat.add_0_r.
      split; [done|]. split; [lia|]. right. right. by exists resp. }
  destruct left as [|left].
  { exists [], msgs. simpl. rewrite Nat.add_0_r.
    split; [done|]. split; [lia|]. left. by exists resp, a. }
  destruct (IH (S i) (msgs ++ a :: (toolEntry <$> Assistant.ToolCalls a))
               (calls ++ [msgs])) as (pre & last & Hl & Hlen & Hcase);
    [done|].
  exists (msgs :: pre), last.
  split; [rewrite Hl; by rewrite <- app_assoc|].
  split; [simpl; lia|].
  replace (i + length (msgs :: pre))%nat with (S i + length pre)%nat
    by (simpl; lia).
  destruct Hcase as [(r & b & H1 & H2 & H3 & H4)|[H|H]];
    [left|right; by left|right; by right].
  exists r, b. split; [done|]. split; [done|].
  split; [simpl; lia|done].
Qed.

(** X15: however the reasoning collaborator behaves, a run makes between 1
    and 5 calls and ends in one of three ways, decided by the answer to the
    last call: that call asked for tools and was the fifth (the text handed
    on is empty), or it failed (the text is the error apology and the
    buffer is the one it was called with), or it asked for no tool (the
    text is its answer and the buffer is the one it was called with). *)
Theorem run_ends_on_its_last_call systemPrompt question :
  let run := Assistant.processRequest Unmarshal Marshal ChatWithTools tools
               systemPrompt question in
  ∃ n buf,
    (n < 5)%nat
    ∧ length (Assistant.llmCalls run) = S n
    ∧ Assistant.llmCalls run !! n = Some buf
    ∧ ((∃ resp a,
          ChatWithTools n buf defs = inr resp
          ∧ Assistant.requestedTools resp = Some a
          ∧ n = 4%nat
          ∧ Assistant.finalResponse run = ""
          ∧ Assistant.messages run
            = buf ++ a :: (toolEntry <$> Assistant.ToolCalls a))
       ∨ (∃ e,
            ChatWithTools n buf defs = inl e
            ∧ Assistant.finalResponse run = Assistant.llmFailed
            ∧ Assistant.messages run = buf)
       ∨ (∃ resp,
            ChatWithTools n buf defs = inr resp
            ∧ Assistant.requestedTools resp = None
            ∧ Assistant.finalResponse run = Assistant.answerOf resp
            ∧ Assistant.messages run = buf)).
Proof.
  intros run.
  destruct (iterate_outcome Assistant.maxIterations 0
              [Assistant.mkMessage "system" systemPrompt [] "";
               Assistant.mkMessage "user" question [] ""] [])
    as (pre & last & Hl & Hlen & Hcase); [done|].
  fold (Assistant.processRequest Unmarshal Marshal ChatWithTools tools
          systemPrompt question) in Hl, Hcase. fold run in Hl, Hcase.
  simpl in Hl, Hcase. unfold Assistant.maxIterations in Hlen.
  exists (length pre), last. split; [done|].
  split; [rewrite Hl, length_app; simpl; lia|].
  split.
  { rewrite Hl. rewrite lookup_app_r by lia.
    by rewrite Nat.sub_diag. }
  destruct Hcase as [(r & b & H1 & H2 & H3 & H4)|[H|H]];
    [left|right; by left|right; by right].
  exists r, b. split; [done|]. split; [done|].
  split; [unfold Assistant.maxIterations in H3; lia|done].
Qed.

Lemma iterate_first_call left i msgs calls :
  left ≠ 0%nat →
  Assistant.llmCalls (iterate left i msgs calls) !! length calls = Some msgs.
Proof.
  intros Hleft. destruct left as [|left]; [done|]. simpl.
  destruct (ChatWithTools i msgs defs) as [e|resp]; simpl.
  { rewrite lookup_app_r by lia. by rewrite Nat.sub_diag. }
  destruct (Assistant.requestedTools resp) as [a|]; simpl.
  - destruct (iterate_calls_prefix Unmarshal Marshal ChatWithTools tools left
                (S i) (msgs ++ a :: (toolEntry <$> Assistant.ToolCalls a))
                (calls ++ [msgs])) as [rest ->].
    rewrite <- app_assoc. rewrite lookup_app_r by lia.
    by rewrite Nat.sub_diag.
  - rewrite lookup_app_r by lia. by rewrite Nat.sub_diag.
Qed.

Lemma iterate_rounds left : ∀ i msgs calls j b1 b2,
  Assistant.llmCalls (iterate left i msgs calls) !! (length calls + j)%nat
  = Some b1 →
  Assistant.llmCalls (iterate left i msgs calls) !! (length calls + S j)%nat
  = Some b2 →
  ∃ resp a,
    ChatWithTools (i + j)%nat b1 defs = inr resp
    ∧ Assistant.requestedTools resp = Some a
    ∧ b2 = b1 ++ a :: (toolEntry <$> Assistant.ToolCalls a).
Proof.
  induction left as [|left IH]; intros i msgs calls j b1 b2 H1 H2.
  { simpl in H2. apply lookup_lt_Some in H2. lia. }
  assert (Hshort : ∀ (l : list (list Assistant.Message)),
            l = calls ++ [msgs] → l !! (length calls + S j)%nat = None).
  { intros l ->. apply lookup_ge_None. rewrite length_app. simpl. lia. }
  simpl in H1, H2.
  destruct (ChatWithTools i msgs defs) as [e|resp] eqn:Hc; simpl in *.
  { rewrite (Hshort _ eq_refl) in H2. done. }
  destruct (Assistant.requestedTools resp) as [a|] eqn:Hr; simpl in *.
  2:{ rewrite (Hshort _ eq_refl) in H2. done. }
  set (buf := msgs ++ a :: (toolEntry <$> Assistant.ToolCalls a)) in *.
  assert (Hlen : length (calls ++ [msgs]) = S (length calls)).
  { rewrite length_app. simpl. lia. }
  destruct j as [|j].
  - destruct (iterate_calls_prefix Unmarshal Marshal ChatWithTools tools left
                (S i) buf (calls ++ [msgs])) as [rest Hrest].
    rewrite Hrest in H1. rewrite <- app_assoc in H1.
    rewrite Nat.add_0_r, lookup_app_r, Nat.sub_diag in H1 by lia.
    simpl in H1. simplify_eq. rewrite Nat.add_0_r.
    exists resp, a. split; [done|]. split; [done|].
    destruct left as [|left].
    { simpl in H2. rewrite (Hshort _ eq_refl) in H2. done. }
    pose proof (iterate_first_call (S left) (S i) buf (calls ++ [b1])) as Hf.
    rewrite Hlen in Hf. replace (length calls + 1)%nat with (S (length calls))
      in H2 by lia.
    rewrite Hf in H2 by done. by simplify_eq.
  - replace (i + S j)%nat with (S i + j)%nat by lia.
    apply (IH (S i) buf (calls ++ [msgs]) j b1 b2).
    + rewrite Hlen. by replace (S (length calls) + j)%nat
        with (length calls + S j)%nat by lia.
    + rewrite Hlen. by replace (S (length calls) + S j)%nat
        with (length calls + S (S j))%nat by lia.
Qed.

(** X16: the first call of a run is made on the system prompt followed by
    the question; every later call is made on the buffer of the call before
    it, extended by the assistant message that call answered with and one
    tool entry per requested tool call, in order, each with role [tool] and
    the id of its call. Nothing is ever removed from the buffer. *)
Theorem buffer_grows_by_whole_tool_rounds systemPrompt question k b1 b2 :
  let run := Assistant.processRequest Unmarshal Marshal ChatWithTools tools
               systemPrompt question in
  Assistant.llmCalls run !! 0%nat
  = Some [Assistant.mkMessage "system" systemPrompt [] "";
          Assistant.mkMessage "user" question [] ""]
  ∧ (Assistant.llmCalls run !! k = Some b1 →
     Assistant.llmCalls run !! S k = Some b2 →
     ∃ resp a entries,
       ChatWithTools k b1 defs = inr resp
       ∧ Assistant.requestedTools resp = Some a
       ∧ b2 = b1 ++ a :: entries
       ∧ Assistant.ToolCallID <$> entries
         = Tools.ID <$> Assistant.ToolCalls a
       ∧ Forall (λ m, Assistant.Role m = "tool") entries).
Proof.
  intros run. split.
  { apply (iterate_first_call Assistant.maxIterations 0 _ []). done. }
  intros H1 H2.
  destruct (iterate_rounds Assistant.maxIterations 0
              [Assistant.mkMessage "system" systemPrompt [] "";
               Assistant.mkMessage "user" question [] ""] [] k b1 b2 H1 H2)
    as (resp & a & Hc & Hr & ->).
  exists resp, a, (toolEntry <$> Assistant.ToolCalls a).
  split; [done|]. split; [done|]. split; [done|]. split.
  - rewrite <- list_fmap_compose. by apply list_fmap_ext.
  - apply Forall_fmap, Forall_forall. by intros tc _.
Qed.

End AgentRuns.

Lemma buffer_grows_by_whole_tool_rounds_witness :
  ∃ resp a entries,
    alwaysTool 0
      [Assistant.mkMessage "system" "你是客服助手" [] "";
       Assistant.mkMessage "user" "我的订单到哪了" [] ""]
      (Tools.GetFunctionDefs ∅) = inr resp
    ∧ Assistant.requestedTools resp = Some a
    ∧ [Assistant.mkMessage "system" "你是客服助手" [] "";
       Assistant.mkMessage "user" "我的订单到哪了" [] "";
       toolRequest;
       Assistant.mkMessage "tool" "error: tool not found: get_order_detail"
         [] "call_1"]
      = [Assistant.mkMessage "system" "你是客服助手" [] "";
         Assistant.mkMessage "user" "我的订单到哪了" [] ""]
        ++ a :: entries
    ∧ Assistant.ToolCallID <$> entries = Tools.ID <$> Assistant.ToolCalls a
    ∧ Forall (λ m, Assistant.Role m = "tool") entries.
Proof.
  exact (proj2 (buffer_grows_by_whole_tool_rounds rejectArgs showJSON
                  alwaysTool ∅ "你是客服助手" "我的订单到哪了" 0 _ _)
           eq_refl eq_refl).
Defined.

(** ** The pending-response table over time *)

Section Timeouts.

Import WS.

Lemma fire_all_timers l : ∀ st t,
  t ∈ timers (foldl (fun acc t => fire t acc) st l)
  ↔ t ∈ timers st ∧ timerId t ∉ timerId <$> l.
Proof.
  induction l as [|t0 l IH]; intros st t; simpl.
  { split; [|tauto]. intros H. split; [done|]. apply not_elem_of_nil. }
  rewrite IH. simpl. rewrite list_elem_of_filter, not_elem_of_cons. tauto.
Qed.

Lemma fire_all_settled l : ∀ st,
  settled (foldl (fun acc t => fire t acc) st l)
  = settled st
    ++ ((fun t => (timerPromise t, RejectError timeoutText)) <$> l).
Proof.
  induction l as [|t0 l IH]; intros st; simpl; [by rewrite app_nil_r|].
  rewrite IH. simpl. by rewrite <- app_assoc.
Qed.

Lemma fire_all_pending l : ∀ st k,
  pendingResponses (foldl (fun acc t => fire t acc) st l) !! k
  = if decide (k ∈ timerMessageId <$> l) then None
    else pendingResponses st !! k.
Proof.
  induction l as [|t0 l IH]; intros st k.
  { cbn [foldl]. rewrite decide_False; [done|]. rewrite fmap_nil.
    apply not_elem_of_nil. }
  cbn [foldl]. rewrite IH. simpl.
  destruct (decide (k ∈ timerMessageId <$> l)) as [Hin|Hnin].
  { rewrite decide_True; [done|by right]. }
  destruct (decide (k = timerMessageId t0)) as [->|Hne].
  - rewrite lookup_delete_eq. rewrite decide_True; [done|by left].
  - rewrite lookup_delete_ne by done.
    rewrite decide_False; [done|]. by apply not_elem_of_cons.
Qed.

Lemma fire_all_clock l : ∀ st,
  clock (foldl (fun acc t => fire t acc) st l) = clock st.
Proof. induction l as [|t0 l IH]; intros st; simpl; [done|]. by rewrite IH. Qed.

Lemma resolutions_pos p o st :
  (p, o) ∈ settled st → (1 ≤ resolutions p st)%nat.
Proof.
  intros Hin. unfold resolutions.
  assert (Hf : (p, o) ∈ filter (λ x, x.1 = p) (settled st))
    by (by apply list_elem_of_filter).
  destruct (filter _ (settled st)); [by apply not_elem_of_nil in Hf|].
  simpl. lia.
Qed.

Lemma advance_due d st t :
  Inv st → t ∈ timers st → deadline t <= clock st + Z.of_N d →
  resolutions (timerPromise t) (advance d st) = 1%nat
  ∧ (timerPromise t, RejectError timeoutText) ∈ settled (advance d st)
  ∧ pendingResponses (advance d st) !! timerMessageId t = None.
Proof.
  intros HI Ht Hdue.
  assert (Hin : t ∈ filter (λ t, deadline t <= clock st + Z.of_N d)
                       (timers st)) by (by apply list_elem_of_filter).
  assert (Hset : (timerPromise t, RejectError timeoutText)
                 ∈ settled (advance d st)).
  { unfold advance. rewrite fire_all_settled. apply elem_of_app. right.
    apply list_elem_of_fmap. by exists t. }
  split; [|split; [done|]].
  - pose proof (resolutions_pos _ _ _ Hset) as Hge.
    destruct (Inv_advance d st HI) as [_ _ Hle _ _ _ _].
    specialize (Hle (timerPromise t)). lia.
  - unfold advance. rewrite fire_all_pending. rewrite decide_True; [done|].
    apply list_elem_of_fmap. by exists t.
Qed.

(** X17: when time passes, every request whose 30 seconds are over is
    settled: its promise has been rejected with the timeout error and has
    exactly one resolution, and its table entry is gone. The timers left
    are exactly those not yet due, and no entry is added. *)
Theorem elapsed_time_settles_every_due_request d st :
  Inv st →
  let st' := advance d st in
  clock st' = clock st + Z.of_N d
  ∧ (∀ t, t ∈ timers st' ↔ t ∈ timers st ∧ clock st' < deadline t)
  ∧ (∀ t, t ∈ timers st → deadline t <= clock st' →
       resolutions (timerPromise t) st' = 1%nat
       ∧ (timerPromise t, RejectError timeoutText) ∈ settled st'
       ∧ pendingResponses st' !! timerMessageId t = None)
  ∧ (∀ k e, pendingResponses st' !! k = Some e →
       pendingResponses st !! k = Some e).
Proof.
  intros HI st'.
  assert (Hclock : clock st' = clock st + Z.of_N d).
  { unfold st', advance. by rewrite fire_all_clock. }
  split; [done|]. rewrite Hclock. split; [|split].
  - intros t. unfold st', advance. rewrite fire_all_timers. simpl.
    split.
    + intros [Ht Hnot]. split; [done|].
      destruct (decide (deadline t <= clock st + Z.of_N d)) as [Hd|]; [|lia].
      destruct Hnot. apply list_elem_of_fmap. exists t. split; [done|].
      by apply list_elem_of_filter.
    + intros [Ht Hlate]. split; [done|]. intros Hin.
      apply list_elem_of_fmap in Hin as (t2 & Hid & Hin).
      apply list_elem_of_filter in Hin as [Hd2 Ht2].
      destruct HI as [_ _ _ _ Hids _ _].
      assert (t = t2) by (by apply Hids). subst t2. lia.
  - intros t Ht Hdue. by apply advance_due.
  - intros k e. unfold st', advance. rewrite fire_all_pending.
    by destruct (decide _).
Qed.

Lemma sendWithResponse_fields message messageId st :
  let st' := (sendWithResponse message messageId st).2 in
  pendingResponses st'
  = <[messageId := mkPending (nextId st) (nextId st)]> (pendingResponses st)
  ∧ timers st'
    = timers st
      ++ [mkTimer (nextId st) (clock st + timeoutMs) messageId (nextId st)]
  ∧ settled st' = settled st
  ∧ nextId st' = S (nextId st)
  ∧ clock st' = clock st.
Proof. unfold sendWithResponse, send. simpl. by destruct (wsOpen st). Qed.

Lemma handleResponse_clock response st :
  clock (handleResponse response st) = clock st.
Proof.
  unfold handleResponse. destruct (getPending _ st) as [[k e]|]; [|done].
  by destruct (truthy _).
Qed.

Lemma handleMessage_clock data st : clock (handleMessage data st) = clock st.
Proof.
  unfold handleMessage. destruct (_ && _); [apply handleResponse_clock|].
  by destruct (hasCallback st).
Qed.

Lemma handleResponse_spares t response st :
  Inv st → prop response "messageID" ≠ JSStr (timerMessageId t) →
  (t ∈ timers st → t ∈ timers (handleResponse response st))
  ∧ (pendingResponses st !! timerMessageId t = None →
     pendingResponses (handleResponse response st) !! timerMessageId t
     = None).
Proof.
  intros HI Hne.
  destruct (getPending (prop response "messageID") st) as [[k e]|] eqn:H.
  - destruct (handleResponse_matched _ _ _ _ HI H)
      as (t' & o & Ht' & _ & _ & Hk & _ & ->).
    apply getPending_Some in H as [Hid _]. split.
    + intros Ht. simpl. apply list_elem_of_filter. split; [|done].
      intros Heq. destruct HI as [_ _ _ _ Hids _ _].
      assert (t = t') by (by apply Hids). subst t'. congruence.
    + intros Hn. simpl.
      destruct (decide (timerMessageId t' = timerMessageId t)) as [->|Hd].
      * apply lookup_delete_eq.
      * by rewrite lookup_delete_ne.
  - unfold handleResponse. rewrite H. by split.
Qed.

Lemma left_to_timer_step t st e :
  Inv st → leaves_alone (timerMessageId t) e →
  left_to_timer t st → left_to_timer t (step st e).
Proof.
  intros HI He [[Ht Hc]|(Hc & Hs & Hp)].
  - destruct e as [m k|data|response|d|o]; cbn [step leaves_alone] in *.
    + left. destruct (sendWithResponse_fields m k st) as (_ & -> & _ & _ & ->).
      split; [|done]. apply elem_of_app. by left.
    + left. rewrite handleMessage_clock. split; [|done].
      unfold handleMessage. destruct (_ && _).
      * by apply handleResponse_spares.
      * by destruct (hasCallback st).
    + left. rewrite handleResponse_clock. split; [|done].
      by apply handleResponse_spares.
    + destruct (decide (deadline t <= clock st + Z.of_N d)) as [Hd|Hd].
      * right. destruct (advance_due d st t HI Ht Hd) as (_ & H2 & H3).
        split; [|done]. unfold advance. by rewrite fire_all_clock.
      * left. unfold advance. rewrite fire_all_clock. simpl.
        split; [|lia]. apply fire_all_timers. simpl. split; [done|].
        intros Hin. apply list_elem_of_fmap in Hin as (t2 & Hid & Hin).
        apply list_elem_of_filter in Hin as [Hd2 Ht2].
        destruct HI as [_ _ _ _ Hids _ _].
        assert (t = t2) by (by apply Hids). subst t2. lia.
    + by left.
  - right.
    destruct (settled_grows_step st e) as [l Hl]. rewrite Hl.
    split; [|split; [apply elem_of_app; by left|]].
    + destruct e as [m k|data|response|d|o]; cbn [step].
      * by destruct (sendWithResponse_fields m k st) as (_ & _ & _ & _ & ->).
      * by rewrite handleMessage_clock.
      * by rewrite handleResponse_clock.
      * unfold advance. rewrite fire_all_clock. simpl. lia.
      * done.
    + destruct e as [m k|data|response|d|o]; cbn [step leaves_alone] in *.
      * destruct (sendWithResponse_fields m k st) as (-> & _).
        by rewrite lookup_insert_ne.
      * unfold handleMessage. destruct (_ && _).
        -- by apply handleResponse_spares.
        -- by destruct (hasCallback st).
      * by apply handleResponse_spares.
      * unfold advance. rewrite fire_all_pending. simpl.
        by destruct (decide _).
      * done.
Qed.

Lemma left_to_timer_run t es : ∀ st,
  Inv st → Forall (leaves_alone (timerMessageId t)) es →
  left_to_timer t st → left_to_timer t (run es st).
Proof.
  induction es as [|e es IH]; intros st HI Hes Hl; simpl; [done|].
  apply Forall_cons in Hes as [He Hes].
  apply IH; [by apply Inv_step|done|by apply left_to_timer_step].
Qed.

(** X18: a request made while the socket is not open is not sent, yet its
    table entry and timer are created all the same. Over whatever happens
    next that neither reuses its message id nor hands it a response under
    that id (the key read being [messageID]) -- other requests, other
    frames and responses, the socket opening, time passing -- its promise
    is unsettled and its timer live until 30 seconds have passed since the
    send, and from then on the promise has been rejected with the timeout
    error, exactly once, and the table has no entry under its id. *)
Theorem request_on_closed_socket_ends_in_timeout
    open callback es message messageId :
  let st := run es (fresh open callback) in
  wsOpen st = false →
  let r := sendWithResponse message messageId st in
  sent r.2 = sent st
  ∧ settled r.2 = settled st
  ∧ pendingResponses r.2 !! messageId = Some (mkPending r.1 r.1)
  ∧ mkTimer r.1 (clock st + timeoutMs) messageId r.1 ∈ timers r.2
  ∧ (∀ later, Forall (leaves_alone messageId) later →
       let st' := run later r.2 in
       (clock st' < clock st + timeoutMs →
          resolutions r.1 st' = 0%nat
          ∧ mkTimer r.1 (clock st + timeoutMs) messageId r.1 ∈ timers st')
       ∧ (clock st + timeoutMs <= clock st' →
            resolutions r.1 st' = 1%nat
            ∧ (r.1, RejectError timeoutText) ∈ settled st'
            ∧ pendingResponses st' !! messageId = None))
  ∧ (∀ d, timeoutMs <= Z.of_N d →
       resolutions r.1 (advance d r.2) = 1%nat
       ∧ (r.1, RejectError timeoutText) ∈ settled (advance d r.2)
       ∧ pendingResponses (advance d r.2) !! messageId = None).
Proof.
  intros st Hclosed r.
  assert (HI : Inv r.2).
  { apply Inv_sendWithResponse, Inv_run, Inv_fresh. }
  set (t := mkTimer (nextId st) (clock st + timeoutMs) messageId (nextId st)).
  assert (Hr1 : r.1 = nextId st) by done.
  destruct (sendWithResponse_fields message messageId st)
    as (Hp & Ht & Hs & _ & Hc).
  fold r in Hp, Ht, Hs, Hc.
  assert (Hin : t ∈ timers r.2).
  { rewrite Ht. apply elem_of_app. right. by apply list_elem_of_singleton. }
  rewrite Hr1. fold t.
  split.
  { unfold r, sendWithResponse, send. simpl. by rewrite Hclosed. }
  split; [done|]. split; [by rewrite Hp, lookup_insert_eq|].
  split; [done|]. split.
  - intros later Hq st'.
    assert (Hl : left_to_timer t st').
    { apply left_to_timer_run; [done|done|]. left. split; [done|].
      rewrite Hc. unfold t, timeoutMs. simpl. lia. }
    pose proof (Inv_run later r.2 HI) as HI'. fold st' in HI'.
    split.
    + intros Hearly. destruct Hl as [[Ht' _]|(Hd & _)]; [|simpl in Hd; lia].
      split; [|done]. destruct HI' as [_ Hlive _ _ _ _ _].
      apply (Hlive t Ht').
    + intros Hlate. destruct Hl as [[_ Hd]|(_ & Hset & Hnone)];
        [simpl in Hd; lia|].
      split; [|done].
      pose proof (resolutions_pos _ _ _ Hset) as Hge.
      destruct HI' as [_ _ Hle _ _ _ _]. specialize (Hle (nextId st)).
      simpl in Hge. lia.
  - intros d Hd. apply (advance_due d _ t HI Hin). rewrite Hc. simpl. lia.
Qed.

(** X19: a second request under a message id that is still pending takes
    over the table entry. A response for that id settles the second promise
    and removes the entry; the first promise is not settled by it and its
    timer stays live, so the first request can only end in its timeout. *)
Theorem reused_message_id_orphans_the_first_request
    st m1 m2 messageId response :
  prop response "messageID" = JSStr messageId →
  let p1 := nextId st in
  let st2 := (sendWithResponse m2 messageId
                (sendWithResponse m1 messageId st).2).2 in
  let st3 := handleResponse response st2 in
  pendingResponses st2 !! messageId = Some (mkPending (S p1) (S p1))
  ∧ (∃ o, settled st3 = settled st ++ [(S p1, o)])
  ∧ pendingResponses st3 !! messageId = None
  ∧ mkTimer p1 (clock st + timeoutMs) messageId p1 ∈ timers st3.
Proof.
  intros Hid p1 st2 st3.
  destruct (sendWithResponse_fields m1 messageId st)
    as (Hp1 & Ht1 & Hs1 & Hn1 & Hc1).
  destruct (sendWithResponse_fields m2 messageId
              (sendWithResponse m1 messageId st).2)
    as (Hp2 & Ht2 & Hs2 & _ & _).
  fold st2 in Hp2, Ht2, Hs2. rewrite Hn1 in Hp2, Ht2. fold p1 in Hp2, Ht2.
  rewrite Hs1 in Hs2. rewrite Ht1 in Ht2. fold p1 in Ht2.
  assert (Hl : pendingResponses st2 !! messageId
               = Some (mkPending (S p1) (S p1))).
  { rewrite Hp2. by rewrite lookup_insert_eq. }
  split; [done|].
  unfold st3, handleResponse. rewrite Hid. unfold getPending.
  rewrite Hl. simpl.
  split; [|split].
  - destruct (truthy _); eexists; simpl; by rewrite Hs2.
  - destruct (truthy _); simpl; by rewrite lookup_delete_eq.
  - destruct (truthy _); simpl; rewrite Ht2; apply list_elem_of_filter;
      (split; [simpl; unfold p1; lia|]);
      apply elem_of_app; left; apply elem_of_app; right;
      by apply list_elem_of_singleton.
Qed.

End Timeouts.

Lemma elapsed_time_settles_every_due_request_witness :
  WS.resolutions 0
    (WS.advance 30000 (WS.run [WS.EvSend chatFrame "x"] WS.connected))
  = 1%nat.
Proof.
  destruct (elapsed_time_settles_every_due_request 30000
              (WS.run [WS.EvSend chatFrame "x"] WS.connected))
    as (_ & _ & H & _).
  { apply Inv_run, Inv_fresh. }
  assert (Hin : WS.mkTimer 0 30000 "x" 0
                ∈ WS.timers (WS.run [WS.EvSend chatFrame "x"] WS.connected))
    by left.
  destruct (H _ Hin) as [H1 _]; [vm_compute; discriminate|exact H1].
Defined.

Lemma request_on_closed_socket_ends_in_timeout_witness :
  WS.sent (WS.sendWithResponse chatFrame "m1" (WS.fresh false true)).2 = []
  ∧ WS.resolutions 0
      (WS.run [WS.EvSocket true; WS.EvFrame (WS.wireFrame ackM1);
               WS.EvSend chatFrame "m2"; WS.EvElapse 30000]
         (WS.sendWithResponse chatFrame "m1" (WS.fresh false true)).2)
    = 1%nat.
Proof.
  destruct (request_on_closed_socket_ends_in_timeout false true [] chatFrame
              "m1" eq_refl) as (H1 & _ & _ & _ & H2 & _).
  split; [exact H1|].
  destruct (H2 [WS.EvSocket true; WS.EvFrame (WS.wireFrame ackM1);
                WS.EvSend chatFrame "m2"; WS.EvElapse 30000])
    as [_ H].
  { repeat constructor; by vm_compute. }
  apply H. vm_compute. discriminate.
Defined.

Lemma reused_message_id_orphans_the_first_request_witness :
  WS.pendingResponses
    (WS.sendWithResponse chatFrame "x"
       (WS.sendWithResponse chatFrame "x" WS.connected).2).2 !! "x"
  = Some (WS.mkPending 1 1)
  ∧ WS.mkTimer 0 30000 "x" 0
    ∈ WS.timers
        (WS.handleResponse replyX
           (WS.sendWithResponse chatFrame "x"
              (WS.sendWithResponse chatFrame "x" WS.connected).2).2).
Proof.
  destruct (reused_message_id_orphans_the_first_request WS.connected
              chatFrame chatFrame "x" replyX eq_refl) as (H1 & _ & _ & H2).
  split; [exact H1|exact H2].
Defined.

(** ** The classifier: category matching and routing *)

Section ClassifierFacts.

Import Classifier.

Lemma substring_prefix (a b : string) :
  String.substring 0 (String.length a) (a +:+ b) = a.
Proof. induction a as [|c a IH]; simpl; [by destruct b|by rewrite IH]. Qed.

Lemma substring_skip (a : string) (m : nat) (s : string) :
  String.substring (String.length a) m (a +:+ s) = String.substring 0 m s.
Proof. induction a as [|c a IH]; simpl; [done|by rewrite IH]. Qed.

Lemma substring_whole (s : string) :
  String.substring 0 (String.length s) s = s.
Proof. induction s as [|c s IH]; simpl; [done|by rewrite IH]. Qed.

Lemma substring_split (n : nat) (s : string) :
  (n ≤ String.length s)%nat →
  s = String.substring 0 n s
      +:+ String.substring n (String.length s - n) s.
Proof.
  revert s. induction n as [|n IH]; intros s Hn.
  - rewrite Nat.sub_0_r, substring_whole. by destruct s.
  - destruct s as [|c s]; simpl in *; [lia|].
    change (String c s = String c (String.substring 0 n s
              +:+ String.substring n (String.length s - n) s)).
    f_equal. apply IH. lia.
Qed.

Lemma length_app_string (a b : string) :
  String.length (a +:+ b) = (String.length a + String.length b)%nat.
Proof. induction a as [|c a IH]; simpl; [done|by rewrite IH]. Qed.

Lemma app_string_nil_r (a : string) : a +:+ "" = a.
Proof.
  induction a as [|c a IH]; [done|].
  change (String c (a +:+ "") = String c a). by rewrite IH.
Qed.

(** X20: [contains] answers true exactly when the second string stands at
    the very start or at the very end of the first (which includes the two
    being equal); an occurrence strictly inside is not found. *)
Theorem contains_finds_prefix_or_suffix_only (str substr : string) :
  contains str substr = true
  ↔ (∃ rest, str = substr +:+ rest) ∨ (∃ before, str = before +:+ substr).
Proof.
  unfold contains. split.
  - intros H. apply andb_true_iff in H as [Hle H].
    apply Nat.leb_le in Hle.
    apply orb_true_iff in H as [H|H].
    { apply bool_decide_eq_true in H as ->. right. by exists "". }
    apply andb_true_iff in H as [Hlt H]. apply Nat.ltb_lt in Hlt.
    apply orb_true_iff in H as [H|H]; apply bool_decide_eq_true in H.
    + left. eexists.
      pose proof (substring_split (String.length substr) str) as Hs.
      rewrite H in Hs. apply Hs. lia.
    + right. eexists.
      pose proof (substring_split
                    (String.length str - String.length substr) str) as Hs.
      replace (String.length str
               - (String.length str - String.length substr))%nat
        with (String.length substr) in Hs by lia.
      rewrite H in Hs. apply Hs. lia.
  - intros [[t ->]|[t ->]]; rewrite length_app_string.
    + apply andb_true_iff. split; [apply Nat.leb_le; lia|].
      destruct t as [|c t].
      { rewrite app_string_nil_r. by rewrite bool_decide_eq_true_2. }
      apply orb_true_iff. right. apply andb_true_iff. split.
      { apply Nat.ltb_lt. simpl. lia. }
      apply orb_true_iff. left. apply bool_decide_eq_true.
      apply substring_prefix.
    + apply andb_true_iff. split; [apply Nat.leb_le; lia|].
      destruct t as [|c t].
      { simpl. by rewrite bool_decide_eq_true_2. }
      apply orb_true_iff. right. apply andb_true_iff. split.
      { apply Nat.ltb_lt. simpl. lia. }
      apply orb_true_iff. right. apply bool_decide_eq_true.
      replace (String.length (String c t) + String.length substr
               - String.length substr)%nat
        with (String.length (String c t)) by lia.
      rewrite substring_skip. apply substring_whole.
Qed.

End ClassifierFacts.

Section ClassifierRouting.

Import Classifier.

Variable Marshal : Z -> string -> string -> option string.
Variable Post : string -> string -> bool.

Local Abbreviation keys categories :=
  ((map_to_list categories).*1 : list string).

Lemma elem_of_keys (categories : gmap string CategoryInfo) k :
  k ∈ keys categories ↔ is_Some (categories !! k).
Proof.
  rewrite list_elem_of_fmap. split.
  - intros [[k' x] [-> H]]. apply elem_of_map_to_list in H. by exists x.
  - intros [x H]. exists (k, x). split; [done|].
    by apply elem_of_map_to_list.
Qed.

Lemma parseCategory_cases order response :
  (parseCategory order response = "general-chat"
   ∧ ∀ k, k ∈ order → contains response k = false)
  ∨ (parseCategory order response ∈ order
     ∧ contains response (parseCategory order response) = true
     ∧ ∃ i, order !! i = Some (parseCategory order response)
            ∧ ∀ j k, order !! j = Some k → (j < i)%nat →
                     contains response k = false).
Proof.
  unfold parseCategory.
  destruct (list_find _ order) as [[i c]|] eqn:Hf.
  - right. apply list_find_Some in Hf as (Hi & Hc & Hmin).
    split; [by eapply list_elem_of_lookup_2|]. split; [done|].
    exists i. split; [done|]. intros j k Hj Hlt.
    specialize (Hmin j k Hj Hlt). by destruct (contains response k).
  - left. split; [done|]. intros k Hk.
    apply list_find_None in Hf. rewrite Forall_forall in Hf.
    specialize (Hf k Hk). by destruct (contains response k).
Qed.

(** X21: whatever order the category map is walked in, [parseCategory]
    returns the default general-chat when no configured key is found in the
    answer, and otherwise a configured key that is found; when exactly one
    key is found the result is that key, and in general every key that is
    found is the result for some order of the walk. *)
Theorem parseCategory_returns_a_matching_key_or_the_default
    (categories : gmap string CategoryInfo) order response :
  order ≡ₚ keys categories →
  let category := parseCategory order response in
  ((∀ k, is_Some (categories !! k) → contains response k = false) →
   category = "general-chat")
  ∧ ((∃ k, is_Some (categories !! k) ∧ contains response k = true) →
     is_Some (categories !! category) ∧ contains response category = true)
  ∧ (∀ k, is_Some (categories !! k) → contains response k = true →
     (∀ k', is_Some (categories !! k') → contains response k' = true →
            k' = k) →
     category = k)
  ∧ (∀ k, is_Some (categories !! k) → contains response k = true →
     ∃ order', order' ≡ₚ keys categories
               ∧ parseCategory order' response = k).
Proof.
  intros Hperm category.
  assert (Hin : ∀ k, k ∈ order ↔ is_Some (categories !! k)).
  { intros k. rewrite Hperm. apply elem_of_keys. }
  assert (Hhit : (∃ k, is_Some (categories !! k) ∧ contains response k = true)
                 → is_Some (categories !! category)
                   ∧ contains response category = true).
  { intros (k & Hk & Hc).
    destruct (parseCategory_cases order response)
      as [[_ Hnone]|(Hm & Hcm & _)].
    - apply Hin in Hk. rewrite (Hnone k Hk) in Hc. discriminate.
    - split; [by apply Hin|done]. }
  split; [|split; [exact Hhit|split]].
  - intros Hnone.
    destruct (parseCategory_cases order response)
      as [[Heq _]|(Hm & Hcm & _)]; [done|].
    apply Hin in Hm. rewrite (Hnone _ Hm) in Hcm. discriminate.
  - intros k Hk Hc Huniq.
    destruct Hhit as [Hm Hcm]; [by exists k|]. by apply Huniq.
  - intros k Hk Hc. apply elem_of_keys in Hk.
    apply elem_of_Permutation in Hk as [rest Hrest].
    exists (k :: rest). split; [done|].
    unfold parseCategory. simpl. by rewrite decide_True.
Qed.

(** X22: the routing of a classified question logs a missing agent URL,
    and calls no agent, exactly when no configured key is found in the
    answer and general-chat is not configured; when the category is
    configured and the request body marshals, the agent posted to is the one
    at that category's AgentURL. *)
Theorem question_is_dropped_only_without_match_and_default
    (categories : gmap string CategoryInfo) order response userID question :
  order ≡ₚ keys categories →
  let category := parseCategory order response in
  let routed :=
    routeToAgent Marshal Post (agentURLs categories) userID question
                 category in
  (routed = NoAgentURL category
   ↔ categories !! "general-chat" = None
     ∧ ∀ k, is_Some (categories !! k) → contains response k = false)
  ∧ (∀ info jsonData,
       categories !! category = Some info →
       Marshal userID question category = Some jsonData →
       routed = if Post (AgentURL info) jsonData
                then AgentCalled (AgentURL info) jsonData
                else AgentCallFailed category).
Proof.
  intros Hperm category routed.
  assert (Hin : ∀ k, k ∈ order ↔ is_Some (categories !! k)).
  { intros k. rewrite Hperm. apply elem_of_keys. }
  assert (Hurl : agentURLs categories !! category
                 = AgentURL <$> categories !! category).
  { unfold agentURLs. apply lookup_fmap. }
  split.
  - subst routed. unfold routeToAgent. rewrite Hurl. split.
    + intros Hr.
      destruct (categories !! category) as [info|] eqn:Hc; simpl in Hr.
      { destruct (Marshal _ _ _); [destruct (Post _ _)|]; discriminate. }
      destruct (parseCategory_cases order response)
        as [[Heq Hnone]|(Hm & _)].
      * fold category in Heq. rewrite Heq in Hc. split; [done|].
        intros k Hk. apply Hnone. by apply Hin.
      * fold category in Hm. apply Hin in Hm. rewrite Hc in Hm.
        by destruct Hm.
    + intros [Hg Hnone].
      destruct (parseCategory_cases order response)
        as [[Heq _]|(Hm & Hcm & _)].
      * fold category in Heq. by rewrite Heq, Hg.
      * apply Hin in Hm. rewrite (Hnone _ Hm) in Hcm. discriminate.
  - intros info jsonData Hc Hm. subst routed. unfold routeToAgent.
    by rewrite Hurl, Hc, Hm.
Qed.

End ClassifierRouting.

Lemma parseCategory_returns_a_matching_key_or_the_default_witness :
  Classifier.parseCategory (map_to_list demoCategories).*1
    "order.status" = "order.status"
  ∧ Classifier.parseCategory (map_to_list demoCategories).*1
      "这个问题属于 order.status 分类" = "general-chat".
Proof.
  pose proof (parseCategory_returns_a_matching_key_or_the_default
                demoCategories (map_to_list demoCategories).*1) as H.
  split.
  - destruct (H "order.status" (reflexivity _)) as (_ & _ & Hu & _).
    apply Hu; [|by vm_compute|].
    { destruct (demoCategories !! "order.status") eqn:E; [eauto|].
      by vm_compute in E. }
    intros k' [x Hk'] Hc. revert Hk' Hc.
    unfold demoCategories, configuredCategories. intros Hk'.
    repeat (apply lookup_insert_Some in Hk' as [[<- _]|[_ Hk']];
            [by vm_compute|]).
    done.
  - destruct (H "这个问题属于 order.status 分类" (reflexivity _))
      as (Hd & _).
    apply Hd. intros k [x Hk]. revert Hk.
    unfold demoCategories, configuredCategories. intros Hk.
    repeat (apply lookup_insert_Some in Hk as [[<- _]|[_ Hk]];
            [by vm_compute|]).
    done.
Defined.

Lemma question_is_dropped_only_without_match_and_default_witness :
  Classifier.routeToAgent (fun _ _ _ => Some "{}") (fun _ _ => true)
    (Classifier.agentURLs demoCategories) 42 "我的订单到哪了"
    (Classifier.parseCategory (map_to_list demoCategories).*1 "order.status")
  = Classifier.AgentCalled "http://assistant/api/process" "{}".
Proof.
  destruct (question_is_dropped_only_without_match_and_default
              (fun _ _ _ => Some "{}") (fun _ _ => true) demoCategories
              (map_to_list demoCategories).*1 "order.status" 42
              "我的订单到哪了" (reflexivity _)) as [_ H].
  apply (H (Classifier.mkCategoryInfo "订单查询" "查询订单状态、物流信息等"
              ["订单"; "物流"; "配送"; "快递"] "http://assistant/api/process")
           "{}"); by vm_compute.
Defined.

(** ** The browser client: connection life cycle *)

Section ClientRuns.

Import WS Client.

Lemma run_snoc es e c :
  Client.run (es ++ [e]) c = Client.step (Client.run es c) e.
Proof. unfold Client.run. by rewrite foldl_app. Qed.

Lemma opens_snoc es e :
  opens (es ++ [e]) = (opens es + if isOpen e then 1 else 0)%nat.
Proof.
  unfold opens. rewrite filter_app, length_app. f_equal.
  rewrite filter_cons, filter_nil. by destruct (isOpen e).
Qed.

Lemma connects_snoc es e :
  connects (es ++ [e]) = (connects es + if isConnect e then 1 else 0)%nat.
Proof.
  unfold connects. rewrite filter_app, length_app. f_equal.
  rewrite filter_cons, filter_nil. by destruct (isConnect e).
Qed.

Lemma fire_all_wire l : ∀ st,
  wsOpen (foldl (fun acc t => fire t acc) st l) = wsOpen st
  ∧ sent (foldl (fun acc t => fire t acc) st l) = sent st.
Proof.
  induction l as [|t l IH]; intros st; [done|].
  simpl. destruct (IH (fire t st)) as [-> ->]. done.
Qed.

Lemma advance_wire d st :
  wsOpen (advance d st) = wsOpen st ∧ sent (advance d st) = sent st.
Proof.
  unfold advance.
  by destruct (fire_all_wire
                 (filter (fun t => deadline t <= clock st + Z.of_N d)
                         (timers st))
                 (mkManager (clock st + Z.of_N d) (wsOpen st)
                    (hasCallback st) (pendingResponses st) (timers st)
                    (nextId st) (settled st) (sent st) (delivered st)
                    (console st))) as [-> ->].
Qed.

Lemma handleMessage_wire data st :
  wsOpen (handleMessage data st) = wsOpen st
  ∧ sent (handleMessage data st) = sent st.
Proof.
  unfold handleMessage, handleResponse.
  destruct (_ && _); [|by destruct (hasCallback st)].
  destruct (getPending _ st) as [[k e]|]; [|done].
  by destruct (truthy _).
Qed.

Lemma scheduleReconnect_counts c :
  (reconnectAttempts c ≤ maxReconnectAttempts)%nat →
  (reconnectAttempts (scheduleReconnect c) ≤ maxReconnectAttempts)%nat
  ∧ (scheduled (scheduleReconnect c) + reconnectAttempts c
     = scheduled c + reconnectAttempts (scheduleReconnect c))%nat
  ∧ (reconnectTimers (scheduleReconnect c) + scheduled c
     = reconnectTimers c + scheduled (scheduleReconnect c))%nat
  ∧ created (scheduleReconnect c) = created c.
Proof.
  unfold scheduleReconnect, maxReconnectAttempts. intros H.
  destruct (_ <? 5)%nat eqn:E; simpl; [|lia].
  apply Nat.ltb_lt in E. lia.
Qed.

Lemma bounded_step es e c :
  bounded es c → bounded (es ++ [e]) (Client.step c e).
Proof.
  unfold bounded. rewrite opens_snoc, connects_snoc.
  intros (Ha & Hs & Hc). unfold maxReconnectAttempts in *.
  destruct e as [id ok|cur|cur code|ok| |content mid ts|i ts|data|d];
    simpl.
  - unfold connect. destruct (wsOpen (manager c)); [simpl; lia|].
    destruct (isNaN id); [simpl; lia|]. destruct ok; [simpl; lia|].
    destruct (scheduleReconnect_counts
                (report ConnectFailed (set_userId id c)))
      as (H1 & H2 & H3 & H4); [simpl; unfold maxReconnectAttempts; lia|].
    simpl in *. unfold maxReconnectAttempts in *. lia.
  - unfold onopen, readyState. destruct (cur && hasSocket c); simpl; lia.
  - unfold onclose. destruct (bool_decide (code ≠ 1000)).
    + match goal with |- context [scheduleReconnect ?x] =>
        destruct (scheduleReconnect_counts x) as (H1 & H2 & H3 & H4) end.
      { unfold readyState, stopHeartbeat.
        destruct (cur && hasSocket c); simpl;
          destruct (heartbeatInterval c); simpl;
          unfold maxReconnectAttempts; lia. }
      revert H1 H2 H3 H4. unfold readyState, stopHeartbeat.
      destruct (cur && hasSocket c); simpl;
        destruct (heartbeatInterval c); simpl;
        unfold maxReconnectAttempts; lia.
    + unfold readyState, stopHeartbeat.
      destruct (cur && hasSocket c); simpl;
        destruct (heartbeatInterval c); simpl; lia.
  - unfold reconnectTimer. destruct (reconnectTimers c) as [|n] eqn:En;
      [lia|].
    simpl. destruct (truthyId (userId c)); [|simpl; lia].
    unfold connect. simpl. destruct (wsOpen (manager c)); [simpl; lia|].
    destruct (isNaN (userId c)); [simpl; lia|]. destruct ok; [simpl; lia|].
    match goal with |- context [scheduleReconnect ?x] =>
      destruct (scheduleReconnect_counts x) as (H1 & H2 & H3 & H4) end.
    { simpl. unfold maxReconnectAttempts. lia. }
    simpl in *. unfold maxReconnectAttempts in *. lia.
  - unfold disconnect, stopHeartbeat.
    destruct (heartbeatInterval c); simpl; destruct (hasSocket c); simpl; lia.
  - unfold sendChatMessage. destruct (_ && _); simpl; lia.
  - unfold sendHeartbeat. destruct (bool_decide _); [|lia].
    destruct (isConnected c); simpl; lia.
  - lia.
  - lia.
Qed.

Lemma bounded_run es cb : bounded es (Client.run es (newClient cb)).
Proof.
  induction es as [|e es IH] using rev_ind.
  - unfold bounded, maxReconnectAttempts. simpl. unfold opens, connects.
    simpl. lia.
  - rewrite run_snoc. by apply bounded_step.
Qed.

(** X23: in every run of a new client the attempt counter never exceeds
    5, at most 5 reconnects are scheduled per time a socket has opened (and
    5 before the first), and every socket is constructed either by a call of
    [connect] from outside or by a scheduled reconnect. *)
Theorem reconnect_attempts_are_bounded_between_opens cb es :
  let c := Client.run es (newClient cb) in
  (reconnectAttempts c ≤ 5)%nat
  ∧ (scheduled c ≤ 5 * (1 + opens es))%nat
  ∧ (created c ≤ connects es + scheduled c)%nat.
Proof.
  intros c. destruct (bounded_run es cb) as (Ha & Hs & Hc).
  fold c in Ha, Hs, Hc. unfold maxReconnectAttempts in *. lia.
Qed.

Lemma step_sent c e :
  sent (manager (Client.step c e)) = sent (manager c)
  ∨ ∃ frame, sendable frame
      ∧ wsOpen (manager c) = true
      ∧ sent (manager (Client.step c e)) = sent (manager c) ++ [frame].
Proof.
  destruct e as [id ok|cur|cur code|ok| |content mid ts|i ts|data|d];
    simpl.
  - left. unfold connect. destruct (wsOpen (manager c)); [done|].
    destruct (isNaN id); [done|]. destruct ok; [done|].
    unfold scheduleReconnect. simpl. by destruct (_ <? _)%nat.
  - left. unfold onopen, readyState. by destruct (cur && hasSocket c).
  - left. unfold onclose, scheduleReconnect, readyState, stopHeartbeat.
    destruct (bool_decide _); simpl;
      destruct (cur && hasSocket c); simpl;
      destruct (heartbeatInterval c); simpl; try done;
      by destruct (_ <? _)%nat.
  - left. unfold reconnectTimer. destruct (reconnectTimers c); [done|].
    simpl. destruct (truthyId (userId c)); [|done].
    unfold connect. simpl. destruct (wsOpen (manager c)); [done|].
    destruct (isNaN _); [done|]. destruct ok; [done|].
    unfold scheduleReconnect. simpl. by destruct (_ <? _)%nat.
  - left. unfold disconnect, stopHeartbeat.
    destruct (heartbeatInterval c); simpl; by destruct (hasSocket c).
  - unfold sendChatMessage.
    destruct (isConnected c); simpl; [|by left].
    destruct (userId c) as [| |n] eqn:Hu; simpl; [by left|by left|].
    destruct (n =? 0) eqn:Hn; simpl; [by left|].
    apply Z.eqb_neq in Hn. unfold send. simpl.
    destruct (wsOpen (manager c)); simpl; [|by left].
    right. eexists. split; [|done]. left. by exists mid, content, n, ts.
  - destruct (bool_decide _); [|by left]. unfold sendHeartbeat.
    destruct (isConnected c); [|by left]. simpl. unfold send.
    destruct (wsOpen (manager c)); simpl; [|by left].
    right. eexists. split; [|done]. right. by exists (userId c), ts.
  - left. apply handleMessage_wire.
  - left. apply advance_wire.
Qed.

(** X24: in every run of a new client, each frame handed to the socket is
    a CHAT frame whose sender is a number other than 0, or a HEARTBEAT
    frame. *)
Theorem client_sends_only_chat_and_heartbeat_frames cb es frame :
  frame ∈ sent (manager (Client.run es (newClient cb))) →
  (∃ messageId content n timestamp,
     n ≠ 0 ∧ frame = chatMessage messageId content (UNum n) timestamp)
  ∨ (∃ id timestamp, frame = heartbeatMessage id timestamp).
Proof.
  induction es as [|e es IH] using rev_ind.
  - simpl. by intros ?%elem_of_nil.
  - rewrite run_snoc.
    destruct (step_sent (Client.run es (newClient cb)) e)
      as [->|(f & Hf & _ & ->)]; [done|].
    intros [H| ->%list_elem_of_singleton]%elem_of_app; [by apply IH|done].
Qed.

Lemma offline_step c0 c e :
  isConnect e = false → offline c0 c → offline c0 (Client.step c e).
Proof.
  unfold offline. intros He (Hu & Hs & Ho & Hc & Hw).
  destruct e as [id ok|cur|cur code|ok| |content mid ts|i ts|data|d];
    simpl; [done|..].
  - unfold onopen, readyState. rewrite Hs, andb_false_r. done.
  - unfold onclose, scheduleReconnect, readyState, stopHeartbeat.
    rewrite Hs, andb_false_r.
    destruct (bool_decide _); simpl;
      destruct (heartbeatInterval c); simpl; try done;
      by destruct (_ <? _)%nat.
  - unfold reconnectTimer. destruct (reconnectTimers c); [done|].
    simpl. by rewrite Hu.
  - unfold disconnect, stopHeartbeat.
    destruct (heartbeatInterval c); simpl; rewrite Hs; simpl;
      by repeat split.
  - unfold sendChatMessage. rewrite Hu, andb_false_r. done.
  - destruct (bool_decide _); [|done]. unfold sendHeartbeat.
    destruct (isConnected c); [|done]. simpl. unfold send. by rewrite Ho.
  - simpl. destruct (handleMessage_wire data (manager c)) as [-> ->]. done.
  - simpl. destruct (advance_wire d (manager c)) as [-> ->]. done.
Qed.

Lemma step_socket c e :
  (wsOpen (manager c) = true → hasSocket c = true) →
  wsOpen (manager (Client.step c e)) = true →
  hasSocket (Client.step c e) = true.
Proof.
  intros Hc.
  assert (Hc' : wsOpen (manager c) = false ∨ hasSocket c = true).
  { destruct (wsOpen (manager c)); auto. }
  clear Hc.
  destruct e as [id ok|cur|cur code|ok| |content mid ts|i ts|data|d];
    simpl.
  - unfold connect, scheduleReconnect.
    destruct (wsOpen (manager c)) eqn:Ho; simpl.
    { by destruct Hc'. }
    destruct (isNaN id); simpl; [by rewrite Ho|].
    destruct ok; simpl; [done|].
    destruct (_ <? _)%nat; simpl; by rewrite Ho.
  - unfold onopen, readyState.
    destruct (hasSocket c) eqn:Hs; [by destruct cur|].
    rewrite andb_false_r. simpl. rewrite Hs. by destruct Hc' as [->|].
  - unfold onclose, scheduleReconnect, readyState, stopHeartbeat.
    destruct (hasSocket c) eqn:Hs.
    + destruct (bool_decide _); simpl; destruct cur; simpl;
        destruct (heartbeatInterval c); simpl;
        try destruct (_ <? _)%nat; simpl; by rewrite ?Hs.
    + rewrite andb_false_r. destruct Hc' as [Ho|]; [|done].
      destruct (bool_decide _); simpl;
        destruct (heartbeatInterval c); simpl;
        try destruct (_ <? _)%nat; simpl; by rewrite Ho.
  - unfold reconnectTimer. destruct (reconnectTimers c); [by destruct Hc' as [->|]|].
    simpl. destruct (truthyId (userId c)); simpl; [|by destruct Hc' as [->|]].
    unfold connect, scheduleReconnect. simpl.
    destruct (wsOpen (manager c)) eqn:Ho; simpl.
    { by destruct Hc'. }
    destruct (isNaN _); simpl; [by rewrite Ho|]. destruct ok; simpl; [done|].
    destruct (_ <? _)%nat; simpl; by rewrite Ho.
  - unfold disconnect, stopHeartbeat.
    destruct (hasSocket c) eqn:Hs;
      destruct (heartbeatInterval c); simpl; rewrite Hs; simpl; try done;
      by destruct Hc' as [->|].
  - unfold sendChatMessage. destruct (_ && _); simpl;
      [|by destruct Hc' as [->|]].
    unfold send. simpl. destruct (wsOpen (manager c)) eqn:Ho; simpl;
      [by destruct Hc'|by rewrite ?Ho].
  - destruct (bool_decide _); [|by destruct Hc' as [->|]]. unfold sendHeartbeat.
    destruct (isConnected c); [|by destruct Hc' as [->|]]. simpl. unfold send.
    destruct (wsOpen (manager c)) eqn:Ho; simpl;
      [by destruct Hc'|by rewrite ?Ho].
  - destruct (handleMessage_wire data (manager c)) as [-> _].
    by destruct Hc' as [->|].
  - destruct (advance_wire d (manager c)) as [-> _].
    by destruct Hc' as [->|].
Qed.

Lemma run_socket cb es :
  wsOpen (manager (Client.run es (newClient cb))) = true →
  hasSocket (Client.run es (newClient cb)) = true.
Proof.
  induction es as [|e es IH] using rev_ind; [done|].
  rewrite run_snoc. by apply step_socket.
Qed.

Lemma offline_disconnect c :
  (wsOpen (manager c) = true → hasSocket c = true) →
  offline (disconnect c) (disconnect c) ∧ created (disconnect c) = created c.
Proof.
  intros Hc. unfold offline, disconnect, stopHeartbeat.
  destruct (hasSocket c) eqn:Hs;
    destruct (heartbeatInterval c); simpl; rewrite Hs; simpl;
    repeat split; try done;
    by destruct (wsOpen (manager c)); [discriminate Hc|].
Qed.

(** X25: after [disconnect], as long as [connect] is not called again, the
    client has no user id, constructs no socket (scheduled reconnects that
    come due do nothing), hands no frame to a socket, and rejects every
    chat message at once with the not-connected error. *)
Theorem disconnect_is_final cb before after :
  Forall (fun e => isConnect e = false) after →
  let c := disconnect (Client.run before (newClient cb)) in
  let c' := Client.run after c in
  userId c' = UNull
  ∧ created c' = created c
  ∧ wsOpen (manager c') = false
  ∧ sent (manager c') = sent (manager c)
  ∧ ∀ content messageId timestamp,
      (sendChatMessage content messageId timestamp c').1
      = inl notConnectedText.
Proof.
  intros Hes c c'.
  assert (H : offline c c').
  { subst c'. induction after as [|e es IH] using rev_ind.
    - apply offline_disconnect, run_socket.
    - apply Forall_app in Hes as [Hes He]. rewrite run_snoc.
      apply offline_step; [by inversion He|by apply IH]. }
  destruct H as (Hu & Hs & Ho & Hc & Hw).
  repeat split; try done.
  intros. unfold sendChatMessage. by rewrite Hu, andb_false_r.
Qed.

End ClientRuns.

Lemma client_sends_only_chat_and_heartbeat_frames_witness :
  Client.chatMessage "m1" "hello" (Client.UNum 42) "t0"
  ∈ WS.sent
      (Client.manager
         (Client.run
            [Client.Connect (Client.UNum 42) true; Client.Open true;
             Client.Chat "hello" "m1" "t0"] (Client.newClient true)))
  ∧ sendable (Client.chatMessage "m1" "hello" (Client.UNum 42) "t0").
Proof.
  assert (H : Client.chatMessage "m1" "hello" (Client.UNum 42) "t0"
              ∈ WS.sent
                  (Client.manager
                     (Client.run
                        [Client.Connect (Client.UNum 42) true;
                         Client.Open true; Client.Chat "hello" "m1" "t0"]
                        (Client.newClient true)))).
  { lazy -[Client.chatMessage]. apply list_elem_of_here. }
  split; [exact H|].
  exact (client_sends_only_chat_and_heartbeat_frames true _ _ H).
Defined.

Lemma disconnect_is_final_witness :
  Client.created
    (Client.run
       [Client.Close false 1006; Client.ReconnectTimer true;
        Client.Open false; Client.Chat "hello" "m2" "t1";
        Client.Tick 1 "t2"]
       (Client.disconnect
          (Client.run [Client.Connect (Client.UNum 42) true; Client.Open true]
                      (Client.newClient true))))
  = 1%nat.
Proof.
  destruct (disconnect_is_final true
              [Client.Connect (Client.UNum 42) true; Client.Open true]
              [Client.Close false 1006; Client.ReconnectTimer true;
               Client.Open false; Client.Chat "hello" "m2" "t1";
               Client.Tick 1 "t2"]) as (_ & H & _).
  { repeat constructor. }
  rewrite H. vm_compute. reflexivity.
Defined.

(** ** The document table of the vector store *)

Section VectorStoreFacts.

Import VectorStore.

Context {float64 : Type}.

Local Abbreviation Doc := (Document float64).
Local Abbreviation Docs := (gmap string (Document float64)).

Lemma AddDocument_accepts (doc : Doc) (documents : Docs) :
  storable doc →
  AddDocument doc documents = (None, <[ID doc := doc]> documents).
Proof.
  unfold AddDocument, storable. intros [He Hv].
  rewrite decide_False by done. rewrite decide_False; [done|].
  by destruct (Vector doc).
Qed.

Lemma AddDocument_refuses (doc : Doc) :
  ¬ storable doc →
  ∃ err, ∀ documents : Docs,
    AddDocument doc documents = (Some err, documents).
Proof.
  unfold AddDocument, storable. intros Hn.
  destruct (decide (ID doc = "")) as [He|He]; [by eexists|].
  destruct (decide (length (Vector doc) = 0%nat)) as [Hv|Hv]; [by eexists|].
  destruct Hn. split; [done|]. intros Hnil. by rewrite Hnil in Hv.
Qed.

Lemma AddDocuments_app (pre : list Doc) :
  ∀ (post : list Doc) (documents : Docs),
  Forall storable pre →
  (AddDocuments pre documents).1 = None
  ∧ AddDocuments (pre ++ post) documents
    = AddDocuments post (AddDocuments pre documents).2
  ∧ (AddDocuments pre documents).2
    = foldl (fun acc doc => <[ID doc := doc]> acc) documents pre.
Proof.
  induction pre as [|doc pre IH]; intros post documents Hv; [done|].
  apply Forall_cons in Hv as [Hd Hv]. simpl.
  rewrite AddDocument_accepts by done. by apply IH.
Qed.

Lemma foldl_insert_lookup (docs : list Doc) : ∀ (documents : Docs) id,
  foldl (fun acc doc => <[ID doc := doc]> acc) documents docs !! id
  = match last (filter (fun doc => ID doc = id) docs) with
    | Some doc => Some doc
    | None => documents !! id
    end.
Proof.
  induction docs as [|doc docs IH] using rev_ind; intros documents id;
    [done|].
  rewrite foldl_app, filter_app. simpl. rewrite filter_cons, filter_nil.
  destruct (decide (ID doc = id)) as [<-|Hne].
  - by rewrite last_snoc, lookup_insert_eq.
  - rewrite app_nil_r, lookup_insert_ne by done. apply IH.
Qed.

Lemma AddDocuments_refused pre bad post (documents : Docs) :
  Forall storable pre → ¬ storable bad →
  (AddDocuments (pre ++ bad :: post) documents).1
  = (AddDocument bad documents).1
  ∧ (AddDocuments (pre ++ bad :: post) documents).1 ≠ None
  ∧ (AddDocuments (pre ++ bad :: post) documents).2
    = foldl (fun acc doc => <[ID doc := doc]> acc) documents pre.
Proof.
  intros Hpre Hbad.
  destruct (AddDocuments_app pre (bad :: post) documents Hpre)
    as (_ & -> & <-).
  destruct (AddDocument_refuses bad Hbad) as [err He].
  simpl. by rewrite !He.
Qed.

Lemma AddDocument_cases (doc : Doc) :
  storable doc ∨ ¬ storable doc.
Proof.
  unfold storable.
  destruct (decide (ID doc = "")) as [He|He]; [right; tauto|].
  destruct (Vector doc); [right|left]; [tauto|done].
Qed.

Lemma AddDocuments_accepted (docs : list Doc) : ∀ documents : Docs,
  (AddDocuments docs documents).1 = None → Forall storable docs.
Proof.
  induction docs as [|doc docs IH]; intros documents Hok; [done|].
  destruct (AddDocument_cases doc) as [Hd|Hd].
  - simpl in Hok. rewrite AddDocument_accepts in Hok by done.
    constructor; [done|by eapply IH].
  - destruct (AddDocument_refuses doc Hd) as [err He].
    simpl in Hok. by rewrite He in Hok.
Qed.

(** X26: [AddDocuments] succeeds exactly when every document has an id and
    a vector that is not empty; then each id holds the last document of the
    batch that bears it. At the first document it refuses it stops with
    that document's error, and the documents before it stay stored: nothing
    is rolled back. *)
Theorem AddDocuments_keeps_what_precedes_the_first_refusal
    (docs : list Doc) (documents : Docs) :
  ((AddDocuments docs documents).1 = None ↔ Forall storable docs)
  ∧ (Forall storable docs →
     ∀ id, (AddDocuments docs documents).2 !! id
           = match last (filter (fun doc => ID doc = id) docs) with
             | Some doc => Some doc
             | None => documents !! id
             end)
  ∧ (∀ pre bad post,
       docs = pre ++ bad :: post → Forall storable pre → ¬ storable bad →
       (AddDocuments docs documents).1 = (AddDocument bad documents).1
       ∧ (AddDocuments docs documents).1 ≠ None
       ∧ (AddDocuments docs documents).2 = (AddDocuments pre documents).2
       ∧ ∀ doc, doc ∈ pre →
           is_Some ((AddDocuments docs documents).2 !! ID doc)).
Proof.
  split; [split|split].
  - apply AddDocuments_accepted.
  - intros Hall.
    by destruct (AddDocuments_app docs [] documents Hall) as (-> & _).
  - intros Hall id.
    destruct (AddDocuments_app docs [] documents Hall) as (_ & _ & ->).
    apply foldl_insert_lookup.
  - intros pre bad post -> Hpre Hbad.
    destruct (AddDocuments_refused pre bad post documents Hpre Hbad)
      as (-> & Hne & ->).
    destruct (AddDocuments_app pre [] documents Hpre) as (_ & _ & ->).
    split; [done|]. split.
    { destruct (AddDocument_refuses bad Hbad) as [err He]. by rewrite He. }
    split; [done|].
    intros doc Hin. rewrite foldl_insert_lookup.
    assert (Hl : is_Some (last (filter (fun d : Doc => ID d = ID doc) pre))).
    { apply last_is_Some. intros Hnil.
      assert (Hd : doc ∈ filter (fun d : Doc => ID d = ID doc) pre)
        by (by apply list_elem_of_filter).
      rewrite Hnil in Hd. by apply elem_of_nil in Hd. }
    destruct Hl as [d ->]. by exists d.
Qed.

(** X27: a stored document is found again under its id and nothing else
    moves; storing under a new id raises the count by one and storing under
    a taken id replaces the document and keeps the count; deleting a stored
    id lowers the count by one and makes the lookup fail; deleting or
    looking up an id that is not stored fails with the not-found error and
    changes nothing. *)
Theorem stored_documents_round_trip (doc : Doc) (documents : Docs) id :
  (storable doc →
   let documents' := (AddDocument doc documents).2 in
   GetDocument (ID doc) documents' = inr doc
   ∧ (∀ id', id' ≠ ID doc →
        GetDocument id' documents' = GetDocument id' documents)
   ∧ Count documents'
     = match documents !! ID doc with
       | Some _ => Count documents
       | None => S (Count documents)
       end
   ∧ (documents !! ID doc = None →
      (DeleteDocument (ID doc) documents').2 = documents))
  ∧ (is_Some (documents !! id) →
     (DeleteDocument id documents).1 = None
     ∧ GetDocument id (DeleteDocument id documents).2 = inl (notFound id)
     ∧ S (Count (DeleteDocument id documents).2) = Count documents)
  ∧ (documents !! id = None →
     DeleteDocument id documents = (Some (notFound id), documents)
     ∧ GetDocument id documents = inl (notFound id)).
Proof.
  split; [|split].
  - intros Hd documents'. subst documents'.
    rewrite AddDocument_accepts by done. simpl.
    unfold GetDocument, DeleteDocument, Count.
    rewrite lookup_insert_eq. split; [done|]. split.
    { intros id' Hne. by rewrite lookup_insert_ne. }
    split.
    + destruct (documents !! ID doc) eqn:Hl.
      * by rewrite map_size_insert_Some by eauto.
      * by rewrite map_size_insert_None.
    + intros Hl. simpl. rewrite delete_insert_eq. by apply delete_id.
  - intros [d Hd]. unfold DeleteDocument, GetDocument, Count. rewrite Hd.
    simpl. rewrite lookup_delete_eq. split; [done|]. split; [done|].
    rewrite map_size_delete_Some by eauto.
    assert (size documents ≠ 0%nat) by (apply map_size_ne_0_lookup; eauto).
    lia.
  - intros Hn. unfold DeleteDocument, GetDocument. by rewrite Hn.
Qed.

End VectorStoreFacts.

Lemma AddDocuments_keeps_what_precedes_the_first_refusal_witness :
  (VectorStore.AddDocuments [docReturns; docNoVector; docShipping] ∅).1
  = Some VectorStore.emptyVector
  ∧ is_Some
      ((VectorStore.AddDocuments [docReturns; docNoVector; docShipping] ∅).2
         !! "kb-1")
  ∧ (VectorStore.AddDocuments [docReturns; docNoVector; docShipping] ∅).2
      !! "kb-3" = None.
Proof.
  destruct (AddDocuments_keeps_what_precedes_the_first_refusal
              [docReturns; docNoVector; docShipping] ∅) as (_ & _ & H).
  destruct (H [docReturns] docNoVector [docShipping] eq_refl)
    as (H1 & _ & H2 & H3).
  { repeat constructor; by vm_compute. }
  { intros [_ Hv]. by apply Hv. }
  split; [by rewrite H1|]. split.
  - apply (H3 docReturns). apply list_elem_of_here.
  - rewrite H2. by vm_compute.
Defined.

Lemma stored_documents_round_trip_witness :
  VectorStore.GetDocument "kb-1" (VectorStore.AddDocument docReturns ∅).2
  = inr docReturns
  ∧ VectorStore.Count (VectorStore.AddDocument docReturns ∅).2 = 1%nat.
Proof.
  destruct (stored_documents_round_trip docReturns ∅ "kb-1") as (H & _ & _).
  destruct H as (H1 & _ & H2 & _).
  { split; by vm_compute. }
  split; [exact H1|exact H2].
Defined.
